(** * gomemo: a shallow embedding of the memoization engine

    The development follows the packages of the repository:
    - [backends]  : cache entries ([CacheEntry]) and the backend registry,
    - [memory]    : the in-memory reference backend,
    - [memo]      : metrics, the single-flight coordinator and the [Memoizer],
    - [hashutil]  : the key-hashing helper.

    Go's machine integers are integers of [Z] with the wrap-around written
    out, maps are [gmap]s, [any] values are a small tagged union with the
    [nil] interface value, and code that reads the wall clock or mutates an
    object threads the state explicitly. *)

From Stdlib Require Import ZArith Floats Lia.
From stdpp Require Import gmap strings list fin_maps pretty.

Open Scope Z_scope.

(** ** Machine integers *)

(** [uint64] arithmetic wraps modulo [2^64]. *)
Definition wrapU64 (z : Z) : Z := z mod 2 ^ 64.

(** [int64] arithmetic wraps into [-2^63, 2^63). *)
Definition wrap64 (z : Z) : Z := (z + 2 ^ 63) mod 2 ^ 64 - 2 ^ 63.

Definition MaxInt64 : Z := 2 ^ 63 - 1.
Definition MinInt64 : Z := - 2 ^ 63.

Definition in_int64 (z : Z) : Prop := MinInt64 <= z <= MaxInt64.

(** ** Go values *)

(** A value of interface type [any]: the [nil] interface value or a value
    of one of the dynamic types the callers of this package store. *)
Inductive any : Type :=
  | nil : any
  | AInt (n : Z) : any
  | AString (s : string) : any
  | ABool (b : bool) : any.

(** A value of interface type [error]: [None] is the nil error, [Some msg]
    an error whose [Error()] text is [msg]. *)
Definition error : Type := option string.

Definition errors_New (msg : string) : error := Some msg.

(** ** Time *)

(** [time.Duration] is an [int64] count of nanoseconds. *)
Definition Nanosecond : Z := 1.
Definition Microsecond : Z := 1000 * Nanosecond.
Definition Millisecond : Z := 1000 * Microsecond.
Definition Second : Z := 1000 * Millisecond.
Definition Minute : Z := 60 * Second.
Definition Hour : Z := 60 * Minute.

(** [Duration.Microseconds]: integer division of [int64], truncated toward
    zero. *)
Definition Microseconds (d : Z) : Z := Z.quot d 1000.

(** The wall clock is an oracle: the [n]-th call of [time.Now()] of a run
    returns [readings n], as Unix nanoseconds.  [pos] counts the calls made
    so far. *)
Record Clock : Type := mkClock { readings : nat -> Z; pos : nat }.

(** A small state monad; [Timed] is its instance on the clock. *)
Definition State (S A : Type) : Type := S -> A * S.

Definition ret {S A : Type} (a : A) : State S A := fun s => (a, s).

Definition bind {S A B : Type} (c : State S A) (k : A -> State S B) : State S B :=
  fun s => let '(a, s') := c s in k a s'.

Declare Scope state_scope.
Delimit Scope state_scope with state.
Notation "x <- c ;; k" := (bind c (fun x => k))
  (at level 100, c at next level, right associativity) : state_scope.
Notation "'perform' c ;; k" := (bind c (fun _ => k))
  (at level 100, c at next level, right associativity) : state_scope.
Open Scope state_scope.

Definition Timed (A : Type) : Type := State Clock A.

(** [time.Now()], as Unix nanoseconds. *)
Definition time_Now : Timed Z :=
  fun clk => (readings clk (pos clk), mkClock (readings clk) (S (pos clk))).

(** [t.Add(d).UnixNano()] for a reading [t]: the sum, in [int64]. *)
Definition Add_UnixNano (t d : Z) : Z := wrap64 (t + d).

(** The reading the next [time.Now()] returns. *)
Definition next_reading (clk : Clock) : Z := readings clk (pos clk).

(** ** Package backends: cache entries *)

Record CacheEntry : Type := mkCacheEntry {
  Value : any;     (* value stored *)
  expiry : Z;      (* int64, unix nanoseconds; 0 means no expiration *)
  version : Z      (* uint64, counter incremented on writes *)
}.

(** The zero value of the struct ([var entry CacheEntry]). *)
Definition zeroCacheEntry : CacheEntry := mkCacheEntry nil 0 0.

(** [NewEntry]: the clock is read only when [ttl > 0]. *)
Definition NewEntry (v : any) (ttl : Z) (ver : Z) : Timed CacheEntry :=
  exp <- (if 0 <? ttl
          then now <- time_Now ;; ret (Add_UnixNano now ttl)
          else ret 0) ;;
  ret (mkCacheEntry v exp ver).

(** [IsExpired]: the clock is read only when an expiry is set. *)
Definition IsExpired (e : CacheEntry) : Timed bool :=
  let exp := expiry e in
  if exp =? 0 then ret false
  else now <- time_Now ;; ret (exp <? now).

Definition TTLRemaining (e : CacheEntry) : Timed Z :=
  let exp := expiry e in
  if exp =? 0 then ret 0
  else now <- time_Now ;;
       let rem := wrap64 (exp - now) in
       if rem <=? 0 then ret 0 else ret rem.

(** [SetExpiry] stores into the entry: the updated entry is returned. *)
Definition SetExpiry (ttl : Z) (e : CacheEntry) : Timed CacheEntry :=
  exp <- (if 0 <? ttl
          then now <- time_Now ;; ret (Add_UnixNano now ttl)
          else ret 0) ;;
  ret (mkCacheEntry (Value e) exp (version e)).

Definition Version (e : CacheEntry) : Z := version e.

(** [BumpVersion]: [atomic.AddUint64(&e.version, 1)] returns the new value
    and leaves it in the entry. *)
Definition BumpVersion (e : CacheEntry) : Z * CacheEntry :=
  let v := wrapU64 (version e + 1) in
  (v, mkCacheEntry (Value e) (expiry e) v).

(** ** Package memory: the in-memory backend *)

Record Memory : Type := mkMemory { entries : gmap string CacheEntry }.

(** [memory.New()] (the periodic sweep it starts is [Memory_sweep]). *)
Definition Memory_New : Memory := mkMemory ∅.

Definition Memory_Get (key : string) (m : Memory) : Timed (any * bool * Memory) :=
  match entries m !! key with
  | None => ret (nil, false, m)
  | Some entry =>
      expired <- IsExpired entry ;;
      if expired
      then ret (nil, false, mkMemory (delete key (entries m)))
      else ret (Value entry, true, m)
  end.

(** [Set]: the version comes from [BumpVersion] on the fresh local [entry],
    not on the entry the map holds. *)
Definition Memory_Set (key : string) (value : any) (ttl : Z) (m : Memory)
  : Timed Memory :=
  let entry := zeroCacheEntry in
  let '(ver, _) := BumpVersion entry in
  entry <- NewEntry value ttl ver ;;
  ret (mkMemory (<[key := entry]> (entries m))).

Definition Memory_Delete (key : string) (m : Memory) : Memory :=
  mkMemory (delete key (entries m)).

Definition Memory_Clear (m : Memory) : Memory := mkMemory ∅.

(** One pass of the cleanup goroutine over the entries listed in [keys]:
    each entry that [IsExpired] reports expired is deleted. *)
Fixpoint Memory_sweep (keys : list string) (m : Memory) : Timed Memory :=
  match keys with
  | [] => ret m
  | key :: rest =>
      match entries m !! key with
      | None => Memory_sweep rest m
      | Some entry =>
          expired <- IsExpired entry ;;
          Memory_sweep rest (if expired then mkMemory (delete key (entries m)) else m)
      end
  end.

(** ** Package backends: the [Backend] interface and the registry *)

(** The method set of the interface, for an implementation type [B].  A
    method that mutates its receiver returns the receiver's new state; a
    method may read the clock. *)
Class BackendMethods (B : Type) : Type := {
  impl_Get : string -> B -> Timed (any * bool * B);
  impl_Set : string -> any -> Z -> B -> Timed B;
  impl_Delete : string -> B -> B;
  impl_Clear : B -> B
}.

(** A non-nil value of interface type [Backend]: a dynamic type, its
    methods and the object. *)
Record Backend : Type := mkBackend {
  dyn : Type;
  methods : BackendMethods dyn;
  self : dyn
}.

Definition Backend_Get (key : string) (b : Backend) : Timed (any * bool * Backend) :=
  r <- @impl_Get _ (methods b) key (self b) ;;
  let '(v, ok, s) := r in ret (v, ok, mkBackend (dyn b) (methods b) s).

Definition Backend_Set (key : string) (value : any) (ttl : Z) (b : Backend)
  : Timed Backend :=
  s <- @impl_Set _ (methods b) key value ttl (self b) ;;
  ret (mkBackend (dyn b) (methods b) s).

Definition Backend_Delete (key : string) (b : Backend) : Backend :=
  mkBackend (dyn b) (methods b) (@impl_Delete _ (methods b) key (self b)).

Definition Backend_Clear (b : Backend) : Backend :=
  mkBackend (dyn b) (methods b) (@impl_Clear _ (methods b) (self b)).

#[export] Instance Memory_methods : BackendMethods Memory := {|
  impl_Get := Memory_Get;
  impl_Set := Memory_Set;
  impl_Delete := Memory_Delete;
  impl_Clear := Memory_Clear
|}.

(** A [*Memory] as a [Backend]. *)
Definition Memory_Backend (m : Memory) : Backend := mkBackend Memory Memory_methods m.

(** Calls through an interface value dispatch to its dynamic type. *)
#[export] Instance Backend_methods : BackendMethods Backend := {|
  impl_Get := Backend_Get;
  impl_Set := Backend_Set;
  impl_Delete := Backend_Delete;
  impl_Clear := Backend_Clear
|}.

(** A call either returns or panics with a message. *)
Inductive outcome (A : Type) : Type :=
  | Returns (a : A) : outcome A
  | Panics (msg : string) : outcome A.
Arguments Returns {A} a.
Arguments Panics {A} msg.

(** [BackendFactory] is a function type: [None] is the nil function. *)
Abbreviation BackendFactory := (option (unit -> Backend)).

(** [RegisterBackend], on the package-level [registry]. *)
Definition RegisterBackend (name : string) (factory : BackendFactory)
    (registry : gmap string BackendFactory) : outcome (gmap string BackendFactory) :=
  match factory with
  | None => Panics "backend factory cannot be nil"
  | Some _ =>
      match registry !! name with
      | Some _ => Panics ("backend factory already registered: " +:+ name)
      | None => Returns (<[name := factory]> registry)
      end
  end.

(** [NewBackend] returns [(Backend, error)]; calling a nil function value is
    a run-time panic. *)
Definition NewBackend (backendType : string) (registry : gmap string BackendFactory)
  : outcome (option Backend * error) :=
  match registry !! backendType with
  | None => Returns (None, Some ("unknown backend type: " +:+ backendType))
  | Some None => Panics "invalid memory address or nil pointer dereference"
  | Some (Some factory) => Returns (Some (factory tt), None)
  end.

Definition BackendExists (name : string) (registry : gmap string BackendFactory) : bool :=
  match registry !! name with Some _ => true | None => false end.

(** [ListBackends]: the names, in the order the iteration over the map
    gives them (an order Go leaves unspecified). *)
Definition ListBackends (registry : gmap string BackendFactory) : list string :=
  (map_to_list registry).*1.

(** The registry after the [init] of package [memory]. *)
Definition memory_init (registry : gmap string BackendFactory)
  : outcome (gmap string BackendFactory) :=
  RegisterBackend "memory" (Some (fun _ => Memory_Backend Memory_New)) registry.

(** A run of registrations, stopping at the first panic. *)
Fixpoint RegisterAll (regs : list (string * BackendFactory))
    (registry : gmap string BackendFactory) : outcome (gmap string BackendFactory) :=
  match regs with
  | [] => Returns registry
  | (name, factory) :: rest =>
      match RegisterBackend name factory registry with
      | Returns registry' => RegisterAll rest registry'
      | Panics msg => Panics msg
      end
  end.

(** No nil factory ever enters the registry. *)
Definition no_nil_factory (registry : gmap string BackendFactory) : Prop :=
  forall name, registry !! name <> Some None.

(** ** Package memo: metrics *)

Record Metrics : Type := mkMetrics {
  Enabled : bool;
  Hits : Z;            (* uint64 *)
  Misses : Z;          (* uint64 *)
  Evictions : Z;       (* uint64 *)
  Requests : Z;        (* uint64 *)
  totalLatency : Z;    (* uint64, microseconds *)
  countLatency : Z;    (* uint64 *)
  minLatency : Z;      (* int64, microseconds *)
  maxLatency : Z;      (* int64, microseconds *)
  lastLatency : Z      (* int64, microseconds *)
}.

(** [int64(^uint64(0) >> 1)] *)
Definition maxInt64_expr : Z := wrap64 (Z.shiftr (wrapU64 (Z.lnot 0)) 1).

Definition NewMetrics (enabled : bool) : Metrics :=
  mkMetrics enabled 0 0 0 0 0 0 (if enabled then maxInt64_expr else 0) 0 0.

Definition RecordHit (m : Metrics) : Metrics :=
  if negb (Enabled m) then m
  else mkMetrics (Enabled m) (wrapU64 (Hits m + 1)) (Misses m) (Evictions m)
         (wrapU64 (Requests m + 1)) (totalLatency m) (countLatency m)
         (minLatency m) (maxLatency m) (lastLatency m).

Definition RecordMiss (m : Metrics) : Metrics :=
  if negb (Enabled m) then m
  else mkMetrics (Enabled m) (Hits m) (wrapU64 (Misses m + 1)) (Evictions m)
         (wrapU64 (Requests m + 1)) (totalLatency m) (countLatency m)
         (minLatency m) (maxLatency m) (lastLatency m).

Definition RecordEviction (m : Metrics) : Metrics :=
  if negb (Enabled m) then m
  else mkMetrics (Enabled m) (Hits m) (Misses m) (wrapU64 (Evictions m + 1))
         (Requests m) (totalLatency m) (countLatency m)
         (minLatency m) (maxLatency m) (lastLatency m).

(** [RecordLatency]: run by one goroutine, each compare-and-swap loop
    takes its first exit or swaps at once. *)
Definition RecordLatency (duration : Z) (m : Metrics) : Metrics :=
  if negb (Enabled m) then m
  else
    let microseconds := Microseconds duration in
    let oldMin := minLatency m in
    let oldMax := maxLatency m in
    mkMetrics (Enabled m) (Hits m) (Misses m) (Evictions m) (Requests m)
      (wrapU64 (totalLatency m + wrapU64 microseconds))
      (wrapU64 (countLatency m + 1))
      (if oldMin <=? microseconds then oldMin else microseconds)
      (if microseconds <=? oldMax then oldMax else microseconds)
      microseconds.

Definition Snapshot (m : Metrics) : Metrics :=
  mkMetrics (Enabled m) (Hits m) (Misses m) (Evictions m) (Requests m)
    (totalLatency m) (countLatency m) (minLatency m) (maxLatency m) (lastLatency m).

(** [float64(n)] for a [uint64] [n]: the nearest binary64 number. *)
Definition float64_of_uint64 (n : Z) : float :=
  SF2Prim (binary_normalize prec emax n 0 false).

Definition HitRatio (m : Metrics) : float :=
  if negb (Enabled m) then 0%float
  else
    let total := Requests m in
    if total =? 0 then 0%float
    else (float64_of_uint64 (Hits m) / float64_of_uint64 total)%float.

Definition AvgLatency (m : Metrics) : float :=
  let count := countLatency m in
  if count =? 0 then 0%float
  else (float64_of_uint64 (totalLatency m) / float64_of_uint64 count)%float.

(** [time.Duration(us) * time.Microsecond], an [int64] product. *)
Definition MinLatency (m : Metrics) : Z :=
  let microseconds := minLatency m in
  if microseconds <? 0 then 0
  else wrap64 (microseconds * Microsecond).

Definition MaxLatency (m : Metrics) : Z := wrap64 (maxLatency m * Microsecond).

Definition LastLatency (m : Metrics) : Z := wrap64 (lastLatency m * Microsecond).

(** The recording operations, as data, to speak of any sequence of calls. *)
Inductive MetricsOp : Type :=
  | OpRecordHit
  | OpRecordMiss
  | OpRecordEviction
  | OpRecordLatency (duration : Z).

Definition apply_op (m : Metrics) (op : MetricsOp) : Metrics :=
  match op with
  | OpRecordHit => RecordHit m
  | OpRecordMiss => RecordMiss m
  | OpRecordEviction => RecordEviction m
  | OpRecordLatency d => RecordLatency d m
  end.

Definition apply_ops (ops : list MetricsOp) (m : Metrics) : Metrics :=
  foldl apply_op m ops.

(** The calls of each kind in a run of recording operations, and the
    durations handed to [RecordLatency], in order. *)
Definition is_hit (op : MetricsOp) : bool :=
  match op with OpRecordHit => true | _ => false end.

Definition is_miss (op : MetricsOp) : bool :=
  match op with OpRecordMiss => true | _ => false end.

Definition is_eviction (op : MetricsOp) : bool :=
  match op with OpRecordEviction => true | _ => false end.

Definition count_ops (kind : MetricsOp -> bool) (ops : list MetricsOp) : Z :=
  Z.of_nat (length (List.filter kind ops)).

Definition durations (ops : list MetricsOp) : list Z :=
  omap (fun op => match op with OpRecordLatency d => Some d | _ => None end) ops.

(** ** Package hashutil *)

(** The standard-library functions [HashArgs] calls.  A [gob.Encoder] is
    stateful (it remembers what it has sent on its stream), so encoding is
    a step on the encoder; [enc_Bytes] is the content of the buffer it
    writes to. *)
Class GoLibrary : Type := {
  Encoder : Type;
  gob_NewEncoder : Encoder;                          (* over an empty buffer *)
  gob_Encode : Encoder -> list any -> error * Encoder;
  enc_Bytes : Encoder -> list Byte.byte;
  sha256_Sum256 : list Byte.byte -> list Byte.byte;
  Sprintf_x : list Byte.byte -> string;              (* fmt.Sprintf("%x", sum) *)
  Sprintf_gosyntax : list any -> string              (* fmt.Sprintf("%#v", args) *)
}.

Section hashutil.
Context `{lib : GoLibrary}.

Definition fallbackHash (args : list any) : string :=
  let data := Sprintf_gosyntax args in
  let sum := sha256_Sum256 (String.list_byte_of_string data) in
  Sprintf_x sum.

Definition HashArgs (args : list any) : string :=
  let enc := gob_NewEncoder in
  let '(err, enc) := gob_Encode enc args in
  match err with
  | Some _ => fallbackHash args
  | None =>
      let sum := sha256_Sum256 (enc_Bytes enc) in
      Sprintf_x sum
  end.

End hashutil.

(** A small stand-in for the library, to evaluate the definitions on
    concrete inputs: it encodes integers, strings and booleans, fails on a
    nil element (as [gob] does), and its digest is the identity. *)
Definition standin_encode_one (a : any) : option (list Byte.byte) :=
  match a with
  | nil => None
  | AInt n => Some (String.list_byte_of_string (pretty n))
  | AString s => Some (String.list_byte_of_string s)
  | ABool b => Some (String.list_byte_of_string (if b then "true" else "false"))
  end.

Fixpoint standin_encode (args : list any) : option (list Byte.byte) :=
  match args with
  | [] => Some []
  | a :: rest =>
      match standin_encode_one a, standin_encode rest with
      | Some x, Some y => Some (x ++ y)
      | _, _ => None
      end
  end.

Definition standin_library : GoLibrary := {|
  Encoder := list Byte.byte;
  gob_NewEncoder := [];
  gob_Encode := fun enc args =>
    match standin_encode args with
    | Some bytes => (None, enc ++ bytes)
    | None => (Some "gob: cannot encode nil value", enc)
    end;
  enc_Bytes := fun enc => enc;
  sha256_Sum256 := fun bytes => bytes;
  Sprintf_x := String.string_of_list_byte;
  Sprintf_gosyntax := fun args => pretty (length args)
|}.

(** ** Package memo: options *)

Module Options.
Record t : Type := mk {
  TTL : Z;
  KeyFunc : option (list any -> string);
  CacheOnCancel : bool;
  CleanupInterval : Z;
  Backend : option Backend;         (* an interface value, nil-able *)
  MetricsEnabled : bool
}.
End Options.

(** An [Option] mutates the [*Options] it is given. *)
Definition Option : Type := Options.t -> Options.t.

Definition DefaultOptions `{lib : GoLibrary} : Options.t :=
  Options.mk Hour (Some HashArgs) false Hour (Some (Memory_Backend Memory_New)) false.

Definition WithTTL (ttl : Z) : Option := fun o =>
  Options.mk ttl (Options.KeyFunc o) (Options.CacheOnCancel o)
    (Options.CleanupInterval o) (Options.Backend o) (Options.MetricsEnabled o).

Definition WithKeyFunc (fn : option (list any -> string)) : Option := fun o =>
  Options.mk (Options.TTL o) fn (Options.CacheOnCancel o)
    (Options.CleanupInterval o) (Options.Backend o) (Options.MetricsEnabled o).

Definition WithBackend (b : option Backend) : Option := fun o =>
  Options.mk (Options.TTL o) (Options.KeyFunc o) (Options.CacheOnCancel o)
    (Options.CleanupInterval o) b (Options.MetricsEnabled o).

Definition WithCleanupInterval (d : Z) : Option := fun o =>
  Options.mk (Options.TTL o) (Options.KeyFunc o) (Options.CacheOnCancel o)
    d (Options.Backend o) (Options.MetricsEnabled o).

Definition WithCacheOnCancel (enabled : bool) : Option := fun o =>
  Options.mk (Options.TTL o) (Options.KeyFunc o) enabled
    (Options.CleanupInterval o) (Options.Backend o) (Options.MetricsEnabled o).

Definition WithMetrics (enabled : bool) : Option := fun o =>
  Options.mk (Options.TTL o) (Options.KeyFunc o) (Options.CacheOnCancel o)
    (Options.CleanupInterval o) (Options.Backend o) enabled.

Definition Validate (o : Options.t) : error :=
  match Options.Backend o with
  | None => errors_New "backend cannot be nil"
  | Some _ =>
      if Options.TTL o <=? 0 then errors_New "TTL must be positive"
      else None
  end.

(** ** Package memo: the single-flight coordinator *)

Record call : Type := mkCall {
  wg : Z;          (* the WaitGroup counter *)
  val : any;
  err : error
}.

Record SingleFlight : Type := mkSingleFlight { sf_m : gmap string call }.

Definition NewSingleFlight : SingleFlight := mkSingleFlight ∅.

(** A [context.Context] as a caller sees it: whether its [Done] channel
    is closed, and [Err()]. *)
Record Context : Type := mkContext { ctx_Done : bool; ctx_Err : error }.

Definition context_Background : Context := mkContext false None.

(** ** Package memo: the memoizer *)

(** The memoizer, over the type [B] of its backend: the interface type
    [Backend] for a memoizer made by [New], or an implementation such as
    [Memory] when the backend is known.  [New] is the only constructor,
    and it leaves no nil backend. *)
Record Memoizer (B : Type) : Type := mkMemoizer {
  backend : B;
  opts : Options.t;
  group : SingleFlight;
  metrics : Metrics
}.
Arguments mkMemoizer {B} backend opts group metrics.
Arguments backend {B} m.
Arguments opts {B} m.
Arguments group {B} m.
Arguments metrics {B} m.

(** The options applied in order to the defaults. *)
Definition apply_options (opts : list Option) (cfg : Options.t) : Options.t :=
  foldl (fun cfg opt => opt cfg) cfg opts.

Definition New `{lib : GoLibrary} (opts : list Option) : outcome (Memoizer Backend) :=
  let cfg := apply_options opts DefaultOptions in
  match Validate cfg with
  | Some err => Panics err
  | None =>
      match Options.Backend cfg with
      | Some b =>
          Returns (mkMemoizer b cfg NewSingleFlight (NewMetrics (Options.MetricsEnabled cfg)))
      | None => Panics "backend cannot be nil"   (* excluded by [Validate] *)
      end
  end.

(** [now.Sub(start)]: the difference, saturated to the range of
    [Duration]. *)
Definition Sub_sat (now start : Z) : Z :=
  let d := now - start in
  if d <? MinInt64 then MinInt64 else if MaxInt64 <? d then MaxInt64 else d.

Definition time_Since (start : Z) : Timed Z :=
  now <- time_Now ;; ret (Sub_sat now start).

(** What a call of [Get] runs on: the memoizer object, the clock, and the
    state [U] the caller's computations live in.  A computation
    [func() (any, error)] is a step on [U]; it does not reach the
    memoizer. *)
Record Sys (B U : Type) : Type := mkSys {
  memo : Memoizer B;
  clock : Clock;
  user : U
}.
Arguments mkSys {B U} memo clock user.
Arguments memo {B U} s.
Arguments clock {B U} s.
Arguments user {B U} s.

Definition set_backend {B : Type} (b : B) (m : Memoizer B) : Memoizer B :=
  mkMemoizer b (opts m) (group m) (metrics m).

Definition set_group {B : Type} (g : SingleFlight) (m : Memoizer B) : Memoizer B :=
  mkMemoizer (backend m) (opts m) g (metrics m).

Definition set_metrics {B : Type} (x : Metrics) (m : Memoizer B) : Memoizer B :=
  mkMemoizer (backend m) (opts m) (group m) x.

Section Memoizer.
Context {B U : Type} `{BM : BackendMethods B}.

Definition with_clock {A : Type} (c : Timed A) : State (Sys B U) A := fun s =>
  let '(a, clk) := c (clock s) in (a, mkSys (memo s) clk (user s)).

(** [m.backend.Get(key)] *)
Definition backend_Get (key : string) : State (Sys B U) (any * bool) := fun s =>
  let '(v, ok, b, clk) := impl_Get key (backend (memo s)) (clock s) in
  ((v, ok), mkSys (set_backend b (memo s)) clk (user s)).

(** [m.backend.Set(key, value, ttl)] *)
Definition backend_Set (key : string) (value : any) (ttl : Z) : State (Sys B U) unit :=
  fun s =>
  let '(b, clk) := impl_Set key value ttl (backend (memo s)) (clock s) in
  (tt, mkSys (set_backend b (memo s)) clk (user s)).

(** a method of [m.metrics] *)
Definition on_metrics (f : Metrics -> Metrics) : State (Sys B U) unit := fun s =>
  (tt, mkSys (set_metrics (f (metrics (memo s))) (memo s)) (clock s) (user s)).

Definition on_group (f : gmap string call -> gmap string call) : State (Sys B U) unit :=
  fun s =>
  (tt, mkSys (set_group (mkSingleFlight (f (sf_m (group (memo s))))) (memo s))
         (clock s) (user s)).

(** the caller's computation *)
Definition call_user {A : Type} (fn : State U A) : State (Sys B U) A := fun s =>
  let '(a, u) := fn (user s) in (a, mkSys (memo s) (clock s) u).

(** [SingleFlight.Do], run by one goroutine.  [None] is a call that never
    returns: a call for the key is in flight, nobody else runs to finish
    it, and the context is never cancelled.  The owner's writes to its
    [call] end with the call removed from the map.  When the call found
    in the map is finished and the context is cancelled too, both cases
    of the [select] are ready and Go takes either; this definition takes
    the finished call's result.  A goroutine running alone never meets
    that state, an owner having removed its call before it returns; the
    interleaving model below has both cases, under the scheduler's
    choice. *)
Definition Do (ctx : Context) (key : string)
    (fn : Context -> State (Sys B U) (any * error))
  : State (Sys B U) (option (any * error * bool)) := fun s =>
  match sf_m (group (memo s)) !! key with
  | Some c =>
      if wg c =? 0 then (Some (val c, err c, false), s)
      else if ctx_Done ctx then (Some (nil, ctx_Err ctx, false), s)
      else (None, s)
  | None =>
      (perform on_group (insert key (mkCall 1 nil None)) ;;
       r <- fn ctx ;;
       let c := mkCall 0 (fst r) (snd r) in
       perform on_group (delete key) ;;
       ret (Some (val c, err c, true))) s
  end.

(** The function [Get] hands to [Do]. *)
Definition Get_compute (key : string) (fn : State U (any * error))
  : Context -> State (Sys B U) (any * error) := fun ctx2 =>
  r <- backend_Get key ;;
  let '(val, ok) := r in
  if ok
  then perform on_metrics RecordHit ;; ret (val, None)
  else
    r <- call_user fn ;;
    let '(result, err) := r in
    match err with
    | Some _ => ret (nil, err)
    | None =>
        fun s =>
          (perform backend_Set key result (Options.TTL (opts (memo s))) ;;
           ret (result, None)) s
    end.

Definition Get (ctx : Context) (key : string) (fn : State U (any * error))
  : State (Sys B U) (option (any * error)) :=
  r <- backend_Get key ;;
  let '(val, ok) := r in
  if ok
  then perform on_metrics RecordHit ;; ret (Some (val, None))
  else
    perform on_metrics RecordMiss ;;
    start <- with_clock time_Now ;;
    d <- Do ctx key (Get_compute key fn) ;;
    match d with
    | None => ret None
    | Some (v, err, _) =>
        elapsed <- with_clock (time_Since start) ;;
        perform on_metrics (RecordLatency elapsed) ;;
        ret (Some (v, err))
    end.

Definition Delete (key : string) : State (Sys B U) unit := fun s =>
  (tt, mkSys (set_backend (impl_Delete key (backend (memo s))) (memo s))
         (clock s) (user s)).

Definition Clear : State (Sys B U) unit := fun s =>
  (tt, mkSys (set_backend (impl_Clear (backend (memo s))) (memo s))
         (clock s) (user s)).
End Memoizer.

(** A memoizer over a [*Memory], seen as [New] builds it: over the
    interface value that holds the [*Memory]. *)
Definition as_Backend {U : Type} (s : Sys Memory U) : Sys Backend U :=
  mkSys (mkMemoizer (Memory_Backend (backend (memo s))) (opts (memo s))
           (group (memo s)) (metrics (memo s)))
        (clock s) (user s).

(** How many times the clock has been read when a [Get] that misses takes
    its start time: the first lookup reads the clock when it finds an
    entry with an expiry to test. *)
Definition start_pos {U : Type} (key : string) (s : Sys Memory U) : nat :=
  (pos (clock s) + match entries (backend (memo s)) !! key with Some _ => 1 | None => 0 end)%nat.

(** ** Package memo: [MemoizeFunc] *)

Section MemoizeFunc.
Context {B U : Type} `{BM : BackendMethods B}.
Variable Sprintf_v : list any -> string.      (* fmt.Sprintf("%v", args) *)

(** The key the wrapper computes for an argument list. *)
Definition MemoizeFunc_key (m : Memoizer B) (args : list any) : string :=
  let key := "memoized_func_" in
  match Options.KeyFunc (opts m) with
  | Some keyFunc => keyFunc args
  | None => key +:+ Sprintf_v args
  end.

(** [MemoizeFunc]: the function returned, a closure over the memoizer and
    [fn]. *)
Definition MemoizeFunc (fn : Context -> list any -> State U (any * error))
  : Context -> list any -> State (Sys B U) (option (any * error)) :=
  fun ctx args s =>
    let key := MemoizeFunc_key (memo s) args in
    Get ctx key (fn ctx args) s.
End MemoizeFunc.

(** ** Concurrent callers of [Get] on one key

    Goroutines that call [Get] with the same key on one memoizer over the
    in-memory backend, interleaved at the granularity of the locks: a
    backend method and a critical section of [Do] are one step each, and
    so is a run of the caller's computation.  The metrics calls and the
    latency timer are left out: they neither read nor write what the
    coordination depends on.  So is the cleanup goroutine of the backend,
    which deletes expired entries only.  Two pieces of bookkeeping are
    added to speak of sessions: a call that has returned remembers the
    single-flight call it took its result from, and the calls whose owner
    ran the computation are logged. *)

(** Where a goroutine stands in [Get] and [Do]. *)
Inductive pc : Type :=
  | AtLookup                                (* before [m.backend.Get(key)] *)
  | AtDo                                    (* missed; before [g.mu.Lock()] in [Do] *)
  | Waiting (c : nat)                       (* in the [select], on call [c] *)
  | AtRecheck (c : nat)                     (* owner of [c]; before the re-check *)
  | AtCompute (c : nat)                     (* re-check missed; before [fn()] *)
  | AtStore (c : nat) (result : any)        (* before [m.backend.Set] *)
  | AtPublish (c : nat) (r : any * error)   (* before [c.val, c.err = ...; c.wg.Done()] *)
  | AtCleanup (c : nat) (r : any * error)   (* before [delete(g.m, key)] *)
  | Returned (via : option nat) (r : any * error).
      (* returned [r]; [via] is the call it came from: as owner, or as a
         waiter released by [wg.Done()] *)

(** One call of [Get]: its context and its computation. *)
Record Caller (U : Type) : Type := mkCaller {
  caller_ctx : Context;
  caller_fn : State U (any * error)
}.
Arguments mkCaller {U} caller_ctx caller_fn.
Arguments caller_ctx {U} c.
Arguments caller_fn {U} c.

(** What the goroutines share.  [sh_m] is [g.m], a map to pointers:
    [sh_calls] is the heap of [call] objects, a pointer is an index into
    it, and [new(call)] appends.  [sh_ran] logs the runs of the callers'
    computations, each under the call of the owner that ran it. *)
Record Shared (U : Type) : Type := mkShared {
  sh_mem : Memory;
  sh_clock : Clock;
  sh_m : gmap string nat;
  sh_calls : list call;
  sh_user : U;
  sh_ran : list nat
}.
Arguments mkShared {U} sh_mem sh_clock sh_m sh_calls sh_user sh_ran.
Arguments sh_mem {U} s.
Arguments sh_clock {U} s.
Arguments sh_m {U} s.
Arguments sh_calls {U} s.
Arguments sh_user {U} s.
Arguments sh_ran {U} s.

(** How many times a computation has run. *)
Definition sh_execs {U : Type} (sh : Shared U) : nat := length (sh_ran sh).

Definition owner_of (p : pc) : option nat :=
  match p with
  | AtRecheck c | AtCompute c | AtStore c _ | AtPublish c _ | AtCleanup c _ => Some c
  | AtLookup | AtDo | Waiting _ | Returned _ _ => None
  end.

(** The next step of a goroutine, if it can take one.  In the [select],
    [cancel] picks the [ctx.Done()] case, which needs the context
    cancelled; the other case needs the call finished. *)
Definition thread_step {U : Type} (key : string) (ttl : Z) (cancel : bool)
    (who : Caller U) (p : pc) (sh : Shared U) : option (pc * Shared U) :=
  match p with
  | AtLookup =>
      let '(v, ok, mem, clk) := Memory_Get key (sh_mem sh) (sh_clock sh) in
      Some (if ok then Returned None (v, None) else AtDo,
            mkShared mem clk (sh_m sh) (sh_calls sh) (sh_user sh) (sh_ran sh))
  | AtDo =>
      match sh_m sh !! key with
      | Some c => Some (Waiting c, sh)
      | None =>
          let c := length (sh_calls sh) in
          Some (AtRecheck c,
                mkShared (sh_mem sh) (sh_clock sh) (<[key := c]> (sh_m sh))
                  (sh_calls sh ++ [mkCall 1 nil None]) (sh_user sh) (sh_ran sh))
      end
  | Waiting c =>
      if cancel
      then if ctx_Done (caller_ctx who)
           then Some (Returned None (nil, ctx_Err (caller_ctx who)), sh)
           else None
      else match sh_calls sh !! c with
           | Some cl =>
               if wg cl =? 0 then Some (Returned (Some c) (val cl, err cl), sh)
               else None
           | None => None
           end
  | AtRecheck c =>
      let '(v, ok, mem, clk) := Memory_Get key (sh_mem sh) (sh_clock sh) in
      Some (if ok then AtPublish c (v, None) else AtCompute c,
            mkShared mem clk (sh_m sh) (sh_calls sh) (sh_user sh) (sh_ran sh))
  | AtCompute c =>
      let '(result, e, u) := caller_fn who (sh_user sh) in
      Some (match e with
            | Some _ => AtPublish c (nil, e)
            | None => AtStore c result
            end,
            mkShared (sh_mem sh) (sh_clock sh) (sh_m sh) (sh_calls sh) u
              (c :: sh_ran sh))
  | AtStore c result =>
      let '(mem, clk) := Memory_Set key result ttl (sh_mem sh) (sh_clock sh) in
      Some (AtPublish c (result, None),
            mkShared mem clk (sh_m sh) (sh_calls sh) (sh_user sh) (sh_ran sh))
  | AtPublish c r =>
      Some (AtCleanup c r,
            mkShared (sh_mem sh) (sh_clock sh) (sh_m sh)
              (<[c := mkCall 0 (fst r) (snd r)]> (sh_calls sh))
              (sh_user sh) (sh_ran sh))
  | AtCleanup c r =>
      Some (Returned (Some c) r,
            mkShared (sh_mem sh) (sh_clock sh) (delete key (sh_m sh))
              (sh_calls sh) (sh_user sh) (sh_ran sh))
  | Returned _ _ => None
  end.

Record Config (U : Type) : Type := mkConfig {
  shared : Shared U;
  threads : list pc
}.
Arguments mkConfig {U} shared threads.
Arguments shared {U} c.
Arguments threads {U} c.

(** A scheduler's choice: which goroutine moves, and which case of the
    [select] it takes if it is waiting. *)
Definition sched_step {U : Type} (callers : list (Caller U)) (key : string)
    (ttl : Z) (choice : nat * bool) (cfg : Config U) : option (Config U) :=
  let '(i, cancel) := choice in
  match threads cfg !! i, callers !! i with
  | Some p, Some who =>
      match thread_step key ttl cancel who p (shared cfg) with
      | Some (p', sh) => Some (mkConfig sh (<[i := p']> (threads cfg)))
      | None => None
      end
  | _, _ => None
  end.

(** A run under a schedule; [None] if a chosen step cannot be taken. *)
Fixpoint run {U : Type} (callers : list (Caller U)) (key : string) (ttl : Z)
    (schedule : list (nat * bool)) (cfg : Config U) : option (Config U) :=
  match schedule with
  | [] => Some cfg
  | choice :: rest =>
      match sched_step callers key ttl choice cfg with
      | Some cfg' => run callers key ttl rest cfg'
      | None => None
      end
  end.

(** All the calls are about to start; no call is in flight. *)
Definition init {U : Type} (callers : list (Caller U)) (mem : Memory)
    (clk : Clock) (u : U) : Config U :=
  mkConfig (mkShared mem clk ∅ [] u []) (replicate (length callers) AtLookup).

Definition is_returned (p : pc) : bool :=
  match p with Returned _ _ => true | _ => false end.

(** Every call has returned. *)
Definition final {U : Type} (cfg : Config U) : bool :=
  forallb is_returned (threads cfg).

(** The steps a goroutine still has ahead of it, at most. *)
Definition rank (p : pc) : nat :=
  match p with
  | AtLookup => 7
  | AtDo => 6
  | AtRecheck _ => 5
  | AtCompute _ => 4
  | AtStore _ _ => 3
  | AtPublish _ _ => 2
  | AtCleanup _ _ => 1
  | Waiting _ => 1
  | Returned _ _ => 0
  end.

Fixpoint measure (ts : list pc) : nat :=
  match ts with
  | [] => 0
  | p :: rest => rank p + measure rest
  end.

(** The entry a [Set] writes does not expire while the calls run: every
    clock reading plus the TTL is an [int64] no reading exceeds. *)
Definition no_expiry (clk : Clock) (ttl : Z) : Prop :=
  forall i j : nat,
    in_int64 (readings clk i + ttl) /\ readings clk j <= readings clk i + ttl.

(** The computation of a caller returns no error, whenever it runs, and
    its context is not cancelled. *)
Definition succeeds {U : Type} (who : Caller U) : Prop :=
  ctx_Done (caller_ctx who) = false /\
  forall u, snd (fst (caller_fn who u)) = None.

(** *** The invariant of the runs in which no computation fails *)

(** Positions a goroutine can be at before any computation has run. *)
Definition early (p : pc) : bool :=
  match p with
  | AtLookup | AtDo | Waiting _ | AtRecheck _ | AtCompute _ => true
  | AtStore _ _ | AtPublish _ _ | AtCleanup _ _ | Returned _ _ => false
  end.

(** Once the computation has run with result [v0]: nobody is about to
    run it again, and every result in hand is [(v0, nil)]. *)
Definition agrees (v0 : any) (p : pc) : Prop :=
  match p with
  | AtCompute _ => False
  | AtStore _ v => v = v0
  | AtPublish _ r | AtCleanup _ r | Returned _ r => r = (v0, None)
  | AtLookup | AtDo | Waiting _ | AtRecheck _ => True
  end.

Definition is_cleanup (p : pc) : bool :=
  match p with AtCleanup _ _ => true | _ => false end.

(** The coordinator's bookkeeping: the owners are the goroutines between
    registering a call and removing it; the map holds the call of the
    one owner there is; a call that is not finished has its owner still
    before [wg.Done()]. *)
Record Structural {U : Type} (key : string) (rd : nat -> Z) (cfg : Config U)
  : Prop := mkStructural {
  st_readings : readings (sh_clock (shared cfg)) = rd;
  st_owner_map : forall i p c,
    threads cfg !! i = Some p -> owner_of p = Some c ->
    sh_m (shared cfg) !! key = Some c;
  st_owner_unique : forall i j p q,
    threads cfg !! i = Some p -> threads cfg !! j = Some q ->
    is_Some (owner_of p) -> is_Some (owner_of q) -> i = j;
  st_map_valid : forall c,
    sh_m (shared cfg) !! key = Some c ->
    (c < length (sh_calls (shared cfg)))%nat;
  st_wait_valid : forall i c,
    threads cfg !! i = Some (Waiting c) ->
    (c < length (sh_calls (shared cfg)))%nat;
  st_pending : forall c cl,
    sh_calls (shared cfg) !! c = Some cl -> wg cl <> 0 ->
    exists i p, threads cfg !! i = Some p /\ owner_of p = Some c /\
                is_cleanup p = false
}.

(** What a call of [Get] holds of the single-flight call [c]: the result
    it is about to return as owner, or has returned. *)
Definition took (p : pc) (c : nat) (r : any * error) : Prop :=
  p = AtCleanup c r \/ p = Returned (Some c) r.

(** One run of the computation per single-flight call, one result per
    call: an owner that has not signalled has its call unfinished; a
    result taken from a call is the one written in it; and the log of
    runs names each call once, never a call whose owner is still before
    its run. *)
Record Sessions {U : Type} (cfg : Config U) : Prop := mkSessions {
  se_unfinished : forall i p c,
    threads cfg !! i = Some p -> owner_of p = Some c -> is_cleanup p = false ->
    exists cl, sh_calls (shared cfg) !! c = Some cl /\ wg cl <> 0;
  se_taken : forall i p c r,
    threads cfg !! i = Some p -> took p c r ->
    sh_calls (shared cfg) !! c = Some (mkCall 0 (fst r) (snd r));
  se_ran_once : NoDup (sh_ran (shared cfg));
  se_ran_valid : forall c,
    c ∈ sh_ran (shared cfg) -> (c < length (sh_calls (shared cfg)))%nat;
  se_ran_fresh : forall i p c,
    threads cfg !! i = Some p -> p = AtRecheck c \/ p = AtCompute c ->
    c ∉ sh_ran (shared cfg)
}.

(** The value is in the backend, in an entry that does not expire during
    the run, or on its way there. *)
Definition cached {U : Type} (key : string) (ttl : Z) (rd : nat -> Z)
    (v0 : any) (cfg : Config U) : Prop :=
  match entries (sh_mem (shared cfg)) !! key with
  | Some e => Value e = v0 /\ (expiry e = 0 \/ exists n, expiry e = rd n + ttl)
  | None => exists i c, threads cfg !! i = Some (AtStore c v0)
  end.

Definition before_execution {U : Type} (key : string) (cfg : Config U) : Prop :=
  sh_execs (shared cfg) = 0%nat /\
  entries (sh_mem (shared cfg)) !! key = None /\
  (forall i p, threads cfg !! i = Some p -> early p = true) /\
  (forall c cl, sh_calls (shared cfg) !! c = Some cl -> wg cl <> 0).

Definition after_execution {U : Type} (key : string) (ttl : Z) (rd : nat -> Z)
    (v0 : any) (cfg : Config U) : Prop :=
  sh_execs (shared cfg) = 1%nat /\
  cached key ttl rd v0 cfg /\
  (forall i p, threads cfg !! i = Some p -> agrees v0 p) /\
  (forall c cl, sh_calls (shared cfg) !! c = Some cl -> wg cl = 0 ->
                val cl = v0 /\ err cl = None).

Definition Inv {U : Type} (key : string) (ttl : Z) (rd : nat -> Z)
    (cfg : Config U) : Prop :=
  Structural key rd cfg /\
  (before_execution key cfg \/ exists v0, after_execution key ttl rd v0 cfg).

(** Every record in the coordinator's map is under the key of the run
    and belongs to a goroutine that is an owner. *)
Definition map_owned {U : Type} (key : string) (cfg : Config U) : Prop :=
  forall k c,
    sh_m (shared cfg) !! k = Some c ->
    k = key /\ exists i p, threads cfg !! i = Some p /\ owner_of p = Some c.

(** ** Concrete systems, to run the definitions *)

(** A memoizer over an empty in-memory backend, metrics on, TTL one hour,
    and a clock that advances one second per reading. *)
Definition example_sys : Sys Memory nat :=
  mkSys (mkMemoizer Memory_New (Options.mk Hour None false Hour None true)
           NewSingleFlight (NewMetrics true))
        (mkClock (fun n => Z.of_nat n * Second) 0) 0%nat.

(** The same memoizer at the fifth second, holding under "k" an entry that
    expired at the first. *)
Definition stale_sys : Sys Memory nat :=
  mkSys (mkMemoizer (mkMemory {[ "k" := mkCacheEntry (AInt 1) Second 1 ]})
           (Options.mk Hour None false Hour None true)
           NewSingleFlight (NewMetrics true))
        (mkClock (fun n => (5 + Z.of_nat n) * Second) 0) 0%nat.

(** A computation that counts its invocations in the caller's state. *)
Definition counting (result : any * error) : State nat (any * error) :=
  fun calls => (result, S calls).

(** A clock that advances one second per reading for a minute, then
    stands still: with a TTL of an hour, nothing written expires. *)
Definition bounded_clock : Clock :=
  mkClock (fun n => Z.of_nat (Nat.min n 60) * Second) 0.

(** A computation that fails, naming the attempt. *)
Definition failing_attempt : State nat (any * error) :=
  fun calls => ((nil, Some ("attempt " +:+ pretty calls)), S calls).

Definition two_failing : list (Caller nat) :=
  [mkCaller context_Background failing_attempt;
   mkCaller context_Background failing_attempt].

Definition two_counting : list (Caller nat) :=
  [mkCaller context_Background (counting (AInt 7, None));
   mkCaller context_Background (counting (AInt 8, None))].

(** Both calls miss the backend; the first then runs [Do] to its end and
    returns; only then does the second enter [Do]. *)
Definition one_after_the_other : list (nat * bool) :=
  [(0, false); (1, false);
   (0, false); (0, false); (0, false); (0, false); (0, false);
   (1, false); (1, false); (1, false); (1, false); (1, false)]%nat.

(** The second call enters [Do] while the first is in flight, and waits. *)
Definition overlapping : list (nat * bool) :=
  [(0, false); (0, false); (1, false); (1, false);
   (0, false); (0, false); (0, false); (0, false); (1, false); (0, false)]%nat.

(** The memoizer of [example_sys] with a clock that advances one hour per
    reading: an entry written with a TTL of one hour has expired by the
    second reading after the write. *)
Definition hourly_sys : Sys Memory nat :=
  mkSys (memo example_sys) (mkClock (fun n => Z.of_nat n * Hour) 0) 0%nat.

(** A stand-in for [fmt.Sprintf("%v", args)], to run [MemoizeFunc]. *)
Definition standin_Sprintf_v (args : list any) : string := pretty (length args).

(** * Properties *)

(** ** Machine integers *)

Lemma wrap64_small z : in_int64 z -> wrap64 z = z.
Proof.
  unfold in_int64, MinInt64, MaxInt64, wrap64. intros Hz.
  rewrite Z.mod_small by lia. lia.
Qed.

Lemma wrap64_range z : in_int64 (wrap64 z).
Proof.
  unfold in_int64, MinInt64, MaxInt64, wrap64.
  pose proof (Z.mod_pos_bound (z + 2 ^ 63) (2 ^ 64) ltac:(lia)). lia.
Qed.

Lemma wrapU64_small z : 0 <= z < 2 ^ 64 -> wrapU64 z = z.
Proof. intros Hz. unfold wrapU64. by rewrite Z.mod_small. Qed.

(** ** Cache entries *)

Lemma NewEntry_no_ttl v ttl ver clk :
  ttl <= 0 -> NewEntry v ttl ver clk = (mkCacheEntry v 0 ver, clk).
Proof.
  intros Httl. unfold NewEntry, bind, ret.
  destruct (Z.ltb_spec 0 ttl); [lia | reflexivity].
Qed.

Lemma NewEntry_ttl v ttl ver clk :
  0 < ttl ->
  NewEntry v ttl ver clk =
    (mkCacheEntry v (Add_UnixNano (next_reading clk) ttl) ver,
     mkClock (readings clk) (S (pos clk))).
Proof.
  intros Httl. unfold NewEntry, bind, ret, time_Now, next_reading.
  destruct (Z.ltb_spec 0 ttl); [reflexivity | lia].
Qed.

Lemma SetExpiry_no_ttl ttl e clk :
  ttl <= 0 -> SetExpiry ttl e clk = (mkCacheEntry (Value e) 0 (version e), clk).
Proof.
  intros Httl. unfold SetExpiry, bind, ret.
  destruct (Z.ltb_spec 0 ttl); [lia | reflexivity].
Qed.

Lemma IsExpired_sentinel e clk : expiry e = 0 -> IsExpired e clk = (false, clk).
Proof. intros He. unfold IsExpired. rewrite He. reflexivity. Qed.

Lemma IsExpired_set e clk :
  expiry e <> 0 ->
  IsExpired e clk =
    (expiry e <? next_reading clk, mkClock (readings clk) (S (pos clk))).
Proof.
  intros He. unfold IsExpired, bind, ret, time_Now, next_reading.
  destruct (Z.eqb_spec (expiry e) 0); [contradiction | reflexivity].
Qed.

Lemma IsExpired_value e clk :
  fst (IsExpired e clk) = negb (expiry e =? 0) && (expiry e <? next_reading clk).
Proof.
  destruct (Z.eqb_spec (expiry e) 0) as [He | He].
  - by rewrite IsExpired_sentinel.
  - by rewrite IsExpired_set.
Qed.

(** C7.  An entry made with [ttl <= 0] carries the no-expiration sentinel
    (expiry 0) and [IsExpired] is false for it at every clock reading;
    [SetExpiry] with [ttl <= 0] on any entry [e0], an expired one included,
    clears the expiry, after which [IsExpired] is false; and in general
    [IsExpired] is false on the sentinel and otherwise exactly
    [now > expiry]. *)
Theorem entry_expiry_sentinel (v : any) (ttl ver : Z) (e0 : CacheEntry)
    (clk clk' : Clock) :
  ttl <= 0 ->
  let e := fst (NewEntry v ttl ver clk) in
  let e1 := fst (SetExpiry ttl e0 clk) in
  (expiry e = 0 /\ fst (IsExpired e clk') = false) /\
  (expiry e1 = 0 /\ fst (IsExpired e1 clk') = false) /\
  (forall (e2 : CacheEntry) (clk2 : Clock),
      fst (IsExpired e2 clk2) =
        if expiry e2 =? 0 then false
        else bool_decide (next_reading clk2 > expiry e2)).
Proof.
  intros Httl e e1. subst e e1.
  rewrite NewEntry_no_ttl, SetExpiry_no_ttl by done. cbn [fst expiry].
  repeat split; try by rewrite IsExpired_sentinel.
  intros e2 clk2. rewrite IsExpired_value.
  destruct (expiry e2 =? 0); cbn [negb andb]; [done |].
  destruct (Z.ltb_spec (expiry e2) (next_reading clk2));
    [rewrite bool_decide_eq_true_2 | rewrite bool_decide_eq_false_2]; lia.
Qed.

(** An entry that expired one second after the epoch, read at the 5th
    second: expired; after [SetExpiry(0)] it is not. *)
Lemma entry_expiry_sentinel_witness :
  let clk := mkClock (fun _ => 5 * Second) 0 in
  let e0 := mkCacheEntry (AString "v") (1 * Second) 1 in
  0 <= 0 /\
  fst (IsExpired e0 clk) = true /\
  fst (IsExpired (fst (SetExpiry 0 e0 clk)) clk) = false /\
  fst (IsExpired (fst (NewEntry (AString "v") 0 1 clk)) clk) = false.
Proof.
  intros clk e0.
  pose proof (entry_expiry_sentinel (AString "v") 0 1 e0 clk clk ltac:(lia))
    as [[_ Hnew] [[_ Hset] _]].
  split; [lia |]. split; [reflexivity |]. split; [exact Hset | exact Hnew].
Defined.

(** ** The in-memory backend *)

Lemma Memory_Set_entries key value ttl m clk :
  exists e,
    entries (fst (Memory_Set key value ttl m clk)) = <[key := e]> (entries m) /\
    Value e = value /\ version e = 1 /\
    expiry e = (if 0 <? ttl then Add_UnixNano (next_reading clk) ttl else 0).
Proof.
  unfold Memory_Set. cbn [BumpVersion zeroCacheEntry version].
  unfold bind, ret. destruct (Z.ltb_spec 0 ttl).
  - rewrite NewEntry_ttl by done. eexists; repeat split.
  - rewrite NewEntry_no_ttl by done. eexists; repeat split.
Qed.

(** C4, a defect of the code.  The specification has every [Set] bump
    the version of the slot.  Whatever the map holds, [Memory_Set] stores
    version 1: a second write to a key overwrites a version-1 entry with
    a version-1 entry. *)
Theorem Memory_Set_version_not_bumped (key : string) (v1 v2 : any)
    (ttl1 ttl2 : Z) (m : Memory) (clk : Clock) :
  let '(m1, clk1) := Memory_Set key v1 ttl1 m clk in
  let '(m2, _) := Memory_Set key v2 ttl2 m1 clk1 in
  exists e1 e2,
    entries m1 !! key = Some e1 /\ entries m2 !! key = Some e2 /\
    Version e1 = 1 /\ Version e2 = 1 /\ ~ Version e2 > Version e1.
Proof.
  destruct (Memory_Set key v1 ttl1 m clk) as [m1 clk1] eqn:H1.
  destruct (Memory_Set key v2 ttl2 m1 clk1) as [m2 clk2] eqn:H2.
  destruct (Memory_Set_entries key v1 ttl1 m clk) as (e1 & He1 & _ & Hv1 & _).
  destruct (Memory_Set_entries key v2 ttl2 m1 clk1) as (e2 & He2 & _ & Hv2 & _).
  rewrite H1 in He1. rewrite H2 in He2. cbn [fst] in *.
  exists e1, e2. rewrite He1, He2, !lookup_insert_eq. unfold Version.
  repeat split; try done. lia.
Qed.

(** ** Metrics *)

Lemma disabled_op_noop (m : Metrics) (op : MetricsOp) :
  Enabled m = false -> apply_op m op = m.
Proof.
  intros Hm. destruct op; cbn;
    unfold RecordHit, RecordMiss, RecordEviction, RecordLatency;
    by rewrite Hm.
Qed.

Lemma disabled_ops_noop (ops : list MetricsOp) (m : Metrics) :
  Enabled m = false -> apply_ops ops m = m.
Proof.
  intros Hm. unfold apply_ops. induction ops as [| op ops IH]; [done |].
  cbn [foldl]. by rewrite disabled_op_noop.
Qed.

(** C10, a defect of the code.  Before any sample, an enabled collector
    is meant to report the sentinel it was made with.  The collector made
    by [NewMetrics true] holds the largest [int64] as its minimum, in
    microseconds; [MinLatency] multiplies it by 1000 in [int64], which
    wraps: the duration returned is -1000ns, neither zero nor the huge
    positive sentinel.  The disabled collector reports 0. *)
Theorem MinLatency_initial :
  minLatency (NewMetrics true) = MaxInt64 /\
  MinLatency (NewMetrics true) = -1000 /\
  MinLatency (NewMetrics false) = 0.
Proof. repeat split; reflexivity. Qed.

(** ** The backend registry *)

Lemma RegisterBackend_no_nil name factory registry registry' :
  no_nil_factory registry ->
  RegisterBackend name factory registry = Returns registry' ->
  no_nil_factory registry'.
Proof.
  unfold RegisterBackend. intros Hinv Hreg.
  destruct factory as [f |]; [| discriminate].
  destruct (registry !! name) eqn:Hname; [discriminate |].
  injection Hreg as <-. intros name'.
  destruct (decide (name = name')) as [<- | Hne].
  - rewrite lookup_insert_eq. discriminate.
  - rewrite lookup_insert_ne by done. apply Hinv.
Qed.

Lemma RegisterAll_no_nil regs :
  forall registry registry',
    no_nil_factory registry ->
    RegisterAll regs registry = Returns registry' ->
    no_nil_factory registry'.
Proof.
  induction regs as [| [name factory] regs IH]; intros registry registry' Hinv Hall.
  - injection Hall as <-. exact Hinv.
  - cbn [RegisterAll] in Hall.
    destruct (RegisterBackend name factory registry) as [r1 | msg] eqn:Hreg;
      [| discriminate].
    eapply IH; [| exact Hall]. eapply RegisterBackend_no_nil; eauto.
Qed.

Lemma no_nil_factory_empty : no_nil_factory ∅.
Proof. intros name. rewrite lookup_empty. discriminate. Qed.

(** C8.  On a registry built by registrations from the empty one:
    registering a nil factory panics; under a name already taken,
    registering panics and [NewBackend] returns what the stored factory
    makes, with a nil error; under a free name, [NewBackend] returns the
    "unknown backend type" error (it does not panic) and registering a
    non-nil factory succeeds. *)
Theorem registry_contract (regs : list (string * BackendFactory))
    (registry : gmap string BackendFactory) (name : string)
    (factory : BackendFactory) :
  RegisterAll regs ∅ = Returns registry ->
  RegisterBackend name None registry = Panics "backend factory cannot be nil" /\
  match registry !! name with
  | Some stored =>
      (exists msg, RegisterBackend name factory registry = Panics msg) /\
      (exists f, stored = Some f /\
                 NewBackend name registry = Returns (Some (f tt), None))
  | None =>
      NewBackend name registry =
        Returns (None, Some ("unknown backend type: " +:+ name)) /\
      (forall f, RegisterBackend name (Some f) registry =
                   Returns (<[name := Some f]> registry))
  end.
Proof.
  intros Hall.
  assert (Hinv : no_nil_factory registry)
    by (eapply RegisterAll_no_nil; [apply no_nil_factory_empty | exact Hall]).
  split; [reflexivity |].
  destruct (registry !! name) as [stored |] eqn:Hname.
  - split.
    + unfold RegisterBackend. rewrite Hname. destruct factory; eauto.
    + destruct stored as [f |]; [| by destruct (Hinv name)].
      exists f. split; [done |]. unfold NewBackend. by rewrite Hname.
  - split.
    + unfold NewBackend. by rewrite Hname.
    + intros f. unfold RegisterBackend. by rewrite Hname.
Qed.

(** The registry after package [memory]'s [init]: "memory" is taken. *)
Lemma registry_contract_witness :
  let factory : BackendFactory := Some (fun _ => Memory_Backend Memory_New) in
  let registry : gmap string BackendFactory := <["memory" := factory]> ∅ in
  RegisterAll [("memory", factory)] ∅ = Returns registry /\
  (exists msg, RegisterBackend "memory" factory registry = Panics msg) /\
  NewBackend "memory" registry = Returns (Some (Memory_Backend Memory_New), None).
Proof.
  intros factory registry.
  assert (Hall : RegisterAll [("memory", factory)] ∅ = Returns registry)
    by reflexivity.
  split; [exact Hall |].
  pose proof (registry_contract _ registry "memory" factory Hall) as [_ H].
  assert (Hl : registry !! "memory" = Some factory) by apply lookup_insert_eq.
  rewrite Hl in H. destruct H as [Hdup (f & Hf & Hnew)].
  split; [exact Hdup |].
  injection Hf as <-. exact Hnew.
Defined.

(** ** Construction of the memoizer *)

Lemma apply_options_snoc (opts : list Option) (opt : Option) (cfg : Options.t) :
  apply_options (opts ++ [opt]) cfg = opt (apply_options opts cfg).
Proof. unfold apply_options. by rewrite foldl_app. Qed.

Lemma New_spec `{lib : GoLibrary} (opts : list Option) :
  let cfg := apply_options opts DefaultOptions in
  New opts =
    match Options.Backend cfg with
    | None => Panics "backend cannot be nil"
    | Some b =>
        if Options.TTL cfg <=? 0 then Panics "TTL must be positive"
        else Returns (mkMemoizer b cfg NewSingleFlight
                        (NewMetrics (Options.MetricsEnabled cfg)))
    end.
Proof.
  intros cfg. unfold New, Validate. fold cfg.
  destruct (Options.Backend cfg); [| reflexivity].
  destruct (Options.TTL cfg <=? 0); reflexivity.
Qed.

(** C5.  [New] validates the configuration it ends with (the defaults
    overridden by the options, in order) before it builds anything: with
    a nil backend it panics with "backend cannot be nil", with a TTL that
    is not positive it panics with "TTL must be positive", and when it
    returns, the memoizer holds that very backend and TTL.  In
    particular, whatever the other options, a nil backend or a TTL [<= 0]
    set last is never replaced by the default: [New] panics. *)
Theorem New_validates_eagerly `{lib : GoLibrary} (options : list Option) (ttl : Z) :
  ttl <= 0 ->
  (let cfg := apply_options options DefaultOptions in
   match New options with
   | Panics msg =>
       (Options.Backend cfg = None /\ msg = "backend cannot be nil") \/
       (Options.Backend cfg <> None /\ Options.TTL cfg <= 0 /\
        msg = "TTL must be positive")
   | Returns m =>
       Options.Backend cfg = Some (backend m) /\ opts m = cfg /\
       0 < Options.TTL (opts m)
   end) /\
  New (options ++ [WithBackend None]) = Panics "backend cannot be nil" /\
  (exists msg, New (options ++ [WithTTL ttl]) = Panics msg).
Proof.
  intros Httl. split; [| split].
  - intros cfg. rewrite New_spec. fold cfg.
    destruct (Options.Backend cfg) as [b |] eqn:Hb; [| by left].
    destruct (Z.leb_spec (Options.TTL cfg) 0).
    + right. by repeat split.
    + cbn. by repeat split.
  - rewrite New_spec, apply_options_snoc. reflexivity.
  - rewrite New_spec, apply_options_snoc. cbn.
    destruct (Options.Backend _); [| by eexists].
    destruct (Z.leb_spec ttl 0); [by eexists | lia].
Qed.

Lemma New_validates_eagerly_witness :
  0 <= 0 /\
  @New standin_library [WithTTL 0] = Panics "TTL must be positive" /\
  @New standin_library [WithBackend None] = Panics "backend cannot be nil".
Proof.
  pose proof (@New_validates_eagerly standin_library [] 0 ltac:(lia))
    as (_ & Hnil & _).
  split; [lia |]. split; [reflexivity | exact Hnil].
Defined.

(** ** The memoizer, one caller at a time *)

Lemma Memory_Get_spec key m clk :
  Memory_Get key m clk =
    match entries m !! key with
    | None => (nil, false, m, clk)
    | Some e =>
        if fst (IsExpired e clk)
        then (nil, false, mkMemory (delete key (entries m)), snd (IsExpired e clk))
        else (Value e, true, m, snd (IsExpired e clk))
    end.
Proof.
  unfold Memory_Get. destruct (entries m !! key) as [e |]; [| reflexivity].
  unfold bind. destruct (IsExpired e clk) as [[] clk']; reflexivity.
Qed.

(** Unfolds the plumbing of the state monad over [Sys]. *)
Ltac run_sys :=
  unfold Get, Do, Get_compute, bind, ret, backend_Get, backend_Set, on_metrics,
    on_group, call_user, with_clock, time_Since, time_Now,
    set_backend, set_group, set_metrics;
  cbn [memo clock user backend opts group metrics sf_m fst snd val err wg
       readings pos impl_Get impl_Set Memory_methods entries].

Section SequentialGet.
Context {B U : Type} `{BM : BackendMethods B}.

(** A hit on the first lookup: the value is returned, a hit is recorded,
    and neither the coordinator nor the computation is involved. *)
Lemma Get_hit ctx key (fn : State U (any * error)) (s : Sys B U) v b' clk' :
  impl_Get key (backend (memo s)) (clock s) = (v, true, b', clk') ->
  Get ctx key fn s =
    (Some (v, None),
     mkSys (mkMemoizer b' (opts (memo s)) (group (memo s))
              (RecordHit (metrics (memo s)))) clk' (user s)).
Proof. intros Hget. run_sys. rewrite Hget. reflexivity. Qed.

(** The same for the re-check inside the function handed to [Do]. *)
Lemma Get_compute_hit ctx key (fn : State U (any * error)) (s : Sys B U) v b' clk' :
  impl_Get key (backend (memo s)) (clock s) = (v, true, b', clk') ->
  Get_compute key fn ctx s =
    ((v, None),
     mkSys (mkMemoizer b' (opts (memo s)) (group (memo s))
              (RecordHit (metrics (memo s)))) clk' (user s)).
Proof. intros Hget. run_sys. rewrite Hget. reflexivity. Qed.
End SequentialGet.


Section MemoryGet.
Context {U : Type}.

(** What the first lookup of the in-memory backend leaves when it misses:
    the map without the key, and the clock read once if there was an
    entry to test. *)
Lemma Memory_Get_miss key m clk :
  (forall e, entries m !! key = Some e -> fst (IsExpired e clk) = true) ->
  exists clk',
    Memory_Get key m clk = (nil, false, mkMemory (delete key (entries m)), clk') /\
    readings clk' = readings clk.
Proof.
  intros Hexp. rewrite Memory_Get_spec.
  destruct (entries m !! key) as [e |] eqn:Hk.
  - rewrite (Hexp e eq_refl). eexists; split; [reflexivity |].
    unfold IsExpired, bind, ret, time_Now. by destruct (expiry e =? 0).
  - exists clk. split; [| done]. rewrite delete_id by done. by destruct m.
Qed.

Lemma Memory_Get_live key m clk e :
  entries m !! key = Some e ->
  fst (IsExpired e clk) = false ->
  Memory_Get key m clk = (Value e, true, m, snd (IsExpired e clk)).
Proof. intros Hk Hlive. by rewrite Memory_Get_spec, Hk, Hlive. Qed.

(** A miss whose computation fails. *)
Lemma Get_Memory_miss_error ctx key (f : State U (any * error))
    (s : Sys Memory U) result msg u' :
  sf_m (group (memo s)) !! key = None ->
  (forall e, entries (backend (memo s)) !! key = Some e ->
             fst (IsExpired e (clock s)) = true) ->
  f (user s) = ((result, Some msg), u') ->
  exists s1,
    Get ctx key f s = (Some (nil, Some msg), s1) /\
    user s1 = u' /\
    entries (backend (memo s1)) = delete key (entries (backend (memo s))) /\
    sf_m (group (memo s1)) = sf_m (group (memo s)) /\
    opts (memo s1) = opts (memo s).
Proof.
  intros Hg Hexp Hf. destruct s as [[m o g met] clk u].
  cbn [memo clock user backend opts group metrics] in *.
  destruct (Memory_Get_miss key m clk Hexp) as (clk' & Hget & _).
  run_sys. rewrite Hget. run_sys. rewrite Hg. run_sys.
  rewrite Memory_Get_spec. cbn [entries]. rewrite lookup_delete_eq.
  run_sys. rewrite Hf. run_sys.
  eexists. split; [reflexivity |]. cbn [memo clock user backend opts group metrics sf_m entries].
  repeat split. rewrite delete_insert_eq. by apply delete_id.
Qed.

(** A miss whose computation succeeds: the result is stored. *)
Lemma Get_Memory_miss_ok ctx key (f : State U (any * error))
    (s : Sys Memory U) result u' :
  sf_m (group (memo s)) !! key = None ->
  (forall e, entries (backend (memo s)) !! key = Some e ->
             fst (IsExpired e (clock s)) = true) ->
  f (user s) = ((result, None), u') ->
  exists s1 e,
    Get ctx key f s = (Some (result, None), s1) /\
    user s1 = u' /\
    entries (backend (memo s1)) = <[key := e]> (entries (backend (memo s))) /\
    Value e = result /\
    sf_m (group (memo s1)) = sf_m (group (memo s)) /\
    opts (memo s1) = opts (memo s).
Proof.
  intros Hg Hexp Hf. destruct s as [[m o g met] clk u].
  cbn [memo clock user backend opts group metrics] in *.
  destruct (Memory_Get_miss key m clk Hexp) as (clk' & Hget & _).
  run_sys. rewrite Hget. run_sys. rewrite Hg. run_sys.
  rewrite Memory_Get_spec. cbn [entries]. rewrite lookup_delete_eq.
  run_sys. rewrite Hf. run_sys.
  match goal with
  | |- context [Memory_Set key result ?ttl ?m0 ?c0] =>
      destruct (Memory_Set_entries key result ttl m0 c0) as (e & He & Hv & _);
      destruct (Memory_Set key result ttl m0 c0) as [m1 clk1] eqn:Hset
  end.
  run_sys. cbn [fst entries] in He.
  eexists; exists e. split; [reflexivity |].
  cbn [memo clock user backend opts group metrics sf_m entries].
  repeat split; try done.
  - rewrite He. apply insert_delete_eq.
  - rewrite delete_insert_eq. by apply delete_id.
Qed.
End MemoryGet.

(** A memoizer built over the interface value behaves as the memoizer
    over the [*Memory] inside. *)
Lemma Backend_Get_Memory key m clk :
  Backend_Get key (Memory_Backend m) clk =
    let '(v, ok, m', clk') := Memory_Get key m clk in
    (v, ok, Memory_Backend m', clk').
Proof.
  unfold Backend_Get, bind, ret. cbn [Memory_Backend methods self dyn impl_Get Memory_methods].
  by destruct (Memory_Get key m clk) as [[[v ok] m'] clk'].
Qed.

Lemma Backend_Set_Memory key v ttl m clk :
  Backend_Set key v ttl (Memory_Backend m) clk =
    let '(m', clk') := Memory_Set key v ttl m clk in (Memory_Backend m', clk').
Proof.
  unfold Backend_Set, bind, ret. cbn [Memory_Backend methods self dyn impl_Set Memory_methods].
  by destruct (Memory_Set key v ttl m clk) as [m' clk'].
Qed.

Lemma Get_as_Backend {U : Type} ctx key (f : State U (any * error)) (s : Sys Memory U) :
  Get ctx key f (as_Backend s) =
    let '(r, s') := Get ctx key f s in (r, as_Backend s').
Proof.
  destruct s as [[m o g met] clk u]. unfold as_Backend.
  run_sys. cbn [Backend_methods]. rewrite Backend_Get_Memory.
  destruct (Memory_Get key m clk) as [[[v ok] m1] clk1].
  destruct ok; run_sys; [reflexivity |].
  destruct (sf_m g !! key) as [c |].
  - destruct (wg c =? 0); [reflexivity |]. by destruct (ctx_Done ctx).
  - run_sys. cbn [Backend_methods]. rewrite Backend_Get_Memory.
    destruct (Memory_Get key m1 _) as [[[v2 ok2] m2] clk2].
    destruct ok2; run_sys; [reflexivity |].
    destruct (f u) as [[result [msg |]] u']; run_sys; [reflexivity |].
    cbn [Backend_methods]. rewrite Backend_Set_Memory.
    destruct (Memory_Set key result (Options.TTL o) m2 clk2) as [m3 clk3]. reflexivity.
Qed.

Section Disabled.
Context {B U : Type} `{BM : BackendMethods B}.

(** With a collector made disabled, a call of [Get] leaves the collector
    as it was, whatever path the call takes. *)
Lemma Get_metrics_disabled (ctx : Context) (key : string)
    (fn : State U (any * error)) (b : B) (o : Options.t) (g : SingleFlight)
    (clk : Clock) (u : U) :
  metrics (memo (snd (Get ctx key fn
                        (mkSys (mkMemoizer b o g (NewMetrics false)) clk u))))
  = NewMetrics false.
Proof.
  run_sys. destruct (impl_Get key b clk) as [[[v ok] b1] clk1].
  destruct ok; run_sys; [reflexivity |].
  destruct (sf_m g !! key) as [c |].
  - destruct (wg c =? 0); [reflexivity |]. by destruct (ctx_Done ctx).
  - run_sys. destruct (impl_Get key b1 _) as [[[v2 ok2] b2] clk2].
    destruct ok2; run_sys; [reflexivity |].
    destruct (fn u) as [[result [msg |]] u']; run_sys; [reflexivity |].
    destruct (impl_Set key result (Options.TTL o) b2 clk2) as [b3 clk3]. reflexivity.
Qed.
End Disabled.

(** C6.  Enabled: a miss then a hit give Requests 2, Hits 1, Misses 1 and a
    hit ratio of 0.5, on the collector alone and on a memoizer whose first
    [Get] misses and second hits.  Disabled: each recording operation
    leaves the collector as it is, so after any sequence of calls the
    collector made by [NewMetrics false] has all counters 0, and
    [HitRatio] and [AvgLatency] are 0 (neither divides: the first returns
    on the flag, the second on the zero count); a call of [Get] leaves
    such a collector as it was. *)
Theorem metrics_accounting :
  (let m := RecordHit (RecordMiss (NewMetrics true)) in
   Requests m = 2 /\ Hits m = 1 /\ Misses m = 1 /\ HitRatio m = 0.5%float) /\
  (let s1 := snd (Get context_Background "k" (counting (AInt 42, None)) example_sys) in
   let s2 := snd (Get context_Background "k" (counting (AInt 0, None)) s1) in
   let m := Snapshot (metrics (memo s2)) in
   Requests m = 2 /\ Hits m = 1 /\ Misses m = 1 /\ HitRatio m = 0.5%float) /\
  (forall (op : MetricsOp) (h mi ev rq tl cl mn mx la : Z),
     let m := mkMetrics false h mi ev rq tl cl mn mx la in
     apply_op m op = m) /\
  (forall ops : list MetricsOp,
     let m := apply_ops ops (NewMetrics false) in
     (Hits m = 0 /\ Misses m = 0 /\ Evictions m = 0 /\ Requests m = 0 /\
      totalLatency m = 0 /\ countLatency m = 0) /\
     HitRatio m = 0%float /\ AvgLatency m = 0%float) /\
  (forall (B U : Type) (BM : BackendMethods B) (ctx : Context) (key : string)
          (fn : State U (any * error)) (b : B) (o : Options.t)
          (g : SingleFlight) (clk : Clock) (u : U),
     metrics (memo (snd (Get ctx key fn
                           (mkSys (mkMemoizer b o g (NewMetrics false)) clk u))))
     = NewMetrics false).
Proof.
  split_and!.
  - cbv zeta. repeat split; reflexivity.
  - cbv zeta. repeat split; vm_compute; reflexivity.
  - intros. by apply disabled_op_noop.
  - intros ops m. subst m. rewrite disabled_ops_noop by done.
    repeat split; reflexivity.
  - intros. apply Get_metrics_disabled.
Qed.

(** C2.  After a successful [Get] (no call for the key in flight when it
    starts), the backend holds an entry for the key with the value
    returned.  While that entry has not expired, a following
    [Get(key, f2)] returns the value on the first lookup: a hit is
    recorded, the backend and the coordinator's map are as before, and
    the caller's state is untouched, whatever [f2] is, so [f2] is not
    invoked.  The function handed to the coordinator does the same on its
    own re-check.  The first [Get] leaves the coordinator's map as it
    found it, so calls made one after the other keep meeting it with no
    call in flight. *)
Theorem Get_hit_suppresses_compute {U : Type} (ctx ctx2 : Context) (key : string)
    (f f2 : State U (any * error)) (s s1 : Sys Memory U) (v : any) :
  sf_m (group (memo s)) !! key = None ->
  Get ctx key f s = (Some (v, None), s1) ->
  (forall e, entries (backend (memo s1)) !! key = Some e ->
             fst (IsExpired e (clock s1)) = false) ->
  exists e,
    (entries (backend (memo s1)) !! key = Some e /\ Value e = v) /\
    sf_m (group (memo s1)) = sf_m (group (memo s)) /\
    let s2 :=
      mkSys (mkMemoizer (backend (memo s1)) (opts (memo s1)) (group (memo s1))
               (RecordHit (metrics (memo s1))))
            (snd (IsExpired e (clock s1))) (user s1) in
    Get ctx2 key f2 s1 = (Some (v, None), s2) /\
    Get_compute key f2 ctx2 s1 = ((v, None), s2).
Proof.
  intros Hg Hget Hlive.
  assert (Hentry : (exists e, entries (backend (memo s1)) !! key = Some e /\ Value e = v)
                   /\ sf_m (group (memo s1)) = sf_m (group (memo s))).
  { assert (Hcase :
      (exists e, entries (backend (memo s)) !! key = Some e /\
                 fst (IsExpired e (clock s)) = false) \/
      (forall e, entries (backend (memo s)) !! key = Some e ->
                 fst (IsExpired e (clock s)) = true)).
    { destruct (entries (backend (memo s)) !! key) as [e |]; [| by right].
      destruct (fst (IsExpired e (clock s))) eqn:Hexp;
        [right; congruence | left; eauto]. }
    destruct Hcase as [(e & Hk & Hexp) | Hmiss].
    - rewrite (Get_hit ctx key f s (Value e) (backend (memo s))
                 (snd (IsExpired e (clock s)))) in Hget
        by (by apply Memory_Get_live).
      injection Hget as <- <-. split; [by exists e | done].
    - destruct (f (user s)) as [[result [msg |]] u'] eqn:Hf.
      + destruct (Get_Memory_miss_error ctx key f s result msg u' Hg Hmiss Hf)
          as (s1' & Hget' & _). congruence.
      + destruct (Get_Memory_miss_ok ctx key f s result u' Hg Hmiss Hf)
          as (s1' & e' & Hget' & _ & He' & Hv' & Hg' & _).
        rewrite Hget in Hget'. injection Hget' as -> ->.
        split; [| done]. exists e'. by rewrite He', lookup_insert_eq. }
  destruct Hentry as [(e & He & Hv) Hgroup]. exists e.
  split; [done |]. split; [done |].
  pose proof (Memory_Get_live key _ _ e He (Hlive e He)) as Hhit.
  subst v. split.
  - by apply Get_hit.
  - by apply Get_compute_hit.
Qed.

Lemma Get_hit_suppresses_compute_witness :
  let f := counting (AInt 42, None) in
  let f2 := counting (AInt 0, None) in
  exists s1 s2,
    Get context_Background "k" f example_sys = (Some (AInt 42, None), s1) /\
    Get context_Background "k" f2 s1 = (Some (AInt 42, None), s2) /\
    user s1 = 1%nat /\ user s2 = 1%nat.
Proof.
  intros f f2.
  pose (s1 := snd (Get context_Background "k" f example_sys)).
  assert (H1 : Get context_Background "k" f example_sys = (Some (AInt 42, None), s1))
    by (vm_compute; reflexivity).
  assert (Hlive : forall e, entries (backend (memo s1)) !! "k" = Some e ->
                            fst (IsExpired e (clock s1)) = false).
  { intros e He. vm_compute in He. injection He as <-. vm_compute. reflexivity. }
  destruct (Get_hit_suppresses_compute context_Background context_Background "k"
              f f2 example_sys s1 (AInt 42) eq_refl H1 Hlive)
    as (e & _ & _ & Hget2 & _).
  exists s1. eexists. split; [exact H1 |]. split; [exact Hget2 |].
  split; reflexivity.
Defined.

(** C3, as amended.  When the key has no live entry and the computation
    returns an error, [Get] returns the nil value with that error, the
    computation has run once, and nothing is written: the backend's map is
    the one before the call without the key, whose entry, if there was
    one, had expired and was purged by the lookup.  Every entry present
    afterwards was present before, unchanged. *)
Theorem Get_error_not_cached {U : Type} (ctx : Context) (key : string)
    (f : State U (any * error)) (s : Sys Memory U)
    (result : any) (msg : string) (u' : U) :
  sf_m (group (memo s)) !! key = None ->
  (forall e, entries (backend (memo s)) !! key = Some e ->
             fst (IsExpired e (clock s)) = true) ->
  f (user s) = ((result, Some msg), u') ->
  exists s1,
    Get ctx key f s = (Some (nil, Some msg), s1) /\
    user s1 = u' /\
    entries (backend (memo s1)) = delete key (entries (backend (memo s))) /\
    entries (backend (memo s1)) !! key = None /\
    (forall k e, entries (backend (memo s1)) !! k = Some e ->
                 entries (backend (memo s)) !! k = Some e).
Proof.
  intros Hg Hexp Hf.
  destruct (Get_Memory_miss_error ctx key f s result msg u' Hg Hexp Hf)
    as (s1 & Hget & Hu & He & _).
  exists s1. repeat split; try done.
  - rewrite He. apply lookup_delete_eq.
  - intros k e. rewrite He. rewrite lookup_delete_Some. tauto.
Qed.

Lemma Get_error_not_cached_witness :
  let f := counting (AString "partial", Some "boom") in
  exists s1,
    Get context_Background "k" f stale_sys = (Some (nil, Some "boom"), s1) /\
    user s1 = 1%nat /\
    entries (backend (memo s1)) = delete "k" (entries (backend (memo stale_sys))).
Proof.
  intros f.
  assert (Hexp : forall e, entries (backend (memo stale_sys)) !! "k" = Some e ->
                           fst (IsExpired e (clock stale_sys)) = true).
  { intros e He. vm_compute in He. injection He as <-. reflexivity. }
  destruct (Get_error_not_cached context_Background "k" f stale_sys
              (AString "partial") "boom" 1%nat eq_refl Hexp eq_refl)
    as (s1 & Hget & Hu & He & _).
  exists s1. split; [exact Hget |]. split; [exact Hu | exact He].
Defined.

(** C3, counterexample.  The backend's state for the key does change
    when the key holds an expired entry: the failed [Get] leaves the key
    without the entry it had. *)
Lemma Get_error_purges_expired_entry :
  let f := counting (nil, Some "boom") in
  let s1 := snd (Get context_Background "k" f stale_sys) in
  fst (Get context_Background "k" f stale_sys) = Some (nil, Some "boom") /\
  entries (backend (memo stale_sys)) !! "k" = Some (mkCacheEntry (AInt 1) Second 1) /\
  entries (backend (memo s1)) !! "k" = None /\
  entries (backend (memo s1)) !! "k" <> entries (backend (memo stale_sys)) !! "k".
Proof.
  intros f s1.
  assert (H0 : entries (backend (memo stale_sys)) !! "k"
               = Some (mkCacheEntry (AInt 1) Second 1)) by reflexivity.
  assert (H1 : entries (backend (memo s1)) !! "k" = None) by (vm_compute; reflexivity).
  split; [vm_compute; reflexivity |]. split; [exact H0 |]. split; [exact H1 |].
  rewrite H0, H1. discriminate.
Qed.

(** ** Concurrent callers *)

Lemma Memory_Get_absent key m clk :
  entries m !! key = None -> Memory_Get key m clk = (nil, false, m, clk).
Proof. intros Hk. by rewrite Memory_Get_spec, Hk. Qed.

Lemma IsExpired_readings e clk : readings (snd (IsExpired e clk)) = readings clk.
Proof. unfold IsExpired, bind, ret, time_Now. by destruct (expiry e =? 0). Qed.

Lemma Memory_Get_readings key m clk :
  readings (snd (Memory_Get key m clk)) = readings clk.
Proof.
  rewrite Memory_Get_spec. destruct (entries m !! key) as [e |]; [| done].
  destruct (fst (IsExpired e clk)); apply IsExpired_readings.
Qed.

Lemma Memory_Set_readings key value ttl m clk :
  readings (snd (Memory_Set key value ttl m clk)) = readings clk.
Proof.
  unfold Memory_Set, NewEntry, bind, ret, time_Now. cbn [BumpVersion].
  by destruct (0 <? ttl).
Qed.

Lemma measure_insert (ts : list pc) (i : nat) (p p' : pc) :
  ts !! i = Some p ->
  (rank p' < rank p)%nat ->
  (measure (<[i := p']> ts) < measure ts)%nat.
Proof.
  revert i. induction ts as [| q ts IH]; intros i Hi Hlt; [done |].
  destruct i as [| i].
  - injection Hi as ->. cbn [measure]. change (<[0%nat:=p']> (p :: ts)) with (p' :: ts).
    cbn [measure]. lia.
  - change (<[S i:=p']> (q :: ts)) with (q :: <[i:=p']> ts).
    cbn [measure]. specialize (IH i Hi Hlt). lia.
Qed.

Lemma sched_step_inv {U : Type} (callers : list (Caller U)) key ttl i b cfg cfg' :
  sched_step callers key ttl (i, b) cfg = Some cfg' ->
  exists p who p' sh',
    threads cfg !! i = Some p /\ callers !! i = Some who /\
    thread_step key ttl b who p (shared cfg) = Some (p', sh') /\
    cfg' = mkConfig sh' (<[i := p']> (threads cfg)).
Proof.
  unfold sched_step. intros H.
  destruct (threads cfg !! i) as [p |]; [| discriminate].
  destruct (callers !! i) as [who |]; [| discriminate].
  destruct (thread_step key ttl b who p (shared cfg)) as [[p' sh'] |] eqn:Hstep;
    [| discriminate].
  injection H as <-. by exists p, who, p', sh'.
Qed.

(** Every step takes the goroutine that moves closer to its return. *)
Lemma thread_step_rank {U : Type} key ttl b (who : Caller U) p sh p' sh' :
  thread_step key ttl b who p sh = Some (p', sh') -> (rank p' < rank p)%nat.
Proof.
  destruct p; cbn [thread_step]; intros H.
  - destruct (Memory_Get key (sh_mem sh) (sh_clock sh)) as [[[v []] m] k];
      injection H as <- _; cbn; lia.
  - destruct (sh_m sh !! key); injection H as <- _; cbn; lia.
  - destruct b.
    + destruct (ctx_Done (caller_ctx who)); [| discriminate]. injection H as <- _. cbn; lia.
    + destruct (sh_calls sh !! c) as [cl |]; [| discriminate].
      destruct (wg cl =? 0); [| discriminate]. injection H as <- _. cbn; lia.
  - destruct (Memory_Get key (sh_mem sh) (sh_clock sh)) as [[[v []] m] k];
      injection H as <- _; cbn; lia.
  - destruct (caller_fn who (sh_user sh)) as [[result [msg |]] u];
      injection H as <- _; cbn; lia.
  - destruct (Memory_Set key result ttl (sh_mem sh) (sh_clock sh)).
    injection H as <- _; cbn; lia.
  - injection H as <- _; cbn; lia.
  - injection H as <- _; cbn; lia.
  - discriminate.
Qed.

Lemma sched_step_measure {U : Type} (callers : list (Caller U)) key ttl choice cfg cfg' :
  sched_step callers key ttl choice cfg = Some cfg' ->
  (measure (threads cfg') < measure (threads cfg))%nat /\
  length (threads cfg') = length (threads cfg).
Proof.
  destruct choice as [i b]. intros H.
  apply sched_step_inv in H as (p & who & p' & sh' & Hp & _ & Hstep & ->).
  cbn [threads]. split; [| apply length_insert].
  eapply measure_insert; [exact Hp |]. eapply thread_step_rank; eauto.
Qed.

(** A run is no longer than the steps the goroutines have ahead. *)
Lemma run_length {U : Type} (callers : list (Caller U)) key ttl schedule :
  forall cfg cfg',
    run callers key ttl schedule cfg = Some cfg' ->
    (measure (threads cfg') + length schedule <= measure (threads cfg))%nat.
Proof.
  induction schedule as [| choice rest IH]; intros cfg cfg' Hrun; cbn in Hrun.
  - injection Hrun as <-. cbn. lia.
  - destruct (sched_step callers key ttl choice cfg) as [cfg1 |] eqn:Hstep;
      [| discriminate].
    apply sched_step_measure in Hstep as [Hlt _].
    specialize (IH _ _ Hrun). cbn [length]. lia.
Qed.

Lemma measure_replicate n : measure (replicate n AtLookup) = (7 * n)%nat.
Proof. induction n as [| n IH]; cbn [replicate measure rank] in *; lia. Qed.

(** [<[i:=x]> l !! j = Some y]: either [j] is [i] and [y] is [x], or the
    lookup is the old one. *)
Ltac split_insert H Hne :=
  apply list_lookup_insert_Some in H as [(<- & H & _) | (Hne & H)].

Section Coordination.
Context {U : Type}.
Variables (key : string) (ttl : Z) (rd : nat -> Z).

(** A goroutine moves without touching the coordinator's map or the
    calls, and stays an owner, or not one, as it was. *)
Lemma structural_local (cfg : Config U) i p p' mem clk (u : U) (ran : list nat) :
  Structural key rd cfg ->
  threads cfg !! i = Some p ->
  owner_of p' = owner_of p ->
  is_cleanup p' = false ->
  (forall c, p' <> Waiting c) ->
  readings clk = rd ->
  Structural key rd
    (mkConfig (mkShared mem clk (sh_m (shared cfg)) (sh_calls (shared cfg)) u ran)
       (<[i := p']> (threads cfg))).
Proof.
  intros [Hrd Hom Hou Hmv Hwv Hpe] Hp Hown Hcl Hnw Hclk.
  split; cbn [shared threads sh_clock sh_m sh_calls].
  - done.
  - intros j q c Hq Hoq. split_insert Hq Hne.
    + subst q. rewrite Hown in Hoq. eauto.
    + eauto.
  - intros j k q q' Hq Hq' Hoq Hoq'. split_insert Hq Hne; split_insert Hq' Hne'.
    + done.
    + subst q. rewrite Hown in Hoq. eauto.
    + subst q'. rewrite Hown in Hoq'. eauto.
    + eauto.
  - done.
  - intros j c Hq. split_insert Hq Hne; [by destruct (Hnw c) | eauto].
  - intros c cl Hc Hwg. destruct (Hpe c cl Hc Hwg) as (j & q & Hq & Hoq & Hcq).
    destruct (decide (i = j)) as [<- | Hne].
    + exists i, p'. rewrite list_lookup_insert_eq by (by eapply lookup_lt_Some).
      split; [done |]. split; [| done]. rewrite Hown. congruence.
    + exists j, q. by rewrite list_lookup_insert_ne.
Qed.

(** A goroutine finds a call in flight and starts waiting on it. *)
Lemma structural_wait (cfg : Config U) i c :
  Structural key rd cfg ->
  threads cfg !! i = Some AtDo ->
  sh_m (shared cfg) !! key = Some c ->
  Structural key rd (mkConfig (shared cfg) (<[i := Waiting c]> (threads cfg))).
Proof.
  intros [Hrd Hom Hou Hmv Hwv Hpe] Hp Hc.
  split; cbn [shared threads].
  - done.
  - intros j q c' Hq Hoq. split_insert Hq Hne; [by subst q | eauto].
  - intros j k q q' Hq Hq' [? Hoq] [? Hoq'].
    split_insert Hq Hne; [by subst q |].
    split_insert Hq' Hne'; [by subst q' |]. eauto.
  - done.
  - intros j c' Hq. split_insert Hq Hne; [| eauto].
    injection Hq as <-. by apply Hmv.
  - intros c' cl Hc' Hwg. destruct (Hpe c' cl Hc' Hwg) as (j & q & Hq & Hoq & Hcq).
    exists j, q. rewrite list_lookup_insert_ne; [done |].
    intros <-. rewrite Hp in Hq. by injection Hq as <-.
Qed.

(** A goroutine finds no call in flight and registers a new one. *)
Lemma structural_register (cfg : Config U) i :
  Structural key rd cfg ->
  threads cfg !! i = Some AtDo ->
  sh_m (shared cfg) !! key = None ->
  let sh := shared cfg in
  let c := length (sh_calls sh) in
  Structural key rd
    (mkConfig (mkShared (sh_mem sh) (sh_clock sh) (<[key := c]> (sh_m sh))
                 (sh_calls sh ++ [mkCall 1 nil None]) (sh_user sh) (sh_ran sh))
       (<[i := AtRecheck c]> (threads cfg))).
Proof.
  intros [Hrd Hom Hou Hmv Hwv Hpe] Hp Hnone sh c. subst sh c.
  assert (Hno : forall j q, threads cfg !! j = Some q -> owner_of q = None).
  { intros j q Hq. destruct (owner_of q) as [c' |] eqn:Hoq; [| done].
    specialize (Hom j q c' Hq Hoq). congruence. }
  split; cbn [shared threads sh_clock sh_m sh_calls].
  - done.
  - intros j q c' Hq Hoq. split_insert Hq Hne.
    + subst q. injection Hoq as <-. apply lookup_insert_eq.
    + rewrite (Hno _ _ Hq) in Hoq. discriminate.
  - intros j k q q' Hq Hq' [? Hoq] [? Hoq'].
    split_insert Hq Hne; split_insert Hq' Hne'.
    + done.
    + rewrite (Hno _ _ Hq') in Hoq'. discriminate.
    + rewrite (Hno _ _ Hq) in Hoq. discriminate.
    + rewrite (Hno _ _ Hq) in Hoq. discriminate.
  - intros c'. rewrite lookup_insert_eq. intros [= <-].
    rewrite length_app. cbn [length]. lia.
  - intros j c' Hq. split_insert Hq Hne; [discriminate |].
    specialize (Hwv _ _ Hq). rewrite length_app. cbn [length]. lia.
  - intros c' cl Hc' Hwg. apply lookup_app_Some in Hc' as [Hc' | [Hge Hc']].
    + destruct (Hpe c' cl Hc' Hwg) as (j & q & Hq & Hoq & _).
      rewrite (Hno _ _ Hq) in Hoq. discriminate.
    + apply list_lookup_singleton_Some in Hc' as [Hc' _].
      eexists i, _. rewrite list_lookup_insert_eq
        by (by eapply lookup_lt_Some).
      split; [done |]. split; [| done]. cbn [owner_of]. f_equal. lia.
Qed.

(** The owner writes its result into its call and signals. *)
Lemma structural_publish (cfg : Config U) i c r :
  Structural key rd cfg ->
  threads cfg !! i = Some (AtPublish c r) ->
  let sh := shared cfg in
  Structural key rd
    (mkConfig (mkShared (sh_mem sh) (sh_clock sh) (sh_m sh)
                 (<[c := mkCall 0 (fst r) (snd r)]> (sh_calls sh))
                 (sh_user sh) (sh_ran sh))
       (<[i := AtCleanup c r]> (threads cfg))).
Proof.
  intros [Hrd Hom Hou Hmv Hwv Hpe] Hp sh. subst sh.
  split; cbn [shared threads sh_clock sh_m sh_calls].
  - done.
  - intros j q c' Hq Hoq. split_insert Hq Hne; [| eauto].
    subst q. injection Hoq as <-. by apply (Hom i (AtPublish c r)).
  - intros j k q q' Hq Hq' Hoq Hoq'. split_insert Hq Hne; split_insert Hq' Hne'.
    + done.
    + eapply (Hou i k (AtPublish c r)); eauto.
    + eapply (Hou j i q (AtPublish c r)); eauto.
    + eauto.
  - intros c' Hc'. rewrite length_insert. eauto.
  - intros j c' Hq. rewrite length_insert. split_insert Hq Hne; [discriminate |].
    eauto.
  - intros c' cl Hc' Hwg. apply list_lookup_insert_Some in Hc'
      as [(_ & <- & _) | (Hne & Hc')]; [done |].
    destruct (Hpe c' cl Hc' Hwg) as (j & q & Hq & Hoq & Hcq).
    exists j, q. rewrite list_lookup_insert_ne; [done |].
    intros <-. rewrite Hp in Hq. injection Hq as <-. cbn in Hoq. congruence.
Qed.

(** The owner removes its call from the map and returns. *)
Lemma structural_cleanup (cfg : Config U) i c r :
  Structural key rd cfg ->
  threads cfg !! i = Some (AtCleanup c r) ->
  let sh := shared cfg in
  Structural key rd
    (mkConfig (mkShared (sh_mem sh) (sh_clock sh) (delete key (sh_m sh))
                 (sh_calls sh) (sh_user sh) (sh_ran sh))
       (<[i := Returned (Some c) r]> (threads cfg))).
Proof.
  intros [Hrd Hom Hou Hmv Hwv Hpe] Hp sh. subst sh.
  assert (Hno : forall j q, i <> j -> threads cfg !! j = Some q -> owner_of q = None).
  { intros j q Hne Hq. destruct (owner_of q) as [c' |] eqn:Hoq; [| done].
    destruct Hne. eapply (Hou i j (AtCleanup c r) q); eauto. }
  split; cbn [shared threads sh_clock sh_m sh_calls].
  - done.
  - intros j q c' Hq Hoq. split_insert Hq Hne; [by subst q |].
    rewrite (Hno _ _ Hne Hq) in Hoq. discriminate.
  - intros j k q q' Hq Hq' [? Hoq] [? Hoq']. split_insert Hq Hne; [by subst q |].
    rewrite (Hno _ _ Hne Hq) in Hoq. discriminate.
  - intros c'. rewrite lookup_delete_eq. discriminate.
  - intros j c' Hq. split_insert Hq Hne; [discriminate | eauto].
  - intros c' cl Hc' Hwg. destruct (Hpe c' cl Hc' Hwg) as (j & q & Hq & Hoq & Hcq).
    destruct (decide (i = j)) as [<- | Hne].
    + rewrite Hp in Hq. injection Hq as <-. discriminate.
    + rewrite (Hno _ _ Hne Hq) in Hoq. discriminate.
Qed.
(** Every step keeps the coordinator's bookkeeping, whatever the
    computations and the contexts do. *)
Lemma Structural_step (callers : list (Caller U)) (cfg cfg' : Config U)
    (choice : nat * bool) :
  Structural key rd cfg ->
  sched_step callers key ttl choice cfg = Some cfg' ->
  Structural key rd cfg'.
Proof.
  destruct choice as [i b]. intros Hst Hstep.
  apply sched_step_inv in Hstep as (p & who & p' & sh' & Hp & Hwho & Hstep & ->).
  pose proof (st_readings _ _ _ Hst) as Hrd.
  destruct cfg as [[mem clk m calls u ran] ts].
  pose (cfg := mkConfig (mkShared mem clk m calls u ran) ts).
  cbn [shared threads sh_mem sh_clock sh_m sh_calls sh_user sh_ran] in *.
  destruct p; cbn [thread_step sh_mem sh_clock sh_m sh_calls sh_user sh_ran] in Hstep.
  - pose proof (Memory_Get_readings key mem clk) as Hk.
    destruct (Memory_Get key mem clk) as [[[v ok] mem'] clk'].
    injection Hstep as <- <-.
    eapply (structural_local cfg); eauto; try (by destruct ok).
    cbn in Hk. congruence.
  - destruct (m !! key) as [c |] eqn:Hm; injection Hstep as <- <-.
    + by apply (structural_wait cfg).
    + by apply (structural_register cfg).
  - destruct b.
    + destruct (ctx_Done (caller_ctx who)); [| discriminate].
      injection Hstep as <- <-. by eapply (structural_local cfg).
    + destruct (calls !! c) as [cl |]; [| discriminate].
      destruct (wg cl =? 0); [| discriminate].
      injection Hstep as <- <-. by eapply (structural_local cfg).
  - pose proof (Memory_Get_readings key mem clk) as Hk.
    destruct (Memory_Get key mem clk) as [[[v ok] mem'] clk'].
    injection Hstep as <- <-.
    eapply (structural_local cfg); eauto; try (by destruct ok).
    cbn in Hk. congruence.
  - destruct (caller_fn who u) as [[result e] u'].
    injection Hstep as <- <-.
    eapply (structural_local cfg); eauto; by destruct e.
  - pose proof (Memory_Set_readings key result ttl mem clk) as Hk.
    destruct (Memory_Set key result ttl mem clk) as [mem' clk'].
    injection Hstep as <- <-.
    eapply (structural_local cfg); eauto. cbn in Hk. congruence.
  - injection Hstep as <- <-. by apply (structural_publish cfg).
  - injection Hstep as <- <-. by eapply (structural_cleanup cfg).
  - discriminate.
Qed.

(** A goroutine moves without touching the calls or the log. *)
Lemma sessions_local (cfg : Config U) i p p' mem clk m (u : U) :
  Sessions cfg ->
  threads cfg !! i = Some p ->
  (forall c, owner_of p' = Some c -> is_cleanup p' = false ->
             exists cl, sh_calls (shared cfg) !! c = Some cl /\ wg cl <> 0) ->
  (forall c r, took p' c r ->
               sh_calls (shared cfg) !! c = Some (mkCall 0 (fst r) (snd r))) ->
  (forall c, p' = AtRecheck c \/ p' = AtCompute c -> c ∉ sh_ran (shared cfg)) ->
  Sessions
    (mkConfig (mkShared mem clk m (sh_calls (shared cfg)) u (sh_ran (shared cfg)))
       (<[i := p']> (threads cfg))).
Proof.
  intros [Hun Htk Hnd Hrv Hrf] Hp Hun' Htk' Hrf'.
  split; cbn [shared threads sh_calls sh_ran]; try done.
  - intros j q c Hq. split_insert Hq Hne; [subst q; eauto | eauto].
  - intros j q c r Hq. split_insert Hq Hne; [subst q; eauto | eauto].
  - intros j q c Hq. split_insert Hq Hne; [subst q; eauto | eauto].
Qed.

(** A goroutine registers a new call. *)
Lemma sessions_register (cfg : Config U) i :
  Sessions cfg ->
  threads cfg !! i = Some AtDo ->
  let sh := shared cfg in
  let c := length (sh_calls sh) in
  Sessions
    (mkConfig (mkShared (sh_mem sh) (sh_clock sh) (<[key := c]> (sh_m sh))
                 (sh_calls sh ++ [mkCall 1 nil None]) (sh_user sh) (sh_ran sh))
       (<[i := AtRecheck c]> (threads cfg))).
Proof.
  intros [Hun Htk Hnd Hrv Hrf] Hp sh c. subst sh c.
  split; cbn [shared threads sh_calls sh_ran]; try done.
  - intros j q c Hq Hoq Hcq. split_insert Hq Hne.
    + subst q. injection Hoq as <-. eexists.
      split; [by apply list_lookup_middle |]. done.
    + destruct (Hun j q c Hq Hoq Hcq) as (cl & Hcl & Hwg).
      exists cl. split; [| done]. by apply lookup_app_l_Some.
  - intros j q c r Hq Htook. split_insert Hq Hne.
    + subst q. by destruct Htook.
    + apply lookup_app_l_Some. eauto.
  - intros c Hc. rewrite length_app. specialize (Hrv c Hc). lia.
  - intros j q c Hq Hor. split_insert Hq Hne; [| eauto].
    subst q. intros Hc. specialize (Hrv c Hc).
    destruct Hor as [[= <-] | [=]]. lia.
Qed.

(** The owner runs the computation. *)
Lemma sessions_compute (cfg : Config U) i c p' (u : U) :
  Structural key rd cfg ->
  Sessions cfg ->
  threads cfg !! i = Some (AtCompute c) ->
  owner_of p' = Some c -> is_cleanup p' = false ->
  (forall c', p' <> AtRecheck c' /\ p' <> AtCompute c') ->
  let sh := shared cfg in
  Sessions
    (mkConfig (mkShared (sh_mem sh) (sh_clock sh) (sh_m sh) (sh_calls sh) u
                 (c :: sh_ran sh))
       (<[i := p']> (threads cfg))).
Proof.
  intros Hst [Hun Htk Hnd Hrv Hrf] Hp Hown Hcl Hnot sh. subst sh.
  destruct (Hun i _ c Hp eq_refl eq_refl) as (cl & Hcl' & Hwg).
  split; cbn [shared threads sh_calls sh_ran].
  - intros j q c' Hq Hoq Hcq. split_insert Hq Hne; [| eauto].
    subst q. rewrite Hown in Hoq. injection Hoq as <-. eauto.
  - intros j q c' r Hq Htook. split_insert Hq Hne; [| eauto].
    subst q. destruct Htook as [-> | ->]; discriminate.
  - apply NoDup_cons. split; [| done]. apply (Hrf i _ c Hp). by right.
  - intros c' Hc'. apply elem_of_cons in Hc' as [-> | Hc']; [| eauto].
    by eapply lookup_lt_Some.
  - intros j q c' Hq Hor. split_insert Hq Hne.
    + subst q. destruct (Hnot c') as [H1 H2]. by destruct Hor.
    + destruct Hne.
      apply (st_owner_unique _ _ _ Hst i j (AtCompute c) q Hp Hq);
        [by eexists | destruct Hor as [-> | ->]; by eexists].
Qed.

(** The owner writes its result into its call and signals. *)
Lemma sessions_publish (cfg : Config U) i c r :
  Structural key rd cfg ->
  Sessions cfg ->
  threads cfg !! i = Some (AtPublish c r) ->
  let sh := shared cfg in
  Sessions
    (mkConfig (mkShared (sh_mem sh) (sh_clock sh) (sh_m sh)
                 (<[c := mkCall 0 (fst r) (snd r)]> (sh_calls sh))
                 (sh_user sh) (sh_ran sh))
       (<[i := AtCleanup c r]> (threads cfg))).
Proof.
  intros Hst [Hun Htk Hnd Hrv Hrf] Hp sh. subst sh.
  destruct (Hun i _ c Hp eq_refl eq_refl) as (cl & Hcl & Hwg).
  split; cbn [shared threads sh_calls sh_ran]; try done.
  - intros j q c' Hq Hoq Hcq. split_insert Hq Hne; [by subst q |].
    destruct Hne.
    apply (st_owner_unique _ _ _ Hst i j (AtPublish c r) q Hp Hq); by eexists.
  - intros j q c' r' Hq Htook. split_insert Hq Hne.
    + subst q. destruct Htook as [[= <- <-] | [=]].
      apply list_lookup_insert_eq. by eapply lookup_lt_Some.
    + pose proof (Htk j q c' r' Hq Htook) as Hc'.
      rewrite list_lookup_insert_ne; [done |].
      intros <-. rewrite Hcl in Hc'. injection Hc' as ->. done.
  - intros c' Hc'. rewrite length_insert. eauto.
  - intros j q c' Hq Hor. split_insert Hq Hne; [| eauto].
    subst q. by destruct Hor.
Qed.

Lemma Sessions_step (callers : list (Caller U)) (cfg cfg' : Config U)
    (choice : nat * bool) :
  Structural key rd cfg ->
  Sessions cfg ->
  sched_step callers key ttl choice cfg = Some cfg' ->
  Sessions cfg'.
Proof.
  destruct choice as [i b]. intros Hst Hse Hstep.
  apply sched_step_inv in Hstep as (p & who & p' & sh' & Hp & Hwho & Hstep & ->).
  destruct cfg as [[mem clk m calls u ran] ts].
  pose (cfg := mkConfig (mkShared mem clk m calls u ran) ts).
  cbn [shared threads sh_mem sh_clock sh_m sh_calls sh_user sh_ran] in *.
  destruct p; cbn [thread_step sh_mem sh_clock sh_m sh_calls sh_user sh_ran] in Hstep.
  - destruct (Memory_Get key mem clk) as [[[v ok] mem'] clk'].
    injection Hstep as <- <-.
    apply (sessions_local cfg _ _ _ _ _ _ _ Hse Hp).
    + intros c Ho. by destruct ok.
    + intros c r [Ht | Ht]; by destruct ok.
    + intros c [Ht | Ht]; by destruct ok.
  - destruct (m !! key) as [c |] eqn:Hm; injection Hstep as <- <-.
    + apply (sessions_local cfg _ _ _ _ _ _ _ Hse Hp).
      * done.
      * by intros c' r [Ht | Ht].
      * by intros c' [Ht | Ht].
    + by apply (sessions_register cfg).
  - destruct b.
    + destruct (ctx_Done (caller_ctx who)); [| discriminate].
      injection Hstep as <- <-.
      apply (sessions_local cfg _ _ _ _ _ _ _ Hse Hp).
      * done.
      * by intros c' r [Ht | Ht].
      * by intros c' [Ht | Ht].
    + destruct (calls !! c) as [cl |] eqn:Hc; [| discriminate].
      destruct (Z.eqb_spec (wg cl) 0) as [Hwg | Hwg]; [| discriminate].
      injection Hstep as <- <-.
      apply (sessions_local cfg _ _ _ _ _ _ _ Hse Hp).
      * done.
      * intros c' r [Ht | Ht]; [discriminate |]. injection Ht as <- <-.
        cbn [cfg shared sh_calls fst snd]. rewrite Hc. f_equal.
        destruct cl as [w v e]. cbn in *. by subst w.
      * by intros c' [Ht | Ht].
  - pose proof (se_unfinished _ Hse i _ c Hp eq_refl eq_refl) as Hun.
    pose proof (se_ran_fresh _ Hse i _ c Hp (or_introl eq_refl)) as Hfr.
    destruct (Memory_Get key mem clk) as [[[v ok] mem'] clk'].
    injection Hstep as <- <-.
    apply (sessions_local cfg _ _ _ _ _ _ _ Hse Hp).
    + intros c' Ho _. destruct ok; by injection Ho as <-.
    + intros c' r [Ht | Ht]; by destruct ok.
    + intros c' [Ht | Ht]; destruct ok; try done. by injection Ht as <-.
  - destruct (caller_fn who u) as [[result e] u'].
    injection Hstep as <- <-.
    eapply (sessions_compute cfg); eauto; by destruct e.
  - pose proof (se_unfinished _ Hse i _ c Hp eq_refl eq_refl) as Hun.
    destruct (Memory_Set key result ttl mem clk) as [mem' clk'].
    injection Hstep as <- <-.
    apply (sessions_local cfg _ _ _ _ _ _ _ Hse Hp).
    + intros c' Ho _. by injection Ho as <-.
    + by intros c' r' [Ht | Ht].
    + by intros c' [Ht | Ht].
  - injection Hstep as <- <-. by apply (sessions_publish cfg).
  - pose proof (se_taken _ Hse i _ c r Hp (or_introl eq_refl)) as Htk.
    injection Hstep as <- <-.
    apply (sessions_local cfg _ _ _ _ _ _ _ Hse Hp).
    + done.
    + intros c' r' [Ht | Ht]; [discriminate |]. by injection Ht as <- <-.
    + by intros c' [Ht | Ht].
  - discriminate.
Qed.
Lemma Structural_init (callers : list (Caller U)) (mem : Memory) (clk : Clock) (u : U) :
  readings clk = rd ->
  Structural key rd (init callers mem clk u).
Proof.
  intros Hclk. unfold init.
  split; cbn [shared threads sh_clock sh_m sh_calls].
  - done.
  - intros i p c Hp. apply lookup_replicate in Hp as [-> _]. discriminate.
  - intros i j p q Hp _ [c Hc]. apply lookup_replicate in Hp as [-> _]. discriminate.
  - intros c. rewrite lookup_empty. discriminate.
  - intros i c Hp. apply lookup_replicate in Hp as [? _]. discriminate.
  - intros c cl Hc. by rewrite lookup_nil in Hc.
Qed.

Lemma Sessions_init (callers : list (Caller U)) (mem : Memory) (clk : Clock) (u : U) :
  Sessions (init callers mem clk u).
Proof.
  unfold init. split; cbn [shared threads sh_calls sh_ran].
  - intros i p c Hp. apply lookup_replicate in Hp as [-> _]. discriminate.
  - intros i p c r Hp [Ht | Ht]; apply lookup_replicate in Hp as [-> _]; discriminate.
  - constructor.
  - intros c Hc. by apply elem_of_nil in Hc.
  - intros i p c Hp [Ht | Ht]; apply lookup_replicate in Hp as [-> _]; discriminate.
Qed.

Lemma Sessions_run (callers : list (Caller U)) (schedule : list (nat * bool)) :
  forall cfg cfg' : Config U,
    Structural key rd cfg -> Sessions cfg ->
    run callers key ttl schedule cfg = Some cfg' ->
    Structural key rd cfg' /\ Sessions cfg'.
Proof.
  induction schedule as [| choice rest IH]; intros cfg cfg' Hst Hse Hrun; cbn in Hrun.
  - by injection Hrun as <-.
  - destruct (sched_step callers key ttl choice cfg) as [cfg1 |] eqn:Hstep;
      [| discriminate].
    eapply IH; [| | exact Hrun].
    + eapply Structural_step; eauto.
    + eapply Sessions_step; eauto.
Qed.

(** Two calls that took their result from the same single-flight call
    returned the same pair. *)
Lemma Sessions_agree (cfg : Config U) i j c r r' :
  Sessions cfg ->
  threads cfg !! i = Some (Returned (Some c) r) ->
  threads cfg !! j = Some (Returned (Some c) r') ->
  r = r'.
Proof.
  intros Hse Hi Hj.
  pose proof (se_taken _ Hse i _ c r Hi (or_intror eq_refl)) as H1.
  pose proof (se_taken _ Hse j _ c r' Hj (or_intror eq_refl)) as H2.
  rewrite H1 in H2. destruct r, r'. cbn in H2. by injection H2 as -> ->.
Qed.

(** A goroutine that is neither waiting nor returned can move. *)
Lemma active_steps (b : bool) (who : Caller U) (p : pc) (sh : Shared U) :
  is_returned p = false ->
  (forall c, p <> Waiting c) ->
  is_Some (thread_step key ttl b who p sh).
Proof.
  intros Hr Hw. destruct p; cbn [thread_step]; try done.
  - by destruct (Memory_Get key (sh_mem sh) (sh_clock sh)) as [[[v ok] m] k].
  - by destruct (sh_m sh !! key).
  - by destruct (Hw c).
  - by destruct (Memory_Get key (sh_mem sh) (sh_clock sh)) as [[[v ok] m] k].
  - by destruct (caller_fn who (sh_user sh)) as [[result e] u].
  - by destruct (Memory_Set key result ttl (sh_mem sh) (sh_clock sh)).
Qed.

Lemma sched_step_active (callers : list (Caller U)) (cfg : Config U) i p who :
  threads cfg !! i = Some p ->
  callers !! i = Some who ->
  is_Some (thread_step key ttl false who p (shared cfg)) ->
  is_Some (sched_step callers key ttl (i, false) cfg).
Proof.
  intros Hp Hwho [[p' sh'] Hstep]. unfold sched_step.
  by rewrite Hp, Hwho, Hstep.
Qed.

(** No deadlock: while a call has not returned, some goroutine can move. *)
Lemma Structural_progress (callers : list (Caller U)) (cfg : Config U) :
  Structural key rd cfg ->
  length (threads cfg) = length callers ->
  final cfg = true \/
  exists i, is_Some (sched_step callers key ttl (i, false) cfg).
Proof.
  intros Hst Hlen. unfold final.
  destruct (forallb is_returned (threads cfg)) eqn:Hfin; [by left | right].
  assert (Hex : exists i p, threads cfg !! i = Some p /\ is_returned p = false).
  { clear -Hfin. induction (threads cfg) as [| q ts IH]; [discriminate |].
    cbn in Hfin. apply andb_false_iff in Hfin as [Hq | Hts].
    - by exists 0%nat, q.
    - destruct (IH Hts) as (i & p & Hp & Hr). by exists (S i), p. }
  destruct Hex as (i & p & Hp & Hr).
  assert (Hcaller : forall j q, threads cfg !! j = Some q -> is_Some (callers !! j)).
  { intros j q Hq. apply lookup_lt_is_Some. rewrite <- Hlen.
    by eapply lookup_lt_Some. }
  destruct (Hcaller i p Hp) as [who Hwho].
  assert (Hcase : (exists c, p = Waiting c) \/ (forall c, p <> Waiting c))
    by (destruct p; try (by right); left; by eexists).
  destruct Hcase as [[c ->] | Hnw].
  - pose proof (st_wait_valid _ _ _ Hst i c Hp) as Hc.
    apply lookup_lt_is_Some in Hc as [cl Hcl].
    destruct (Z.eqb_spec (wg cl) 0) as [Hwg | Hwg].
    + exists i. eapply sched_step_active; eauto. cbn [thread_step].
      rewrite Hcl. destruct (Z.eqb_spec (wg cl) 0); [by eexists | done].
    + destruct (st_pending _ _ _ Hst c cl Hcl Hwg) as (j & q & Hq & Hoq & _).
      destruct (Hcaller j q Hq) as [who' Hwho'].
      exists j. eapply sched_step_active; eauto.
      apply active_steps; by destruct q.
  - exists i. eapply sched_step_active; eauto. by apply active_steps.
Qed.
End Coordination.
Section SingleExecution.
Context {U : Type}.
Variables (callers : list (Caller U)) (key : string) (ttl : Z) (clk0 : Clock).
Hypothesis Hsucc : Forall succeeds callers.
Hypothesis Hwin : no_expiry clk0 ttl.

Let rd : nat -> Z := readings clk0.

(** An entry written during the run is not expired at any reading. *)
Lemma entry_stays_live (e : CacheEntry) (clk : Clock) :
  readings clk = rd ->
  expiry e = 0 \/ (exists n, expiry e = rd n + ttl) ->
  fst (IsExpired e clk) = false.
Proof.
  intros Hclk [He | [n He]]; [by rewrite IsExpired_sentinel |].
  rewrite IsExpired_value. apply andb_false_iff. right.
  apply Z.ltb_ge. rewrite He. unfold next_reading. rewrite Hclk.
  apply (Hwin n (pos clk)).
Qed.

(** What [Set] writes during the run. *)
Lemma Memory_Set_during_run (v : any) (mem : Memory) (clk : Clock) :
  readings clk = rd ->
  exists e,
    entries (fst (Memory_Set key v ttl mem clk)) = <[key := e]> (entries mem) /\
    Value e = v /\
    (expiry e = 0 \/ exists n, expiry e = rd n + ttl).
Proof.
  intros Hclk.
  destruct (Memory_Set_entries key v ttl mem clk) as (e & He & Hv & _ & Hexp).
  exists e. split; [done |]. split; [done |]. rewrite Hexp.
  destruct (0 <? ttl); [| by left]. right. exists (pos clk).
  unfold Add_UnixNano, next_reading. rewrite Hclk.
  apply wrap64_small, (Hwin (pos clk) 0%nat).
Qed.

(** The cleanup goroutine of the backend deletes expired entries only;
    during the run it leaves the key as it is. *)
Lemma Memory_sweep_keeps (keys : list string) :
  forall (mem : Memory) (clk : Clock),
    readings clk = rd ->
    (forall e, entries mem !! key = Some e ->
               expiry e = 0 \/ exists n, expiry e = rd n + ttl) ->
    entries (fst (Memory_sweep keys mem clk)) !! key = entries mem !! key /\
    readings (snd (Memory_sweep keys mem clk)) = rd.
Proof.
  induction keys as [| k keys IH]; intros mem clk Hclk Hlive; [done |].
  cbn [Memory_sweep]. destruct (entries mem !! k) as [e |] eqn:Hk; [| by apply IH].
  unfold bind. destruct (IsExpired e clk) as [expired clk'] eqn:Hexp.
  assert (Hclk' : readings clk' = rd).
  { rewrite <- Hclk. change clk' with (snd (expired, clk')). rewrite <- Hexp.
    apply IsExpired_readings. }
  destruct expired; [| by apply IH].
  assert (Hne : k <> key).
  { intros ->. pose proof (entry_stays_live e clk Hclk (Hlive e Hk)) as Hl.
    rewrite Hexp in Hl. discriminate. }
  destruct (IH (mkMemory (delete k (entries mem))) clk' Hclk') as [IH1 IH2].
  - intros e'. cbn [entries]. rewrite lookup_delete_ne by done. apply Hlive.
  - split; [| done]. rewrite IH1. cbn [entries]. by rewrite lookup_delete_ne.
Qed.

Lemma cached_other (v0 : any) (cfg : Config U) i p p' mem clk (u : U) (ran : list nat) m calls :
  cached key ttl rd v0 cfg ->
  threads cfg !! i = Some p ->
  (forall c v, p <> AtStore c v) ->
  entries mem = entries (sh_mem (shared cfg)) ->
  cached key ttl rd v0
    (mkConfig (mkShared mem clk m calls u ran) (<[i := p']> (threads cfg))).
Proof.
  unfold cached. cbn [shared threads sh_mem]. intros Hc Hp Hns ->.
  destruct (entries (sh_mem (shared cfg)) !! key) as [e |]; [done |].
  destruct Hc as (j & c & Hj). exists j, c.
  rewrite list_lookup_insert_ne; [done |].
  intros <-. rewrite Hp in Hj. injection Hj as ->. by destruct (Hns c v0).
Qed.

Lemma threads_insert_forall (P : pc -> Prop) (ts : list pc) i p' :
  (forall j q, ts !! j = Some q -> P q) ->
  P p' ->
  forall j q, <[i := p']> ts !! j = Some q -> P q.
Proof.
  intros Hall Hp' j q Hq. split_insert Hq Hne; [by subst q | eauto].
Qed.

(** The invariant holds when the calls start. *)
Lemma Inv_init (mem : Memory) (u : U) :
  entries mem !! key = None ->
  Inv key ttl rd (init callers mem clk0 u).
Proof.
  intros Hmem. split; [by apply Structural_init |].
  left. red; unfold sh_execs, init; split_and!; cbn [shared threads sh_mem sh_calls]; try done.
  intros i p Hp. by apply lookup_replicate in Hp as [-> _].
Qed.

(** Splits a goal [before_execution] or [after_execution]. *)
Ltac phase_split :=
  red; unfold sh_execs; split_and!;
  cbn [shared threads sh_ran sh_mem sh_calls length]; try done.

(** Every step keeps the invariant. *)
Lemma Inv_step (cfg cfg' : Config U) (choice : nat * bool) :
  Inv key ttl rd cfg ->
  sched_step callers key ttl choice cfg = Some cfg' ->
  Inv key ttl rd cfg'.
Proof.
  destruct choice as [i b]. intros [Hst Hph] Hstep.
  split; [by eapply Structural_step |].
  apply sched_step_inv in Hstep as (p & who & p' & sh' & Hp & Hwho & Hstep & ->).
  pose proof (proj1 (Forall_lookup _ _) Hsucc i who Hwho) as [Hctx Hfn].
  pose proof (st_readings _ _ _ Hst) as Hrd.
  assert (Hi : (i < length (threads cfg))%nat) by (by eapply lookup_lt_Some).
  destruct cfg as [[mem clk m calls u ran] ts].
  pose (cfg := mkConfig (mkShared mem clk m calls u ran) ts).
  unfold before_execution, after_execution, sh_execs in Hph.
  cbn [shared threads sh_mem sh_clock sh_m sh_calls sh_user sh_ran] in *.
  destruct p; cbn [thread_step sh_mem sh_clock sh_m sh_calls sh_user sh_ran] in Hstep.
  - (* AtLookup *)
    destruct Hph as [(Hex & Hmem & Hearly & Hcalls) | (v0 & Hex & Hca & Hag & Hdone)].
    + rewrite (Memory_Get_absent _ _ _ Hmem) in Hstep. injection Hstep as <- <-.
      left. phase_split. by apply threads_insert_forall.
    + unfold cached in Hca. cbn [shared threads sh_mem] in Hca.
      destruct (entries mem !! key) as [e |] eqn:Hmem.
      * destruct Hca as [Hv Hexp].
        rewrite (Memory_Get_live _ _ _ e Hmem (entry_stays_live _ _ Hrd Hexp)) in Hstep.
        injection Hstep as <- <-.
        right. exists v0. phase_split.
        -- unfold cached. cbn [shared sh_mem]. by rewrite Hmem.
        -- apply threads_insert_forall; [done |]. cbn. by rewrite Hv.
      * rewrite (Memory_Get_absent _ _ _ Hmem) in Hstep. injection Hstep as <- <-.
        right. exists v0. phase_split.
        -- eapply (cached_other v0 cfg); eauto.
           unfold cached. cbn [cfg shared sh_mem threads]. by rewrite Hmem.
        -- by apply threads_insert_forall.
  - (* AtDo *)
    destruct (m !! key) as [c |] eqn:Hm; injection Hstep as <- <-.
    + destruct Hph as [(Hex & Hmem & Hearly & Hcalls) | (v0 & Hex & Hca & Hag & Hdone)].
      * left. phase_split. by apply threads_insert_forall.
      * right. exists v0. phase_split.
        -- eapply (cached_other v0 cfg); eauto.
        -- by apply threads_insert_forall.
    + destruct Hph as [(Hex & Hmem & Hearly & Hcalls) | (v0 & Hex & Hca & Hag & Hdone)].
      * left. phase_split.
        -- by apply threads_insert_forall.
        -- intros c cl Hc. apply lookup_app_Some in Hc as [Hc | [_ Hc]]; [eauto |].
           apply list_lookup_singleton_Some in Hc as [_ <-]. done.
      * right. exists v0. phase_split.
        -- eapply (cached_other v0 cfg); eauto.
        -- by apply threads_insert_forall.
        -- intros c cl Hc Hwg. apply lookup_app_Some in Hc as [Hc | [_ Hc]];
             [by eapply Hdone |].
           apply list_lookup_singleton_Some in Hc as [_ <-]. done.
  - (* Waiting *)
    destruct b; [by rewrite Hctx in Hstep |].
    destruct (calls !! c) as [cl |] eqn:Hc; [| discriminate].
    destruct (Z.eqb_spec (wg cl) 0) as [Hwg | Hwg]; [| discriminate].
    injection Hstep as <- <-.
    destruct Hph as [(Hex & Hmem & Hearly & Hcalls) | (v0 & Hex & Hca & Hag & Hdone)].
    + by destruct (Hcalls c cl Hc).
    + right. exists v0. phase_split.
      * eapply (cached_other v0 cfg); eauto.
      * apply threads_insert_forall; [done |]. cbn.
        destruct (Hdone c cl Hc Hwg) as [-> ->]. done.
  - (* AtRecheck *)
    destruct Hph as [(Hex & Hmem & Hearly & Hcalls) | (v0 & Hex & Hca & Hag & Hdone)].
    + rewrite (Memory_Get_absent _ _ _ Hmem) in Hstep. injection Hstep as <- <-.
      left. phase_split. by apply threads_insert_forall.
    + unfold cached in Hca. cbn [shared threads sh_mem] in Hca.
      destruct (entries mem !! key) as [e |] eqn:Hmem.
      * destruct Hca as [Hv Hexp].
        rewrite (Memory_Get_live _ _ _ e Hmem (entry_stays_live _ _ Hrd Hexp)) in Hstep.
        injection Hstep as <- <-.
        right. exists v0. phase_split.
        -- unfold cached. cbn [shared sh_mem]. by rewrite Hmem.
        -- apply threads_insert_forall; [done |]. cbn. by rewrite Hv.
      * destruct Hca as (j & c' & Hj).
        assert (i = j) by (eapply (st_owner_unique _ _ _ Hst); eauto; by eexists).
        subst j. rewrite Hp in Hj. discriminate.
  - (* AtCompute *)
    destruct (caller_fn who u) as [[result e] u'] eqn:Hrun.
    pose proof (Hfn u) as He. rewrite Hrun in He. cbn in He. subst e.
    injection Hstep as <- <-.
    destruct Hph as [(Hex & Hmem & Hearly & Hcalls) | (v0 & Hex & Hca & Hag & Hdone)].
    + right. exists result. phase_split.
      * by rewrite Hex.
      * unfold cached. cbn [shared threads sh_mem]. rewrite Hmem.
        exists i, c. by apply list_lookup_insert_eq.
      * intros j q Hq. split_insert Hq Hne; [by subst q |].
        pose proof (Hearly j q Hq) as Hq_early. destruct q; try done.
        destruct Hne. eapply (st_owner_unique _ _ _ Hst); eauto; by eexists.
      * intros c' cl Hc Hwg. by destruct (Hcalls c' cl Hc).
    + by destruct (Hag i _ Hp).
  - (* AtStore *)
    destruct (Memory_Set key result ttl mem clk) as [mem' clk'] eqn:Hset.
    injection Hstep as <- <-.
    destruct (Memory_Set_during_run result mem clk Hrd) as (e & He & Hv & Hexp).
    rewrite Hset in He. cbn [fst] in He.
    destruct Hph as [(Hex & Hmem & Hearly & Hcalls) | (v0 & Hex & Hca & Hag & Hdone)].
    + by specialize (Hearly i _ Hp).
    + pose proof (Hag i _ Hp) as Hres. cbn in Hres.
      right. exists v0. phase_split.
      * unfold cached. cbn [shared sh_mem]. rewrite He, lookup_insert_eq.
        split; [congruence | exact Hexp].
      * apply threads_insert_forall; [done |]. cbn. by rewrite Hres.
  - (* AtPublish *)
    injection Hstep as <- <-.
    destruct Hph as [(Hex & Hmem & Hearly & Hcalls) | (v0 & Hex & Hca & Hag & Hdone)].
    + by specialize (Hearly i _ Hp).
    + pose proof (Hag i _ Hp) as Hres. cbn in Hres. subst r.
      right. exists v0. phase_split.
      * eapply (cached_other v0 cfg); eauto.
      * by apply threads_insert_forall.
      * intros c' cl Hc Hwg.
        apply list_lookup_insert_Some in Hc as [(_ & <- & _) | (_ & Hc)]; [done |].
        by eapply Hdone.
  - (* AtCleanup *)
    injection Hstep as <- <-.
    destruct Hph as [(Hex & Hmem & Hearly & Hcalls) | (v0 & Hex & Hca & Hag & Hdone)].
    + by specialize (Hearly i _ Hp).
    + pose proof (Hag i _ Hp) as Hres. cbn in Hres. subst r.
      right. exists v0. phase_split.
      * eapply (cached_other v0 cfg); eauto.
      * by apply threads_insert_forall.
  - discriminate.
Qed.

Lemma Inv_run (schedule : list (nat * bool)) :
  forall cfg cfg' : Config U,
    Inv key ttl rd cfg ->
    run callers key ttl schedule cfg = Some cfg' ->
    Inv key ttl rd cfg'.
Proof.
  induction schedule as [| choice rest IH]; intros cfg cfg' Hinv Hrun; cbn in Hrun.
  - by injection Hrun as <-.
  - destruct (sched_step callers key ttl choice cfg) as [cfg1 |] eqn:Hstep;
      [| discriminate].
    eapply IH; [| exact Hrun]. eapply Inv_step; eauto.
Qed.

(** What the invariant says of the results. *)
Lemma Inv_results (cfg : Config U) :
  Inv key ttl rd cfg ->
  (sh_execs (shared cfg) <= 1)%nat /\
  exists v, forall i via r,
    threads cfg !! i = Some (Returned via r) ->
    r = (v, None) /\ sh_execs (shared cfg) = 1%nat.
Proof.
  intros [_ [(Hex & _ & Hearly & _) | (v0 & Hex & _ & Hag & _)]].
  - split; [lia |]. exists nil. intros i via r Hr. by specialize (Hearly i _ Hr).
  - split; [lia |]. exists v0. intros i via r Hr. split; [| done].
    exact (Hag i _ Hr).
Qed.

End SingleExecution.

Lemma run_threads_length {U : Type} (callers : list (Caller U)) key ttl schedule :
  forall cfg cfg',
    run callers key ttl schedule cfg = Some cfg' ->
    length (threads cfg') = length (threads cfg).
Proof.
  induction schedule as [| choice rest IH]; intros cfg cfg' Hrun; cbn in Hrun.
  - by injection Hrun as <-.
  - destruct (sched_step callers key ttl choice cfg) as [cfg1 |] eqn:Hstep;
      [| discriminate].
    apply sched_step_measure in Hstep as [_ Hlen].
    rewrite (IH _ _ Hrun). exact Hlen.
Qed.

(** C1, as amended.  In every state an interleaving of calls of [Get]
    with one key reaches, whatever the computations return:
    - each single-flight call has had the computation run at most once
      (the log of runs names no call twice), and the calls of [Get] that
      took their result from the same single-flight call returned the
      same pair;
    - the interleaving has at most 7 steps per call, and either every call
      has returned or some goroutine can move, so every run ends with all
      the calls returned.
    When, moreover, the backend holds no entry for the key at the start,
    no computation returns an error, no context is cancelled and the
    entry written does not expire under the clock: the computation has
    run at most once, the calls that have returned all returned the same
    [(v, nil)], and it has then run exactly once. *)
Theorem single_execution {U : Type} (callers : list (Caller U)) (key : string)
    (ttl : Z) (mem : Memory) (clk : Clock) (u : U)
    (schedule : list (nat * bool)) (cfg : Config U) :
  run callers key ttl schedule (init callers mem clk u) = Some cfg ->
  (NoDup (sh_ran (shared cfg)) /\
   forall i j c r r',
     threads cfg !! i = Some (Returned (Some c) r) ->
     threads cfg !! j = Some (Returned (Some c) r') ->
     r = r') /\
  ((length schedule <= 7 * length callers)%nat /\
   (final cfg = true \/
    exists i, is_Some (sched_step callers key ttl (i, false) cfg))) /\
  (entries mem !! key = None ->
   Forall succeeds callers ->
   no_expiry clk ttl ->
   (sh_execs (shared cfg) <= 1)%nat /\
   exists v,
     (forall i via r, threads cfg !! i = Some (Returned via r) ->
                      r = (v, None) /\ sh_execs (shared cfg) = 1%nat) /\
     (final cfg = true -> callers <> [] -> sh_execs (shared cfg) = 1%nat)).
Proof.
  intros Hrun.
  pose proof (run_threads_length _ _ _ _ _ _ Hrun) as Hlen.
  cbn [init threads] in Hlen. rewrite length_replicate in Hlen.
  destruct (Sessions_run key ttl (readings clk) callers schedule _ _
              (Structural_init key (readings clk) callers mem clk u eq_refl)
              (Sessions_init callers mem clk u) Hrun) as [Hst Hse].
  split; [| split].
  - split; [apply (se_ran_once _ Hse) |].
    intros i j c r r'. by apply Sessions_agree.
  - split.
    + pose proof (run_length _ _ _ _ _ _ Hrun) as Hm.
      cbn [init threads] in Hm. rewrite measure_replicate in Hm. lia.
    + by apply (Structural_progress key ttl (readings clk)).
  - intros Hmem Hsucc Hwin.
    pose proof (Inv_run callers key ttl clk Hsucc Hwin schedule _ _
                  (Inv_init callers key ttl clk mem u Hmem) Hrun) as Hinv.
    destruct (Inv_results key ttl clk cfg Hinv) as [Hle [v Hv]].
    split; [exact Hle |]. exists v. split; [exact Hv |].
    intros Hfin Hne.
    assert (H0 : is_Some (threads cfg !! 0%nat)).
    { apply lookup_lt_is_Some. rewrite Hlen. destruct callers; [done | cbn; lia]. }
    destruct H0 as [p Hp].
    unfold final in Hfin. rewrite forallb_forall in Hfin.
    assert (Hr : is_returned p = true)
      by (apply Hfin, list_elem_of_In, list_elem_of_lookup; eauto).
    destruct p; try discriminate. by destruct (Hv 0%nat via r Hp).
Qed.

Lemma single_execution_witness :
  exists cfg,
    run two_counting "k" Hour overlapping (init two_counting Memory_New bounded_clock 0%nat)
      = Some cfg /\
    final cfg = true /\
    sh_execs (shared cfg) = 1%nat /\
    threads cfg = [Returned (Some 0%nat) (AInt 7, None);
                   Returned (Some 0%nat) (AInt 7, None)].
Proof.
  destruct (run two_counting "k" Hour overlapping
              (init two_counting Memory_New bounded_clock 0%nat))
    as [cfg |] eqn:Hrun; [| by vm_compute in Hrun].
  assert (Hmem : entries Memory_New !! "k" = None) by reflexivity.
  assert (Hsucc : Forall succeeds two_counting)
    by (repeat constructor; intros; reflexivity).
  assert (Hwin : no_expiry bounded_clock Hour).
  { intros i j. unfold in_int64, MinInt64, MaxInt64, bounded_clock, Hour, Minute,
      Second, Millisecond, Microsecond, Nanosecond. cbn [readings]. lia. }
  destruct (single_execution two_counting "k" Hour Memory_New bounded_clock 0%nat
              overlapping cfg Hrun)
    as (_ & _ & Hone).
  destruct (Hone Hmem Hsucc Hwin) as (_ & v & Hres & _).
  exists cfg. split; [reflexivity |].
  vm_compute in Hrun. injection Hrun as <-.
  split; [reflexivity |]. split; [| reflexivity].
  exact (proj2 (Hres 0%nat (Some 0%nat) (AInt 7, None) eq_refl)).
Defined.

(** C1, counterexample.  The computation can run more than once when it
    returns an error: errors are
    not cached, so a call that missed the backend while another was in
    flight, and enters [Do] after that one has left, starts a single-flight
    call of its own and runs the computation again.  Here both calls of
    [Get] have started before either returns; the computation runs twice,
    under the single-flight calls 0 and 1, and the two return different
    errors. *)
Lemma failing_computation_runs_twice :
  (exists started,
      run two_failing "k" Hour [(0, false); (1, false)]%nat
        (init two_failing Memory_New bounded_clock 0%nat) = Some started /\
      threads started = [AtDo; AtDo]) /\
  exists cfg,
    run two_failing "k" Hour one_after_the_other
      (init two_failing Memory_New bounded_clock 0%nat) = Some cfg /\
    final cfg = true /\
    sh_execs (shared cfg) = 2%nat /\
    threads cfg = [Returned (Some 0%nat) (nil, Some "attempt 0");
                   Returned (Some 1%nat) (nil, Some "attempt 1")].
Proof.
  split.
  - eexists. split; [vm_compute; reflexivity | reflexivity].
  - eexists. split; [vm_compute; reflexivity |]. repeat split.
Qed.

(** * Further properties *)

(** ** Cache entries *)

Lemma expiry_after v ttl ver clk :
  0 < ttl -> in_int64 (next_reading clk + ttl) ->
  expiry (fst (NewEntry v ttl ver clk)) = next_reading clk + ttl.
Proof.
  intros Httl Hin. rewrite NewEntry_ttl by done. cbn [fst expiry].
  unfold Add_UnixNano. by apply wrap64_small.
Qed.

Lemma IsExpired_after e clk :
  expiry e <> 0 ->
  fst (IsExpired e clk) = bool_decide (expiry e < next_reading clk).
Proof.
  intros He. rewrite IsExpired_value.
  destruct (Z.eqb_spec (expiry e) 0); [done |]. cbn [negb andb].
  destruct (Z.ltb_spec (expiry e) (next_reading clk));
    [by rewrite bool_decide_eq_true_2 | rewrite bool_decide_eq_false_2; [done | lia]].
Qed.

Lemma TTLRemaining_value e clk :
  expiry e <> 0 -> in_int64 (expiry e - next_reading clk) ->
  fst (TTLRemaining e clk) = Z.max 0 (expiry e - next_reading clk).
Proof.
  intros He Hin. unfold TTLRemaining, bind, ret, time_Now.
  destruct (Z.eqb_spec (expiry e) 0); [done |].
  fold (next_reading clk). rewrite wrap64_small by done.
  destruct (Z.leb_spec (expiry e - next_reading clk) 0); cbn [fst]; lia.
Qed.

(** X1.  An entry made with [ttl > 0] at time [t] (with [t + ttl] an
    [int64], and not the sentinel 0) keeps its value and version, and at a
    time [t'] its remaining TTL is [max 0 (t + ttl - t')] and it is
    expired exactly when [t' > t + ttl].  At the expiry instant itself the
    remaining TTL is 0 and the entry is not yet expired. *)
Theorem NewEntry_TTLRemaining (v : any) (ttl ver : Z) (clk clk' : Clock) :
  0 < ttl ->
  in_int64 (next_reading clk + ttl) ->
  next_reading clk + ttl <> 0 ->
  in_int64 (next_reading clk + ttl - next_reading clk') ->
  let e := fst (NewEntry v ttl ver clk) in
  let deadline := next_reading clk + ttl in
  (Value e = v /\ Version e = ver) /\
  fst (TTLRemaining e clk') = Z.max 0 (deadline - next_reading clk') /\
  fst (IsExpired e clk') = bool_decide (deadline < next_reading clk') /\
  (next_reading clk' = deadline ->
   fst (TTLRemaining e clk') = 0 /\ fst (IsExpired e clk') = false).
Proof.
  intros Httl Hin Hnz Hdiff e deadline.
  assert (He : expiry e = deadline) by (by apply expiry_after).
  assert (Hrem : fst (TTLRemaining e clk') = Z.max 0 (deadline - next_reading clk'))
    by (rewrite TTLRemaining_value; rewrite He; done).
  assert (Hexp : fst (IsExpired e clk') = bool_decide (deadline < next_reading clk'))
    by (rewrite IsExpired_after; rewrite He; done).
  split; [| split; [exact Hrem | split; [exact Hexp |]]].
  - subst e. by rewrite NewEntry_ttl.
  - intros Hat. rewrite Hrem, Hexp, Hat. split; [lia |].
    apply bool_decide_eq_false_2. lia.
Qed.

Lemma NewEntry_TTLRemaining_witness :
  let clk := mkClock (fun n => (10 + Z.of_nat n) * Second) 0 in
  let clk' := mkClock (fun n => (10 + Z.of_nat n) * Second) 2 in
  let e := fst (NewEntry (AInt 7) (5 * Second) 1 clk) in
  fst (TTLRemaining e clk') = 3 * Second /\ fst (IsExpired e clk') = false.
Proof.
  intros clk clk' e.
  assert (Hin : in_int64 (next_reading clk + 5 * Second)) by (vm_compute; split; discriminate).
  assert (Hd : in_int64 (next_reading clk + 5 * Second - next_reading clk'))
    by (vm_compute; split; discriminate).
  destruct (NewEntry_TTLRemaining (AInt 7) (5 * Second) 1 clk clk'
              ltac:(reflexivity) Hin ltac:(vm_compute; discriminate) Hd)
    as (_ & Hrem & Hexp & _).
  split; [exact Hrem | exact Hexp].
Defined.

(** X2.  [BumpVersion], called [n] times on an entry, leaves the value and
    the expiry alone and adds [n] to the version modulo [2^64]; each call
    returns the version it stored.  Below the largest [uint64] the version
    returned is one more than the one before; from the largest it wraps
    to 0. *)
Theorem BumpVersion_counts (e : CacheEntry) (n : nat) :
  0 <= version e < 2 ^ 64 ->
  let e' := Nat.iter n (fun e0 => snd (BumpVersion e0)) e in
  (Value e' = Value e /\ expiry e' = expiry e) /\
  Version e' = wrapU64 (version e + Z.of_nat n) /\
  fst (BumpVersion e') = Version (snd (BumpVersion e')) /\
  fst (BumpVersion e') = (if Version e' =? 2 ^ 64 - 1 then 0 else Version e' + 1).
Proof.
  intros Hv e'. subst e'.
  assert (Hiter : let e' := Nat.iter n (fun e0 => snd (BumpVersion e0)) e in
                  Value e' = Value e /\ expiry e' = expiry e /\
                  version e' = wrapU64 (version e + Z.of_nat n)).
  { induction n as [| n IH].
    - cbn. repeat split. rewrite Z.add_0_r. symmetry. by apply wrapU64_small.
    - cbv zeta in *. rewrite Nat.iter_succ. destruct IH as (IHv & IHe & IHn).
      set (x := Nat.iter n _ e) in *.
      cbn [BumpVersion snd Value expiry version]. repeat split; try done.
      rewrite IHn. unfold wrapU64.
      rewrite Zplus_mod_idemp_l. f_equal. lia. }
  cbv zeta in Hiter. destruct Hiter as (Hval & Hexp & Hver).
  set (x := Nat.iter n _ e) in *.
  unfold Version. cbn [BumpVersion fst snd version].
  split; [done |]. split; [done |]. split; [done |].
  assert (Hr : 0 <= version x < 2 ^ 64)
    by (rewrite Hver; apply Z.mod_pos_bound; lia).
  destruct (Z.eqb_spec (version x) (2 ^ 64 - 1)) as [Hmax | Hmax].
  - rewrite Hmax. reflexivity.
  - apply wrapU64_small. lia.
Qed.

Lemma BumpVersion_counts_witness :
  let e := mkCacheEntry (AString "v") 0 (2 ^ 64 - 2) in
  let e1 := snd (BumpVersion e) in
  Version e1 = 2 ^ 64 - 1 /\ fst (BumpVersion e1) = 0.
Proof.
  intros e e1.
  destruct (BumpVersion_counts e 1 ltac:(vm_compute; split; [discriminate | reflexivity]))
    as (_ & Hver & _ & Hnext).
  split; [exact Hver | exact Hnext].
Defined.

(** X3.  [SetExpiry] with [ttl > 0] at time [t], where [t + ttl] is an
    [int64] other than the sentinel 0, restarts the lifetime of an entry,
    an expired one included: value and version are kept, and the entry is
    then expired exactly at the times after [t + ttl]. *)
Theorem SetExpiry_restarts (e : CacheEntry) (ttl : Z) (clk clk' : Clock) :
  0 < ttl ->
  in_int64 (next_reading clk + ttl) ->
  next_reading clk + ttl <> 0 ->
  let e' := fst (SetExpiry ttl e clk) in
  Value e' = Value e /\ Version e' = Version e /\
  expiry e' = next_reading clk + ttl /\
  fst (IsExpired e' clk') = bool_decide (next_reading clk + ttl < next_reading clk').
Proof.
  intros Httl Hin Hnz e'.
  assert (He : e' = mkCacheEntry (Value e) (next_reading clk + ttl) (version e)).
  { subst e'. unfold SetExpiry, bind, ret, time_Now.
    destruct (Z.ltb_spec 0 ttl); [| lia]. cbn [fst].
    unfold Add_UnixNano. fold (next_reading clk). by rewrite wrap64_small. }
  rewrite He. cbn [Value expiry]. unfold Version. cbn [version].
  repeat split. by rewrite IsExpired_after.
Qed.

Lemma SetExpiry_restarts_witness :
  let clk := mkClock (fun n => (10 + Z.of_nat n) * Second) 0 in
  let e := mkCacheEntry (AInt 1) Second 4 in
  fst (IsExpired e clk) = true /\
  fst (IsExpired (fst (SetExpiry Minute e clk)) clk) = false.
Proof.
  intros clk e. split; [reflexivity |].
  destruct (SetExpiry_restarts e Minute clk clk ltac:(reflexivity)
              ltac:(vm_compute; split; discriminate) ltac:(vm_compute; discriminate))
    as (_ & _ & _ & Hexp).
  exact Hexp.
Defined.

(** ** The in-memory backend *)

Lemma Memory_Set_spec key v ttl m clk :
  Memory_Set key v ttl m clk =
    (mkMemory (<[key := fst (NewEntry v ttl 1 clk)]> (entries m)),
     snd (NewEntry v ttl 1 clk)).
Proof.
  unfold Memory_Set. cbn [BumpVersion zeroCacheEntry version].
  unfold bind, ret. change (wrapU64 (0 + 1)) with 1.
  by destruct (NewEntry v ttl 1 clk).
Qed.

(** What a lookup returns depends on the entry under the key only. *)
Lemma Memory_Get_result key m m' clk :
  entries m' !! key = entries m !! key ->
  fst (fst (Memory_Get key m' clk)) = fst (fst (Memory_Get key m clk)).
Proof.
  intros Heq. rewrite !Memory_Get_spec, Heq.
  destruct (entries m !! key) as [e |]; [| done].
  by destruct (fst (IsExpired e clk)).
Qed.

(** X4.  After [Set(key, v, ttl)] at time [t], whatever the map held, a
    [Get(key)] at time [t'] returns [(v, true)] and leaves the map as it
    is, when the entry has no lifetime ([ttl <= 0]), or [t + ttl] is an
    [int64] and [t'] is not past it (the instant [t + ttl] included). *)
Theorem Memory_Set_then_Get (key : string) (v : any) (ttl : Z) (m : Memory)
    (clk clk' : Clock) :
  ttl <= 0 \/
  (in_int64 (next_reading clk + ttl) /\ next_reading clk' <= next_reading clk + ttl) ->
  let m1 := fst (Memory_Set key v ttl m clk) in
  fst (Memory_Get key m1 clk') = (v, true, m1).
Proof.
  intros Hlive m1. subst m1. rewrite Memory_Set_spec. cbn [fst].
  set (e := fst (NewEntry v ttl 1 clk)).
  assert (Hv : Value e = v).
  { subst e. unfold NewEntry, bind, ret. by destruct (0 <? ttl). }
  assert (Hexp : fst (IsExpired e clk') = false).
  { destruct (Z.eqb_spec (expiry e) 0) as [H0 | H0];
      [by rewrite IsExpired_sentinel |].
    destruct Hlive as [Hno | [Hin Hle]].
    - subst e. by rewrite NewEntry_no_ttl in H0.
    - destruct (Z.ltb_spec 0 ttl) as [Hpos | Hpos].
      + rewrite IsExpired_after by done. subst e.
        rewrite expiry_after by done. apply bool_decide_eq_false_2. lia.
      + subst e. by rewrite NewEntry_no_ttl in H0. }
  rewrite (Memory_Get_live key _ clk' e); [by rewrite Hv | apply lookup_insert_eq | done].
Qed.

Lemma Memory_Set_then_Get_witness :
  let clk := mkClock (fun n => Z.of_nat n * Second) 3 in
  let clk' := mkClock (fun n => Z.of_nat n * Second) 63 in
  let m1 := fst (Memory_Set "k" (AInt 7) Minute Memory_New clk) in
  fst (Memory_Get "k" m1 clk') = (AInt 7, true, m1).
Proof.
  intros clk clk' m1.
  apply (Memory_Set_then_Get "k" (AInt 7) Minute Memory_New clk clk').
  right. split; [vm_compute; split; discriminate | vm_compute; discriminate].
Defined.

(** X5.  After [Set(key, v, ttl)] with [ttl > 0] at a time [t >= 0], a
    [Get(key)] at a time past [t + ttl] returns [(nil, false)] and deletes
    the entry: the map is the one before the [Set] without the key, and
    later lookups of the key miss, at any time, without changing it. *)
Theorem Memory_Get_after_ttl (key : string) (v : any) (ttl : Z) (m : Memory)
    (clk clk' clk'' : Clock) :
  0 < ttl ->
  0 <= next_reading clk ->
  in_int64 (next_reading clk + ttl) ->
  next_reading clk + ttl < next_reading clk' ->
  let m1 := fst (Memory_Set key v ttl m clk) in
  let m2 := Memory_Delete key m in
  fst (Memory_Get key m1 clk') = (nil, false, m2) /\
  Memory_Get key m2 clk'' = (nil, false, m2, clk'').
Proof.
  intros Httl Hnow Hin Hpast m1 m2. subst m1 m2. rewrite Memory_Set_spec. cbn [fst].
  set (e := fst (NewEntry v ttl 1 clk)).
  assert (He : expiry e = next_reading clk + ttl) by (by apply expiry_after).
  assert (Hexp : fst (IsExpired e clk') = true).
  { rewrite IsExpired_after by lia. rewrite He. by apply bool_decide_eq_true_2. }
  split.
  - rewrite Memory_Get_spec. cbn [entries]. rewrite lookup_insert_eq, Hexp. cbn [fst].
    unfold Memory_Delete. by rewrite delete_insert_eq.
  - apply Memory_Get_absent. unfold Memory_Delete. cbn [entries]. apply lookup_delete_eq.
Qed.

Lemma Memory_Get_after_ttl_witness :
  let clk := mkClock (fun n => Z.of_nat n * Second) 3 in
  let clk' := mkClock (fun n => Z.of_nat n * Second) 64 in
  let m1 := fst (Memory_Set "k" (AInt 7) Minute Memory_New clk) in
  fst (Memory_Get "k" m1 clk') = (nil, false, Memory_Delete "k" Memory_New).
Proof.
  intros clk clk' m1.
  refine (proj1 (Memory_Get_after_ttl "k" (AInt 7) Minute Memory_New clk clk' clk
                   _ _ _ _)).
  - reflexivity.
  - vm_compute. discriminate.
  - vm_compute. split; discriminate.
  - reflexivity.
Defined.

(** X6.  [Set], [Get] and [Delete] on a key leave every other key as it
    was: the entry under another key is the same, and a lookup of the
    other key returns what it would have returned. *)
Theorem Memory_keys_independent (key key' : string) (v : any) (ttl : Z)
    (m : Memory) (clk clk' : Clock) :
  key <> key' ->
  let look := fun m' => fst (fst (Memory_Get key' m' clk')) in
  let after_Set := fst (Memory_Set key v ttl m clk) in
  let after_Get := snd (fst (Memory_Get key m clk)) in
  let after_Delete := Memory_Delete key m in
  (entries after_Set !! key' = entries m !! key' /\ look after_Set = look m) /\
  (entries after_Get !! key' = entries m !! key' /\ look after_Get = look m) /\
  (entries after_Delete !! key' = entries m !! key' /\ look after_Delete = look m).
Proof.
  intros Hne look after_Set after_Get after_Delete.
  assert (HS : entries after_Set !! key' = entries m !! key').
  { subst after_Set. rewrite Memory_Set_spec. cbn [fst entries].
    by rewrite lookup_insert_ne. }
  assert (HG : entries after_Get !! key' = entries m !! key').
  { subst after_Get. rewrite Memory_Get_spec.
    destruct (entries m !! key) as [e |]; [| done].
    destruct (fst (IsExpired e clk)); cbn [fst snd entries]; [| done].
    by rewrite lookup_delete_ne. }
  assert (HD : entries after_Delete !! key' = entries m !! key').
  { subst after_Delete. unfold Memory_Delete. cbn [entries].
    by rewrite lookup_delete_ne. }
  subst look. cbv beta.
  split_and!; try done; by apply Memory_Get_result.
Qed.

Lemma Memory_keys_independent_witness :
  let clk := mkClock (fun n => Z.of_nat n * Second) 0 in
  let m := fst (Memory_Set "a" (AInt 1) 0 Memory_New clk) in
  fst (fst (Memory_Get "a" (Memory_Delete "b" m) clk)) = (AInt 1, true).
Proof.
  intros clk m.
  destruct (Memory_keys_independent "b" "a" nil 0 m clk clk ltac:(discriminate))
    as (_ & _ & _ & Hlook).
  cbv beta in Hlook. rewrite Hlook. reflexivity.
Defined.

(** X7.  After [Delete(key)] a lookup of the key misses, and after
    [Clear()] a lookup of any key misses; neither lookup reads the clock
    or changes the map.  Deleting a key that is not there changes
    nothing, so [Delete] twice is [Delete] once. *)
Theorem Memory_Get_after_removal (key key' : string) (m : Memory) (clk : Clock) :
  Memory_Get key (Memory_Delete key m) clk = (nil, false, Memory_Delete key m, clk) /\
  Memory_Get key' (Memory_Clear m) clk = (nil, false, Memory_Clear m, clk) /\
  (entries m !! key = None -> Memory_Delete key m = m) /\
  Memory_Delete key (Memory_Delete key m) = Memory_Delete key m.
Proof.
  split_and!.
  - apply Memory_Get_absent. cbn. apply lookup_delete_eq.
  - apply Memory_Get_absent. cbn. apply lookup_empty.
  - intros Hk. unfold Memory_Delete. rewrite delete_id by done. by destruct m.
  - unfold Memory_Delete. cbn [entries]. f_equal. apply delete_id, lookup_delete_eq.
Qed.

(** ** The sweep of expired entries *)

Lemma Memory_sweep_clock keys :
  forall m clk,
    readings (snd (Memory_sweep keys m clk)) = readings clk /\
    (pos clk <= pos (snd (Memory_sweep keys m clk)))%nat.
Proof.
  induction keys as [| key rest IH]; intros m clk; cbn [Memory_sweep].
  - unfold ret. cbn. split; [done | lia].
  - destruct (entries m !! key) as [e |]; [| apply IH].
    unfold bind. destruct (IsExpired e clk) as [expired clk1] eqn:Hexp.
    assert (Hclk : readings clk1 = readings clk /\ (pos clk <= pos clk1)%nat).
    { unfold IsExpired, bind, ret, time_Now in Hexp.
      destruct (expiry e =? 0); injection Hexp as <- <-; cbn; split; (done || lia). }
    destruct (IH (if expired then mkMemory (delete key (entries m)) else m) clk1)
      as [Hr Hp].
    rewrite Hr. split; [apply Hclk | lia].
Qed.

Lemma Memory_sweep_sub keys :
  forall m clk k e,
    entries (fst (Memory_sweep keys m clk)) !! k = Some e ->
    entries m !! k = Some e.
Proof.
  induction keys as [| key rest IH]; intros m clk k e; cbn [Memory_sweep].
  - done.
  - destruct (entries m !! key) as [e0 |] eqn:Hkey; [| apply IH].
    unfold bind. destruct (IsExpired e0 clk) as [[] clk1]; intros Hk.
    + apply IH in Hk. cbn [entries] in Hk.
      apply lookup_delete_Some in Hk. tauto.
    + by apply IH in Hk.
Qed.

Lemma Memory_sweep_kept keys :
  forall m clk k e,
    entries m !! k = Some e ->
    k ∉ keys \/ expiry e = 0 \/
      (forall i, (pos clk <= i)%nat -> readings clk i <= expiry e) ->
    entries (fst (Memory_sweep keys m clk)) !! k = Some e.
Proof.
  induction keys as [| key rest IH]; intros m clk k e Hk Hkeep; cbn [Memory_sweep].
  - done.
  - destruct (entries m !! key) as [e0 |] eqn:Hkey.
    + unfold bind. destruct (IsExpired e0 clk) as [expired clk1] eqn:Hexp.
      assert (Hclk : readings clk1 = readings clk /\ (pos clk <= pos clk1)%nat).
      { unfold IsExpired, bind, ret, time_Now in Hexp.
        destruct (expiry e0 =? 0); injection Hexp as <- <-; cbn; split; (done || lia). }
      destruct Hclk as [Hr Hp].
      assert (Hkeep' : k ∉ rest \/ expiry e = 0 \/
                (forall i, (pos clk1 <= i)%nat -> readings clk1 i <= expiry e)).
      { destruct Hkeep as [Hn | [H0 | Hlive]].
        - left. intros Hin. apply Hn. by right.
        - right. by left.
        - right. right. intros i Hi. rewrite Hr. apply Hlive. lia. }
      destruct expired; [| by apply IH].
      apply IH; [| done]. cbn [entries].
      destruct (decide (key = k)) as [-> | Hne]; [| by rewrite lookup_delete_ne].
      exfalso. rewrite Hkey in Hk. injection Hk as ->.
      assert (Hfst : fst (IsExpired e clk) = true) by (by rewrite Hexp).
      rewrite IsExpired_value in Hfst. apply andb_true_iff in Hfst as [Hnz Hlt].
      apply Z.ltb_lt in Hlt. apply negb_true_iff, Z.eqb_neq in Hnz.
      destruct Hkeep as [Hn | [H0 | Hlive]].
      * apply Hn. by left.
      * done.
      * specialize (Hlive (pos clk) ltac:(lia)). unfold next_reading in Hlt. lia.
    + apply IH; [done |].
      destruct Hkeep as [Hn | [H0 | Hlive]]; [left | by right; left | by right; right].
      intros Hin. apply Hn. by right.
Qed.

Lemma Memory_sweep_removed keys :
  forall m clk k e,
    entries m !! k = Some e ->
    k ∈ keys -> expiry e <> 0 ->
    (forall i, (pos clk <= i)%nat -> expiry e < readings clk i) ->
    entries (fst (Memory_sweep keys m clk)) !! k = None.
Proof.
  induction keys as [| key rest IH]; intros m clk k e Hk Hin Hnz Hdead;
    cbn [Memory_sweep].
  - by apply elem_of_nil in Hin.
  - assert (Hgone : forall m' clk', entries m' !! k = None ->
                      entries (fst (Memory_sweep rest m' clk')) !! k = None).
    { intros m' clk' Hnone.
      destruct (entries (fst (Memory_sweep rest m' clk')) !! k) as [e' |] eqn:Hl;
        [| done].
      apply Memory_sweep_sub in Hl. congruence. }
    destruct (entries m !! key) as [e0 |] eqn:Hkey.
    + unfold bind. destruct (IsExpired e0 clk) as [expired clk1] eqn:Hexp.
      assert (Hclk : readings clk1 = readings clk /\ (pos clk <= pos clk1)%nat).
      { unfold IsExpired, bind, ret, time_Now in Hexp.
        destruct (expiry e0 =? 0); injection Hexp as <- <-; cbn; split; (done || lia). }
      destruct Hclk as [Hr Hp].
      destruct (decide (key = k)) as [-> | Hne].
      * rewrite Hkey in Hk. injection Hk as ->.
        assert (Hfst : fst (IsExpired e clk) = true).
        { rewrite IsExpired_value. apply andb_true_iff. split.
          - by apply negb_true_iff, Z.eqb_neq.
          - apply Z.ltb_lt. unfold next_reading. apply Hdead. lia. }
        rewrite Hexp in Hfst. cbn [fst] in Hfst. subst expired.
        apply Hgone. cbn [entries]. apply lookup_delete_eq.
      * apply elem_of_cons in Hin as [-> | Hin]; [done |].
        destruct expired.
        -- apply (IH _ _ _ e); try done.
           ++ cbn [entries]. by rewrite lookup_delete_ne.
           ++ intros i Hi. rewrite Hr. apply Hdead. lia.
        -- apply (IH _ _ _ e); try done.
           intros i Hi. rewrite Hr. apply Hdead. lia.
    + apply elem_of_cons in Hin as [-> | Hin]; [congruence |].
      by apply (IH _ _ _ e).
Qed.

(** X8.  A pass of the cleanup loop over the keys [keys], started when
    the clock has been read [pos clk] times, only deletes: every entry
    left was there before.  It keeps every entry that is not visited, has
    no expiry, or whose expiry no later reading exceeds; it deletes every
    visited entry whose expiry is set and below all the later
    readings. *)
Theorem Memory_sweep_spec (keys : list string) (m : Memory) (clk : Clock) :
  let m' := fst (Memory_sweep keys m clk) in
  (forall k e, entries m' !! k = Some e -> entries m !! k = Some e) /\
  (forall k e,
      entries m !! k = Some e ->
      k ∉ keys \/ expiry e = 0 \/
        (forall i, (pos clk <= i)%nat -> readings clk i <= expiry e) ->
      entries m' !! k = Some e) /\
  (forall k e,
      entries m !! k = Some e ->
      k ∈ keys -> expiry e <> 0 ->
      (forall i, (pos clk <= i)%nat -> expiry e < readings clk i) ->
      entries m' !! k = None).
Proof.
  intros m'. split_and!.
  - apply Memory_sweep_sub.
  - apply Memory_sweep_kept.
  - apply Memory_sweep_removed.
Qed.

(** X9.  A TTL so large that [now + ttl] leaves [int64] gives an entry
    that is never served: the sum wraps to a negative expiry, so after
    [Set(key, v, ttl)] a [Get(key)] at any time [t' >= 0] finds the entry
    expired, returns [(nil, false)] and deletes it. *)
Theorem Memory_Set_ttl_overflow (key : string) (v : any) (ttl : Z) (m : Memory)
    (clk clk' : Clock) :
  0 <= next_reading clk <= MaxInt64 ->
  0 < ttl <= MaxInt64 ->
  MaxInt64 < next_reading clk + ttl ->
  0 <= next_reading clk' ->
  let m1 := fst (Memory_Set key v ttl m clk) in
  fst (Memory_Get key m1 clk') = (nil, false, Memory_Delete key m).
Proof.
  intros Hnow Httl Hover Hpos m1. subst m1. rewrite Memory_Set_spec. cbn [fst].
  set (e := fst (NewEntry v ttl 1 clk)).
  assert (He : expiry e = next_reading clk + ttl - 2 ^ 64).
  { subst e. rewrite NewEntry_ttl by lia. cbn [fst expiry].
    unfold Add_UnixNano, wrap64. unfold MaxInt64 in *.
    replace (next_reading clk + ttl + 2 ^ 63)
      with (next_reading clk + ttl - 2 ^ 63 + 1 * 2 ^ 64) by lia.
    rewrite Z_mod_plus_full, Z.mod_small by lia. lia. }
  assert (Hneg : expiry e < 0) by (unfold MaxInt64 in *; lia).
  assert (Hexp : fst (IsExpired e clk') = true).
  { rewrite IsExpired_after by lia. apply bool_decide_eq_true_2. lia. }
  rewrite Memory_Get_spec. cbn [entries]. rewrite lookup_insert_eq, Hexp. cbn [fst].
  unfold Memory_Delete. by rewrite delete_insert_eq.
Qed.

Lemma Memory_Set_ttl_overflow_witness :
  let clk := mkClock (fun n => Z.of_nat n * Second) 3 in
  fst (Memory_Get "k" (fst (Memory_Set "k" (AInt 7) MaxInt64 Memory_New clk)) clk)
  = (nil, false, Memory_Delete "k" Memory_New).
Proof.
  intros clk.
  apply (Memory_Set_ttl_overflow "k" (AInt 7) MaxInt64 Memory_New clk clk).
  - vm_compute. split; discriminate.
  - vm_compute. split; [reflexivity | discriminate].
  - reflexivity.
  - vm_compute. discriminate.
Defined.

(** ** The registry, as a whole *)

Lemma RegisterBackend_returns name factory registry registry' :
  RegisterBackend name factory registry = Returns registry' <->
  factory <> None /\ registry !! name = None /\ registry' = <[name := factory]> registry.
Proof.
  unfold RegisterBackend. destruct factory as [f |].
  - destruct (registry !! name) eqn:Hname.
    + split; [discriminate | intros (_ & ? & _); discriminate].
    + split; [intros [= <-]; done | intros (_ & _ & ->); done].
  - split; [discriminate | intros (? & _); done].
Qed.

Lemma RegisterAll_inv regs :
  forall registry registry',
    RegisterAll regs registry = Returns registry' ->
    NoDup regs.*1 /\ Forall (fun r => r.2 <> None) regs /\
    (forall name, name ∈ regs.*1 -> registry !! name = None) /\
    (forall name f, registry' !! name = Some f <->
                    (name, f) ∈ regs \/ registry !! name = Some f).
Proof.
  induction regs as [| [n0 f0] regs IH]; intros registry registry' Hall.
  - injection Hall as <-. split_and!.
    + constructor.
    + constructor.
    + intros name Hin. by apply elem_of_nil in Hin.
    + intros name f. split; [by right | intros [Hin | H]; [by apply elem_of_nil in Hin | done]].
  - cbn [RegisterAll] in Hall.
    destruct (RegisterBackend n0 f0 registry) as [r1 | msg] eqn:Hreg; [| discriminate].
    apply RegisterBackend_returns in Hreg as (Hf0 & Hfree & ->).
    destruct (IH _ _ Hall) as (Hnd & Hnn & Hfresh & Hlook).
    assert (Hn0 : n0 ∉ regs.*1).
    { intros Hin. specialize (Hfresh n0 Hin). by rewrite lookup_insert_eq in Hfresh. }
    split_and!.
    + cbn [fmap list_fmap fst]. by constructor.
    + by constructor.
    + intros name Hin. cbn [fmap list_fmap fst] in Hin.
      apply elem_of_cons in Hin as [-> | Hin]; [done |].
      specialize (Hfresh name Hin).
      destruct (decide (n0 = name)) as [<- | Hne]; [done |].
      by rewrite lookup_insert_ne in Hfresh.
    + intros name f. rewrite Hlook, elem_of_cons.
      destruct (decide (n0 = name)) as [<- | Hne].
      * rewrite lookup_insert_eq, Hfree. split.
        -- intros [Hin | [= <-]]; [by left; right | by left; left].
        -- intros [[[= <-] | Hin] | ?]; [by right | by left | done].
      * rewrite lookup_insert_ne by done. split.
        -- intros [Hin | H]; [by left; right | by right].
        -- intros [[[= ? ?] | Hin] | H]; [done | by left | by right].
Qed.

Lemma RegisterAll_returns regs :
  forall registry,
    NoDup regs.*1 -> Forall (fun r => r.2 <> None) regs ->
    (forall name, name ∈ regs.*1 -> registry !! name = None) ->
    exists registry', RegisterAll regs registry = Returns registry'.
Proof.
  induction regs as [| [n0 f0] regs IH]; intros registry Hnd Hnn Hfresh.
  - by eexists.
  - cbn [fmap list_fmap fst] in Hnd, Hfresh.
    apply NoDup_cons in Hnd as [Hn0 Hnd]. apply Forall_cons in Hnn as [Hf0 Hnn].
    cbn [RegisterAll].
    assert (Hreg : RegisterBackend n0 f0 registry = Returns (<[n0 := f0]> registry)).
    { apply RegisterBackend_returns. split_and!; [done | | done].
      apply Hfresh. by left. }
    rewrite Hreg. apply IH; [done | done |].
    intros name Hin. rewrite lookup_insert_ne by (intros <-; done).
    apply Hfresh. by right.
Qed.

(** X10.  A run of registrations on the empty registry returns (none of
    them panics) exactly when the names are pairwise distinct and no
    factory is nil; the registry it leaves maps each name registered to
    its factory, and nothing else. *)
Theorem RegisterAll_returns_iff (regs : list (string * BackendFactory)) :
  ((exists registry, RegisterAll regs ∅ = Returns registry) <->
   NoDup regs.*1 /\ Forall (fun r => r.2 <> None) regs) /\
  (forall registry,
      RegisterAll regs ∅ = Returns registry ->
      forall name f, registry !! name = Some f <-> (name, f) ∈ regs).
Proof.
  split; [split |].
  - intros [registry Hall]. apply RegisterAll_inv in Hall. tauto.
  - intros [Hnd Hnn]. apply RegisterAll_returns; [done | done |].
    intros name _. apply lookup_empty.
  - intros registry Hall name f.
    apply RegisterAll_inv in Hall as (_ & _ & _ & Hlook).
    rewrite Hlook, lookup_empty. split; [intros [? | ?]; done | by left].
Qed.

(** X11.  On a registry built by registrations, [ListBackends] returns
    the names registered, each once, in some order; a name is listed
    exactly when [BackendExists] is true for it, which is exactly when
    [NewBackend] returns a backend with a nil error. *)
Theorem ListBackends_spec (regs : list (string * BackendFactory))
    (registry : gmap string BackendFactory) (name : string) :
  RegisterAll regs ∅ = Returns registry ->
  ListBackends registry ≡ₚ regs.*1 /\
  NoDup (ListBackends registry) /\
  (name ∈ ListBackends registry <-> BackendExists name registry = true) /\
  (BackendExists name registry = true <->
   exists b, NewBackend name registry = Returns (Some b, None)).
Proof.
  intros Hall.
  assert (Hinv : no_nil_factory registry)
    by (eapply RegisterAll_no_nil; [apply no_nil_factory_empty | exact Hall]).
  destruct (RegisterAll_inv _ _ _ Hall) as (Hnd & _ & _ & Hlook).
  assert (Hlist : forall n, n ∈ ListBackends registry <-> is_Some (registry !! n)).
  { intros n. unfold ListBackends. rewrite list_elem_of_fmap. split.
    - intros ([n' f] & -> & Hin). apply elem_of_map_to_list in Hin. by eexists.
    - intros [f Hf]. exists (n, f). split; [done |]. by apply elem_of_map_to_list. }
  assert (Hnd' : NoDup (ListBackends registry)) by apply NoDup_fst_map_to_list.
  split_and!.
  - apply NoDup_Permutation; [done | done |].
    intros n. rewrite Hlist, list_elem_of_fmap. split.
    + intros [f Hf]. apply Hlook in Hf as [Hin | Hf]; [| by rewrite lookup_empty in Hf].
      by exists (n, f).
    + intros ([n' f] & -> & Hin). exists f. apply Hlook. by left.
  - done.
  - rewrite Hlist. unfold BackendExists.
    destruct (registry !! name); split; intros H;
      first [done | by eexists | by destruct H].
  - unfold BackendExists, NewBackend.
    destruct (registry !! name) as [[f |] |] eqn:Hname.
    + split; [by eexists | done].
    + by destruct (Hinv name).
    + split; [done | by intros [? ?]].
Qed.

Lemma ListBackends_spec_witness :
  let factory : BackendFactory := Some (fun _ => Memory_Backend Memory_New) in
  let registry : gmap string BackendFactory := <["memory" := factory]> ∅ in
  ListBackends registry ≡ₚ ["memory"] /\
  ("redis" ∈ ListBackends registry <-> BackendExists "redis" registry = true).
Proof.
  intros factory registry.
  assert (Hall : RegisterAll [("memory", factory)] ∅ = Returns registry) by reflexivity.
  split.
  - exact (proj1 (ListBackends_spec _ registry "memory" Hall)).
  - exact (proj1 (proj2 (proj2 (ListBackends_spec _ registry "redis" Hall)))).
Defined.

(** X12.  A registration is for good: whatever is registered afterwards,
    if those registrations return, none of them used the name, the name
    still maps to the same factory, and [NewBackend] answers for it as
    before. *)
Theorem registration_is_permanent (regs : list (string * BackendFactory))
    (registry registry' : gmap string BackendFactory) (name : string)
    (f : BackendFactory) :
  registry !! name = Some f ->
  RegisterAll regs registry = Returns registry' ->
  (name ∉ regs.*1) /\
  registry' !! name = Some f /\
  NewBackend name registry' = NewBackend name registry.
Proof.
  intros Hname Hall.
  destruct (RegisterAll_inv _ _ _ Hall) as (_ & _ & Hfresh & Hlook).
  assert (Hname' : registry' !! name = Some f) by (apply Hlook; by right).
  split_and!.
  - intros Hin. specialize (Hfresh name Hin). congruence.
  - done.
  - unfold NewBackend. by rewrite Hname, Hname'.
Qed.

Lemma registration_is_permanent_witness :
  let factory : BackendFactory := Some (fun _ => Memory_Backend Memory_New) in
  let registry : gmap string BackendFactory := <["memory" := factory]> ∅ in
  let registry' : gmap string BackendFactory := <["other" := factory]> registry in
  registry' !! "memory" = Some factory.
Proof.
  intros factory registry registry'.
  exact (proj1 (proj2 (registration_is_permanent [("other", factory)] registry registry'
                         "memory" factory eq_refl eq_refl))).
Defined.

(** ** Metrics, over any run of recording calls *)

Lemma wrapU64_add_l a b : wrapU64 (wrapU64 a + b) = wrapU64 (a + b).
Proof. unfold wrapU64. by rewrite Zplus_mod_idemp_l. Qed.

Lemma wrapU64_add_r a b : wrapU64 (a + wrapU64 b) = wrapU64 (a + b).
Proof. unfold wrapU64. by rewrite Zplus_mod_idemp_r. Qed.

Lemma apply_op_enabled m op : Enabled (apply_op m op) = Enabled m.
Proof.
  destruct op; cbn [apply_op];
    unfold RecordHit, RecordMiss, RecordEviction, RecordLatency;
    destruct (Enabled m) eqn:Hen; cbn [negb Enabled]; congruence.
Qed.

Lemma apply_ops_snoc ops op m : apply_ops (ops ++ [op]) m = apply_op (apply_ops ops m) op.
Proof. unfold apply_ops. by rewrite foldl_app. Qed.

Lemma apply_ops_enabled ops m : Enabled (apply_ops ops m) = Enabled m.
Proof.
  induction ops as [| op ops IH] using rev_ind; [done |].
  by rewrite apply_ops_snoc, apply_op_enabled.
Qed.

Lemma count_ops_snoc kind ops op :
  count_ops kind (ops ++ [op]) = count_ops kind ops + (if kind op then 1 else 0).
Proof.
  unfold count_ops. rewrite List.filter_app, length_app, Nat2Z.inj_add. cbn [List.filter].
  by destruct (kind op).
Qed.

Lemma durations_snoc ops op :
  durations (ops ++ [op]) =
    durations ops ++ match op with OpRecordLatency d => [d] | _ => [] end.
Proof. unfold durations. rewrite omap_app. by destruct op. Qed.

(** X13.  On an enabled collector, after any run of recording calls, each
    counter is the number of calls of its kind, modulo [2^64]: hits,
    misses, evictions, latency samples, and requests, which count the hits
    and the misses together.  So [Requests = Hits + Misses] holds (modulo
    [2^64]) at every moment, and evictions and latencies are not
    requests. *)
Theorem metrics_counters (ops : list MetricsOp) :
  let m := apply_ops ops (NewMetrics true) in
  Hits m = wrapU64 (count_ops is_hit ops) /\
  Misses m = wrapU64 (count_ops is_miss ops) /\
  Evictions m = wrapU64 (count_ops is_eviction ops) /\
  countLatency m = wrapU64 (Z.of_nat (length (durations ops))) /\
  Requests m = wrapU64 (count_ops is_hit ops + count_ops is_miss ops) /\
  Requests m = wrapU64 (Hits m + Misses m).
Proof.
  cbv zeta.
  assert (Hmain :
    Hits (apply_ops ops (NewMetrics true)) = wrapU64 (count_ops is_hit ops) /\
    Misses (apply_ops ops (NewMetrics true)) = wrapU64 (count_ops is_miss ops) /\
    Evictions (apply_ops ops (NewMetrics true)) = wrapU64 (count_ops is_eviction ops) /\
    countLatency (apply_ops ops (NewMetrics true))
      = wrapU64 (Z.of_nat (length (durations ops))) /\
    Requests (apply_ops ops (NewMetrics true))
      = wrapU64 (count_ops is_hit ops + count_ops is_miss ops)).
  { induction ops as [| op ops IH] using rev_ind.
    - repeat split; reflexivity.
    - destruct IH as (Hh & Hm & He & Hc & Hr).
      pose proof (apply_ops_enabled ops (NewMetrics true)) as Hen.
      rewrite apply_ops_snoc, !count_ops_snoc, durations_snoc.
      set (m := apply_ops ops (NewMetrics true)) in *.
      destruct op; cbn [apply_op is_hit is_miss is_eviction];
        unfold RecordHit, RecordMiss, RecordEviction, RecordLatency;
        rewrite Hen; cbn [negb NewMetrics Enabled Hits Misses Evictions Requests countLatency];
        rewrite ?Z.add_0_r, ?app_nil_r, ?Hh, ?Hm, ?He, ?Hc, ?Hr, ?wrapU64_add_l;
        repeat split; try done; try (f_equal; lia).
      rewrite length_app, Nat2Z.inj_add. done. }
  destruct Hmain as (Hh & Hm & He & Hc & Hr).
  split_and!; try done.
  rewrite Hr, Hh, Hm, wrapU64_add_l, wrapU64_add_r. done.
Qed.

Lemma foldl_min_le a l :
  foldl Z.min a l <= a /\ forall x, x ∈ l -> foldl Z.min a l <= x.
Proof.
  induction l as [| y l IH] using rev_ind.
  - split; [cbn; lia | intros x Hx; by apply elem_of_nil in Hx].
  - rewrite foldl_app. cbn [foldl]. destruct IH as [Ha Hl]. split; [lia |].
    intros x Hx. apply elem_of_app in Hx as [Hx | Hx].
    + specialize (Hl x Hx). lia.
    + apply list_elem_of_singleton in Hx as ->. lia.
Qed.

Lemma foldl_min_in a l : foldl Z.min a l = a \/ foldl Z.min a l ∈ l.
Proof.
  induction l as [| y l IH] using rev_ind; [by left |].
  rewrite foldl_app. cbn [foldl].
  destruct (Z.min_spec (foldl Z.min a l) y) as [[_ ->] | [_ ->]].
  - destruct IH as [-> | Hin]; [by left | right; apply elem_of_app; by left].
  - right. apply elem_of_app. right. by apply list_elem_of_singleton.
Qed.

Lemma foldl_max_ge a l :
  a <= foldl Z.max a l /\ forall x, x ∈ l -> x <= foldl Z.max a l.
Proof.
  induction l as [| y l IH] using rev_ind.
  - split; [cbn; lia | intros x Hx; by apply elem_of_nil in Hx].
  - rewrite foldl_app. cbn [foldl]. destruct IH as [Ha Hl]. split; [lia |].
    intros x Hx. apply elem_of_app in Hx as [Hx | Hx].
    + specialize (Hl x Hx). lia.
    + apply list_elem_of_singleton in Hx as ->. lia.
Qed.

Lemma foldl_max_in a l : foldl Z.max a l = a \/ foldl Z.max a l ∈ l.
Proof.
  induction l as [| y l IH] using rev_ind; [by left |].
  rewrite foldl_app. cbn [foldl].
  destruct (Z.max_spec (foldl Z.max a l) y) as [[_ ->] | [_ ->]].
  - right. apply elem_of_app. right. by apply list_elem_of_singleton.
  - destruct IH as [-> | Hin]; [by left | right; apply elem_of_app; by left].
Qed.

(** The latency fields after a run: the least and the greatest sample
    seen (against the initial values), the last sample, and the sum. *)
Lemma apply_ops_latency (ops : list MetricsOp) :
  let m := apply_ops ops (NewMetrics true) in
  let us := Microseconds <$> durations ops in
  minLatency m = foldl Z.min MaxInt64 us /\
  maxLatency m = foldl Z.max 0 us /\
  lastLatency m = List.last us 0 /\
  totalLatency m = wrapU64 (foldr Z.add 0 us).
Proof.
  cbv zeta. induction ops as [| op ops IH] using rev_ind.
  - repeat split; reflexivity.
  - destruct IH as (Hmin & Hmax & Hlast & Htot).
    pose proof (apply_ops_enabled ops (NewMetrics true)) as Hen.
    rewrite apply_ops_snoc, durations_snoc, fmap_app.
    set (m := apply_ops ops (NewMetrics true)) in *.
    set (us := Microseconds <$> durations ops) in *.
    destruct op; cbn [apply_op];
      unfold RecordHit, RecordMiss, RecordEviction, RecordLatency;
      rewrite Hen; cbn [negb NewMetrics Enabled minLatency maxLatency lastLatency totalLatency];
      cbn [fmap list_fmap]; rewrite ?app_nil_r; try done.
    rewrite !foldl_app, List.last_last, foldr_app. cbn [foldl foldr].
    rewrite Hmin, Hmax, Htot. split_and!.
    + destruct (Z.leb_spec (foldl Z.min MaxInt64 us) (Microseconds duration)); lia.
    + destruct (Z.leb_spec (Microseconds duration) (foldl Z.max 0 us)); lia.
    + done.
    + rewrite wrapU64_add_l, wrapU64_add_r. f_equal.
      rewrite Z.add_0_r.
      clear. induction us as [| u us IH]; cbn [foldr]; [lia |].
      rewrite <- IH. lia.
Qed.

Lemma Microseconds_bounds d :
  0 <= d <= MaxInt64 ->
  0 <= Microseconds d /\ Microseconds d * 1000 <= d < Microseconds d * 1000 + 1000.
Proof.
  intros Hd. unfold Microseconds. rewrite Z.quot_div_nonneg by lia.
  pose proof (Z.div_mod d 1000 ltac:(lia)).
  pose proof (Z.mod_pos_bound d 1000 ltac:(lia)).
  pose proof (Z.div_pos d 1000 ltac:(lia) ltac:(lia)). lia.
Qed.

(** X14.  On an enabled collector that was given at least one latency
    sample, all samples being durations [>= 0]: [MinLatency] and
    [MaxLatency] return the least and the greatest sample and
    [LastLatency] the last one, each rounded down to a whole microsecond,
    so [MinLatency <= LastLatency <= MaxLatency]; none of the three
    overflows.  Other recording calls in between change nothing. *)
Theorem latency_statistics (ops : list MetricsOp) :
  durations ops <> [] ->
  Forall (fun d => 0 <= d <= MaxInt64) (durations ops) ->
  let m := apply_ops ops (NewMetrics true) in
  let us := Microseconds <$> durations ops in
  let lo := foldl Z.min MaxInt64 us in
  let hi := foldl Z.max 0 us in
  (lo ∈ us /\ hi ∈ us /\ forall u, u ∈ us -> lo <= u <= hi) /\
  MinLatency m = lo * Microsecond /\
  MaxLatency m = hi * Microsecond /\
  LastLatency m = List.last us 0 * Microsecond /\
  MinLatency m <= LastLatency m <= MaxLatency m.
Proof.
  intros Hne Hds m us lo hi.
  destruct (apply_ops_latency ops) as (Hmin & Hmax & Hlast & _).
  fold m us lo hi in Hmin, Hmax, Hlast.
  assert (Hus : forall u, u ∈ us -> 0 <= u /\ u * 1000 <= MaxInt64).
  { intros u Hu. subst us. apply list_elem_of_fmap in Hu as (d & -> & Hd).
    rewrite Forall_forall in Hds. specialize (Hds d Hd).
    pose proof (Microseconds_bounds d Hds). lia. }
  assert (Hne' : us <> []).
  { subst us. intros Hnil. apply fmap_nil_inv in Hnil. done. }
  assert (Hlast_in : List.last us 0 ∈ us).
  { destruct (exists_last Hne') as (l & x & ->). rewrite List.last_last.
    apply elem_of_app. right. by apply list_elem_of_singleton. }
  destruct (foldl_min_le MaxInt64 us) as [Hlo_a Hlo_l].
  destruct (foldl_max_ge 0 us) as [Hhi_a Hhi_l].
  fold lo in Hlo_a, Hlo_l. fold hi in Hhi_a, Hhi_l.
  assert (Hlo : lo ∈ us).
  { destruct (foldl_min_in MaxInt64 us) as [Heq | Hin]; [| done].
    fold lo in Heq. exfalso.
    pose proof (Hlo_l _ Hlast_in). pose proof (Hus _ Hlast_in).
    unfold MaxInt64 in *. lia. }
  assert (Hhi : hi ∈ us).
  { destruct (foldl_max_in 0 us) as [Heq | Hin]; [| done].
    fold hi in Heq.
    pose proof (Hhi_l _ Hlast_in). pose proof (Hus _ Hlast_in).
    assert (Hz : List.last us 0 = hi) by lia. by rewrite <- Hz. }
  assert (Hmn : MinLatency m = lo * Microsecond).
  { unfold MinLatency. rewrite Hmin. pose proof (Hus lo Hlo).
    destruct (Z.ltb_spec lo 0); [lia |].
    apply wrap64_small. unfold in_int64, MinInt64, Microsecond, Nanosecond. lia. }
  assert (Hmx : MaxLatency m = hi * Microsecond).
  { unfold MaxLatency. rewrite Hmax. pose proof (Hus hi Hhi).
    apply wrap64_small. unfold in_int64, MinInt64, Microsecond, Nanosecond. lia. }
  assert (Hla : LastLatency m = List.last us 0 * Microsecond).
  { unfold LastLatency. rewrite Hlast. pose proof (Hus _ Hlast_in).
    apply wrap64_small. unfold in_int64, MinInt64, Microsecond, Nanosecond. lia. }
  split_and!; try done.
  - intros u Hu. split; [by apply Hlo_l | by apply Hhi_l].
  - rewrite Hmn, Hla. pose proof (Hlo_l _ Hlast_in).
    unfold Microsecond, Nanosecond. lia.
  - rewrite Hmx, Hla. pose proof (Hhi_l _ Hlast_in).
    unfold Microsecond, Nanosecond. lia.
Qed.

Lemma latency_statistics_witness :
  let ops := [OpRecordLatency 2500; OpRecordMiss; OpRecordLatency 7999;
              OpRecordLatency 4000] in
  let m := apply_ops ops (NewMetrics true) in
  MinLatency m = 2000 /\ MaxLatency m = 7000 /\ LastLatency m = 4000.
Proof.
  intros ops m.
  assert (Hne : durations ops <> []) by discriminate.
  assert (Hds : Forall (fun d => 0 <= d <= MaxInt64) (durations ops)).
  { repeat constructor; vm_compute; discriminate. }
  destruct (latency_statistics ops Hne Hds) as (_ & Hmn & Hmx & Hla & _).
  split; [exact Hmn |]. split; [exact Hmx | exact Hla].
Defined.

(** ** The memoizer over the in-memory backend: a miss, step by step *)

Section MemoryRun.
Context {U : Type}.

Lemma Memory_Get_miss_at key m clk :
  (forall e, entries m !! key = Some e -> fst (IsExpired e clk) = true) ->
  Memory_Get key m clk =
    (nil, false, mkMemory (delete key (entries m)),
     mkClock (readings clk) (pos clk + match entries m !! key with Some _ => 1 | None => 0 end)).
Proof.
  intros Hexp. rewrite Memory_Get_spec.
  destruct (entries m !! key) as [e |] eqn:Hk.
  - specialize (Hexp e eq_refl). rewrite Hexp.
    rewrite IsExpired_value in Hexp. apply andb_true_iff in Hexp as [Hnz _].
    apply negb_true_iff, Z.eqb_neq in Hnz.
    rewrite IsExpired_set by done. cbn [snd]. by rewrite Nat.add_1_r.
  - rewrite delete_id by done. rewrite Nat.add_0_r. by destruct m, clk.
Qed.

Lemma NewEntry_readings v ttl ver clk :
  readings (snd (NewEntry v ttl ver clk)) = readings clk.
Proof. unfold NewEntry, bind, ret, time_Now. by destruct (0 <? ttl). Qed.

(** A miss whose computation succeeds, in full: the state [Get] leaves. *)
Lemma Get_Memory_miss_ok_run ctx key (f : State U (any * error))
    (s : Sys Memory U) result u' :
  sf_m (group (memo s)) !! key = None ->
  (forall e, entries (backend (memo s)) !! key = Some e ->
             fst (IsExpired e (clock s)) = true) ->
  f (user s) = ((result, None), u') ->
  let rd := readings (clock s) in
  let n0 := start_pos key s in
  let ttl := Options.TTL (opts (memo s)) in
  let at_set := mkClock rd (S n0) in
  let e' := fst (NewEntry result ttl 1 at_set) in
  let at_end := snd (NewEntry result ttl 1 at_set) in
  let d := Sub_sat (next_reading at_end) (rd n0) in
  Get ctx key f s =
    (Some (result, None),
     mkSys (mkMemoizer (mkMemory (<[key := e']> (entries (backend (memo s)))))
              (opts (memo s)) (group (memo s))
              (RecordLatency d (RecordMiss (metrics (memo s)))))
           (mkClock rd (S (pos at_end))) u').
Proof.
  intros Hg Hexp Hf rd n0 ttl at_set e' at_end d.
  subst rd n0 ttl at_set e' at_end d. unfold start_pos.
  destruct s as [[m o [g] met] clk u].
  cbn [memo clock user backend opts group metrics sf_m] in *.
  run_sys. rewrite (Memory_Get_miss_at key m clk Hexp). run_sys. rewrite Hg. run_sys.
  rewrite Memory_Get_spec. cbn [entries]. rewrite lookup_delete_eq.
  run_sys. rewrite Hf. run_sys.
  rewrite Memory_Set_spec. run_sys.
  rewrite insert_delete_eq, delete_insert_eq, (delete_id g) by done.
  unfold next_reading.
  rewrite !NewEntry_readings. reflexivity.
Qed.

(** A miss whose computation fails, in full. *)
Lemma Get_Memory_miss_error_run ctx key (f : State U (any * error))
    (s : Sys Memory U) result msg u' :
  sf_m (group (memo s)) !! key = None ->
  (forall e, entries (backend (memo s)) !! key = Some e ->
             fst (IsExpired e (clock s)) = true) ->
  f (user s) = ((result, Some msg), u') ->
  let rd := readings (clock s) in
  let n0 := start_pos key s in
  let d := Sub_sat (rd (S n0)) (rd n0) in
  Get ctx key f s =
    (Some (nil, Some msg),
     mkSys (mkMemoizer (mkMemory (delete key (entries (backend (memo s)))))
              (opts (memo s)) (group (memo s))
              (RecordLatency d (RecordMiss (metrics (memo s)))))
           (mkClock rd (S (S n0))) u').
Proof.
  intros Hg Hexp Hf rd n0 d. subst rd n0 d. unfold start_pos.
  destruct s as [[m o [g] met] clk u].
  cbn [memo clock user backend opts group metrics sf_m] in *.
  run_sys. rewrite (Memory_Get_miss_at key m clk Hexp). run_sys. rewrite Hg. run_sys.
  rewrite Memory_Get_spec. cbn [entries]. rewrite lookup_delete_eq.
  run_sys. rewrite Hf. run_sys.
  by rewrite delete_insert_eq, (delete_id g).
Qed.

(** Live or not: the two cases of a lookup. *)
Lemma live_or_not key (m : Memory) clk :
  (exists e, entries m !! key = Some e /\ fst (IsExpired e clk) = false) \/
  (forall e, entries m !! key = Some e -> fst (IsExpired e clk) = true).
Proof.
  destruct (entries m !! key) as [e |]; [| by right].
  destruct (fst (IsExpired e clk)) eqn:Hexp; [right; congruence | left; eauto].
Qed.
End MemoryRun.

(** ** What [Get] leaves alone *)

Section GetFrame.
Context {B U : Type} `{BM : BackendMethods B}.

Lemma Get_opts_group (ctx : Context) (key : string) (fn : State U (any * error))
    (s : Sys B U) :
  opts (memo (snd (Get ctx key fn s))) = opts (memo s) /\
  sf_m (group (memo (snd (Get ctx key fn s)))) = sf_m (group (memo s)).
Proof.
  destruct s as [[b o [g] met] clk u]. run_sys.
  destruct (impl_Get key b clk) as [[[v ok] b1] clk1].
  destruct ok; run_sys; [done |].
  destruct (g !! key) as [c |] eqn:Hg.
  - destruct (wg c =? 0); [done |]. by destruct (ctx_Done ctx).
  - run_sys. destruct (impl_Get key b1 _) as [[[v2 ok2] b2] clk2].
    destruct ok2; run_sys; [by rewrite delete_insert_eq, delete_id |].
    destruct (fn u) as [[result [msg |]] u']; run_sys;
      [by rewrite delete_insert_eq, delete_id |].
    destruct (impl_Set key result (Options.TTL o) b2 clk2) as [b3 clk3]. run_sys.
    by rewrite delete_insert_eq, delete_id.
Qed.

(** X15.  A call of [Get] never changes the options of the memoizer and
    leaves the coordinator's map as it found it, on every path: a hit, a
    miss that computes (the call it registers is removed before [Do]
    returns, whether the computation fails or not), and a call that finds
    another in flight. *)
Theorem Get_keeps_options_and_coordinator (ctx : Context) (key : string)
    (fn : State U (any * error)) (s : Sys B U) :
  let s' := snd (Get ctx key fn s) in
  opts (memo s') = opts (memo s) /\
  sf_m (group (memo s')) = sf_m (group (memo s)) /\
  (sf_m (group (memo s)) !! key = None -> sf_m (group (memo s')) !! key = None).
Proof.
  intros s'. destruct (Get_opts_group ctx key fn s) as [Ho Hg].
  split; [done |]. split; [done |]. subst s'. by rewrite Hg.
Qed.

(** X16.  The context matters only to a call that waits: when no call
    for the key is in flight, [Get] returns the same result and leaves the
    same state under any two contexts, a cancelled one included. *)
Theorem Get_context_irrelevant_to_owner (ctx ctx' : Context) (key : string)
    (fn : State U (any * error)) (s : Sys B U) :
  sf_m (group (memo s)) !! key = None ->
  Get ctx key fn s = Get ctx' key fn s.
Proof.
  intros Hg. destruct s as [[b o [g] met] clk u].
  cbn [memo group sf_m] in Hg. run_sys.
  destruct (impl_Get key b clk) as [[[v ok] b1] clk1].
  destruct ok; run_sys; [done |]. by rewrite Hg.
Qed.

(** X17.  A call of [Get] that misses the backend while a call for the
    key is in flight does not run its computation.  With its context
    cancelled it returns [(nil, ctx.Err())], having recorded a miss and a
    latency; the caller's state, the coordinator and the backend (as the
    lookup left it) are untouched.  With its context not cancelled it
    does not return until another goroutine moves. *)
Theorem Get_waits_or_gives_up (ctx : Context) (key : string)
    (fn : State U (any * error)) (s : Sys B U) (v : any) (b' : B) (clk' : Clock)
    (c : call) :
  impl_Get key (backend (memo s)) (clock s) = (v, false, b', clk') ->
  sf_m (group (memo s)) !! key = Some c ->
  wg c <> 0 ->
  let s' := snd (Get ctx key fn s) in
  (user s' = user s /\ backend (memo s') = b' /\ group (memo s') = group (memo s)) /\
  fst (Get ctx key fn s) =
    (if ctx_Done ctx then Some (nil, ctx_Err ctx) else None) /\
  (ctx_Done ctx = true ->
   exists d, metrics (memo s') = RecordLatency d (RecordMiss (metrics (memo s)))).
Proof.
  intros Hget Hg Hwg s'. subst s'. destruct s as [[b o [g] met] clk u].
  cbn [memo clock user backend opts group metrics sf_m] in *.
  run_sys. rewrite Hget. run_sys. rewrite Hg.
  destruct (Z.eqb_spec (wg c) 0); [done |].
  destruct (ctx_Done ctx); run_sys; repeat split; try done. by eexists.
Qed.

(** X18.  Of the options, [Get] reads the TTL only: on two memoizers
    that differ in their options but not in the TTL, it returns the same
    result and leaves the same backend, coordinator, metrics, clock and
    caller's state.  [CacheOnCancel], [CleanupInterval], [KeyFunc] and
    [MetricsEnabled] have no effect on a call. *)
Theorem Get_reads_TTL_only (ctx : Context) (key : string)
    (fn : State U (any * error)) (b : B) (o o' : Options.t) (g : SingleFlight)
    (met : Metrics) (clk : Clock) (u : U) :
  Options.TTL o = Options.TTL o' ->
  let run := fun x => Get ctx key fn (mkSys (mkMemoizer b x g met) clk u) in
  fst (run o) = fst (run o') /\
  backend (memo (snd (run o))) = backend (memo (snd (run o'))) /\
  group (memo (snd (run o))) = group (memo (snd (run o'))) /\
  metrics (memo (snd (run o))) = metrics (memo (snd (run o'))) /\
  clock (snd (run o)) = clock (snd (run o')) /\
  user (snd (run o)) = user (snd (run o')).
Proof.
  intros Httl run. subst run. cbv beta. destruct g as [g]. run_sys.
  destruct (impl_Get key b clk) as [[[v ok] b1] clk1].
  destruct ok; run_sys; [done |].
  destruct (g !! key) as [c |] eqn:Hg.
  - destruct (wg c =? 0); [done |]. by destruct (ctx_Done ctx).
  - run_sys. destruct (impl_Get key b1 _) as [[[v2 ok2] b2] clk2].
    destruct ok2; run_sys; [done |].
    destruct (fn u) as [[result [msg |]] u']; run_sys; [done |].
    rewrite <- Httl.
    destruct (impl_Set key result (Options.TTL o) b2 clk2) as [b3 clk3]. by run_sys.
Qed.
End GetFrame.

Lemma Get_context_irrelevant_to_owner_witness :
  let cancelled := mkContext true (Some "context canceled") in
  let f := counting (AInt 42, None) in
  fst (Get cancelled "k" f example_sys) = Some (AInt 42, None).
Proof.
  intros cancelled f.
  rewrite (Get_context_irrelevant_to_owner cancelled context_Background "k" f
             example_sys eq_refl).
  vm_compute. reflexivity.
Defined.

(** A memoizer on which a call for "k" is in flight. *)
Lemma Get_waits_or_gives_up_witness :
  let cancelled := mkContext true (Some "context canceled") in
  let f := counting (AInt 42, None) in
  let busy : Sys Memory nat :=
    mkSys (mkMemoizer Memory_New (Options.mk Hour None false Hour None true)
             (mkSingleFlight {[ "k" := mkCall 1 nil None ]}) (NewMetrics true))
          (mkClock (fun n => Z.of_nat n * Second) 0) 0%nat in
  fst (Get cancelled "k" f busy) = Some (nil, Some "context canceled") /\
  user (snd (Get cancelled "k" f busy)) = 0%nat /\
  fst (Get context_Background "k" f busy) = None.
Proof.
  intros cancelled f busy.
  assert (Hget : impl_Get "k" (backend (memo busy)) (clock busy)
                 = (nil, false, Memory_New, clock busy)) by reflexivity.
  assert (Hg : sf_m (group (memo busy)) !! "k" = Some (mkCall 1 nil None))
    by reflexivity.
  destruct (Get_waits_or_gives_up cancelled "k" f busy nil Memory_New (clock busy)
              (mkCall 1 nil None) Hget Hg ltac:(discriminate))
    as ((Hu & _) & Hres & _).
  destruct (Get_waits_or_gives_up context_Background "k" f busy nil Memory_New
              (clock busy) (mkCall 1 nil None) Hget Hg ltac:(discriminate))
    as (_ & Hres' & _).
  split; [exact Hres |]. split; [exact Hu | exact Hres'].
Defined.

Lemma Get_reads_TTL_only_witness :
  let f := counting (AInt 42, None) in
  let o := Options.mk Hour None false Hour None true in
  let o' := Options.mk Hour None true Second None false in
  let run := fun x =>
    Get context_Background "k" f
      (mkSys (mkMemoizer Memory_New x NewSingleFlight (NewMetrics true))
         (mkClock (fun n => Z.of_nat n * Second) 0) 0%nat) in
  fst (run o) = fst (run o') /\
  backend (memo (snd (run o))) = backend (memo (snd (run o'))).
Proof.
  intros f o o' run.
  destruct (Get_reads_TTL_only context_Background "k" f Memory_New o o'
              NewSingleFlight (NewMetrics true)
              (mkClock (fun n => Z.of_nat n * Second) 0) 0%nat eq_refl)
    as (Hres & Hb & _).
  split; [exact Hres | exact Hb].
Defined.

(** ** The memoizer over the in-memory backend *)

Section MemoryMemoizer.
Context {U : Type}.

Lemma Memory_Get_frame key key' m clk :
  key <> key' ->
  entries (snd (fst (Memory_Get key m clk))) !! key' = entries m !! key'.
Proof.
  intros Hne. rewrite Memory_Get_spec.
  destruct (entries m !! key) as [e |]; [| done].
  destruct (fst (IsExpired e clk)); cbn [fst snd entries]; [| done].
  by rewrite lookup_delete_ne.
Qed.

Lemma Memory_Set_frame key key' v ttl m clk :
  key <> key' ->
  entries (fst (Memory_Set key v ttl m clk)) !! key' = entries m !! key'.
Proof.
  intros Hne. rewrite Memory_Set_spec. cbn [fst entries]. by rewrite lookup_insert_ne.
Qed.

(** A successful [Get] leaves an entry with the value it returned. *)
Lemma Get_Memory_returns_entry ctx key (f : State U (any * error))
    (s s1 : Sys Memory U) v :
  sf_m (group (memo s)) !! key = None ->
  Get ctx key f s = (Some (v, None), s1) ->
  exists e, entries (backend (memo s1)) !! key = Some e /\ Value e = v.
Proof.
  intros Hg Hget.
  destruct (live_or_not key (backend (memo s)) (clock s)) as [(e & Hk & Hexp) | Hmiss].
  - rewrite (Get_hit ctx key f s (Value e) (backend (memo s))
               (snd (IsExpired e (clock s)))) in Hget
      by (by apply Memory_Get_live).
    injection Hget as <- <-. by exists e.
  - destruct (f (user s)) as [[result [msg |]] u'] eqn:Hf.
    + rewrite (Get_Memory_miss_error_run ctx key f s result msg u' Hg Hmiss Hf) in Hget.
      discriminate.
    + rewrite (Get_Memory_miss_ok_run ctx key f s result u' Hg Hmiss Hf) in Hget.
      injection Hget as <- <-. cbn [memo backend entries].
      eexists. split; [apply lookup_insert_eq |].
      unfold NewEntry, bind, ret. by destruct (0 <? _).
Qed.

(** X19.  A [Get] that finds no live entry and whose computation succeeds
    stores the result under the configured TTL, and the lifetime starts
    at the store: the expiry is the clock reading taken by [Set], after
    the computation, plus the TTL, not the time [Get] was called.  The
    entry has version 1; the latency recorded runs from the reading taken
    before [Do] to the one taken after it; the clock has been read three
    times since the lookup. *)
Theorem Get_miss_computes_and_stores (ctx : Context) (key : string)
    (f : State U (any * error)) (s : Sys Memory U) (result : any) (u' : U) :
  sf_m (group (memo s)) !! key = None ->
  (forall e, entries (backend (memo s)) !! key = Some e ->
             fst (IsExpired e (clock s)) = true) ->
  f (user s) = ((result, None), u') ->
  0 < Options.TTL (opts (memo s)) ->
  let rd := readings (clock s) in
  let n0 := start_pos key s in
  let s1 := snd (Get ctx key f s) in
  fst (Get ctx key f s) = Some (result, None) /\
  user s1 = u' /\
  entries (backend (memo s1)) =
    <[key := mkCacheEntry result
               (Add_UnixNano (rd (S n0)) (Options.TTL (opts (memo s)))) 1]>
      (entries (backend (memo s))) /\
  clock s1 = mkClock rd (n0 + 3) /\
  metrics (memo s1) =
    RecordLatency (Sub_sat (rd (n0 + 2)%nat) (rd n0)) (RecordMiss (metrics (memo s))).
Proof.
  intros Hg Hmiss Hf Httl rd n0 s1. subst s1.
  rewrite (Get_Memory_miss_ok_run ctx key f s result u' Hg Hmiss Hf).
  fold rd n0. rewrite NewEntry_ttl by done.
  cbn [fst snd memo backend entries user clock metrics readings pos next_reading].
  unfold next_reading. cbn [readings pos].
  replace (S (S (S n0))) with (n0 + 3)%nat by lia.
  replace (S (S n0)) with (n0 + 2)%nat by lia.
  done.
Qed.

(** X20.  With metrics enabled and no call for the key in flight, a call
    of [Get] run alone counts as exactly one request: a hit, with no latency
    sample, when the key has a live entry; a miss with one latency sample
    otherwise, whether the computation fails or not.  No call records an
    eviction, not even one whose lookup deleted an expired entry. *)
Theorem Get_counts_one_request (ctx : Context) (key : string)
    (f : State U (any * error)) (s : Sys Memory U) :
  sf_m (group (memo s)) !! key = None ->
  Enabled (metrics (memo s)) = true ->
  let met := metrics (memo s) in
  let met' := metrics (memo (snd (Get ctx key f s))) in
  let live := exists e, entries (backend (memo s)) !! key = Some e /\
                        fst (IsExpired e (clock s)) = false in
  Requests met' = wrapU64 (Requests met + 1) /\
  Evictions met' = Evictions met /\
  (live ->
   Hits met' = wrapU64 (Hits met + 1) /\ Misses met' = Misses met /\
   countLatency met' = countLatency met) /\
  (~ live ->
   Hits met' = Hits met /\ Misses met' = wrapU64 (Misses met + 1) /\
   countLatency met' = wrapU64 (countLatency met + 1)).
Proof.
  intros Hg Hen met met' live.
  assert (Hcase :
    (live /\ met' = RecordHit met) \/
    (~ live /\ exists d, met' = RecordLatency d (RecordMiss met))).
  { destruct (live_or_not key (backend (memo s)) (clock s)) as [(e & Hk & Hexp) | Hmiss].
    - left. split; [by exists e |]. subst met'.
      by rewrite (Get_hit ctx key f s (Value e) (backend (memo s))
                    (snd (IsExpired e (clock s)))) by (by apply Memory_Get_live).
    - right. split.
      + intros (e & Hk & Hexp). rewrite (Hmiss e Hk) in Hexp. discriminate.
      + subst met'. destruct (f (user s)) as [[result [msg |]] u'] eqn:Hf.
        * rewrite (Get_Memory_miss_error_run ctx key f s result msg u' Hg Hmiss Hf).
          by eexists.
        * rewrite (Get_Memory_miss_ok_run ctx key f s result u' Hg Hmiss Hf).
          by eexists. }
  clearbody met' live. subst met.
  destruct (metrics (memo s)) as [en h mi ev rq tl cl mn mx la].
  cbn [Enabled] in Hen. subst en.
  destruct Hcase as [[Hl ->] | [Hl [d ->]]];
    unfold RecordLatency, RecordMiss, RecordHit;
    cbn [negb Enabled Hits Misses Evictions Requests countLatency];
    split_and!; try done; intros; done.
Qed.

(** X21.  After [Delete(key)], and after [Clear()], the next [Get] of the
    key runs its computation, whatever was cached: it returns what the
    computation returns (nil with the error when it fails) and the
    caller's state is the one the computation left.  [Delete] leaves the
    other keys alone; [Clear] leaves none. *)
Theorem Get_after_Delete_or_Clear (ctx : Context) (key : string)
    (f : State U (any * error)) (s : Sys Memory U) (result : any) (e : error)
    (u' : U) :
  sf_m (group (memo s)) !! key = None ->
  f (user s) = ((result, e), u') ->
  let expected := Some (match e with Some _ => nil | None => result end, e) in
  let after_Delete := snd (Delete key s) in
  let after_Clear := snd (Clear s) in
  (fst (Get ctx key f after_Delete) = expected /\
   user (snd (Get ctx key f after_Delete)) = u') /\
  (fst (Get ctx key f after_Clear) = expected /\
   user (snd (Get ctx key f after_Clear)) = u') /\
  (forall k, k <> key ->
     entries (backend (memo after_Delete)) !! k = entries (backend (memo s)) !! k) /\
  entries (backend (memo after_Clear)) = ∅.
Proof.
  intros Hg Hf expected after_Delete after_Clear.
  assert (Hrun : forall s0 : Sys Memory U,
            sf_m (group (memo s0)) !! key = None ->
            entries (backend (memo s0)) !! key = None ->
            user s0 = user s ->
            fst (Get ctx key f s0) = expected /\ user (snd (Get ctx key f s0)) = u').
  { intros s0 Hg0 Hk0 Hu0.
    assert (Hmiss : forall e0, entries (backend (memo s0)) !! key = Some e0 ->
                               fst (IsExpired e0 (clock s0)) = true)
      by (intros e0 He0; congruence).
    rewrite <- Hu0 in Hf. subst expected. destruct e as [msg |].
    - by rewrite (Get_Memory_miss_error_run ctx key f s0 result msg u' Hg0 Hmiss Hf).
    - by rewrite (Get_Memory_miss_ok_run ctx key f s0 result u' Hg0 Hmiss Hf). }
  subst after_Delete after_Clear. unfold Delete, Clear.
  cbn [snd memo backend set_backend impl_Delete impl_Clear Memory_methods
       Memory_Delete Memory_Clear entries].
  split_and!.
  - apply Hrun; [done | apply lookup_delete_eq | done].
  - apply Hrun; [done | apply lookup_delete_eq | done].
  - apply Hrun; [done | apply lookup_empty | done].
  - apply Hrun; [done | apply lookup_empty | done].
  - intros k Hk. by rewrite lookup_delete_ne.
  - done.
Qed.

(** X22.  The TTL at work across two calls made one after the other,
    with [t + TTL] an [int64].  The first [Get] misses and stores its
    result at time [t >= 0] (the reading [Set] takes); the second
    follows at time [t'] (the next reading).  If [t' <= t + TTL] the
    second returns the cached value and its computation is not run (the
    caller's state is as the first call left it); if [t' > t + TTL] the
    entry has expired and the second runs its computation and returns
    its outcome. *)
Theorem Get_recomputes_after_TTL (ctx ctx2 : Context) (key : string)
    (f f2 : State U (any * error)) (s : Sys Memory U)
    (result result2 : any) (e2 : error) (u' u2 : U) :
  sf_m (group (memo s)) !! key = None ->
  (forall e, entries (backend (memo s)) !! key = Some e ->
             fst (IsExpired e (clock s)) = true) ->
  f (user s) = ((result, None), u') ->
  f2 u' = ((result2, e2), u2) ->
  let ttl := Options.TTL (opts (memo s)) in
  let rd := readings (clock s) in
  let n0 := start_pos key s in
  0 < ttl -> 0 <= rd (S n0) -> in_int64 (rd (S n0) + ttl) ->
  let s1 := snd (Get ctx key f s) in
  let second := Get ctx2 key f2 s1 in
  (rd (n0 + 3)%nat <= rd (S n0) + ttl ->
   fst second = Some (result, None) /\ user (snd second) = u') /\
  (rd (S n0) + ttl < rd (n0 + 3)%nat ->
   fst second = Some (match e2 with Some _ => nil | None => result2 end, e2) /\
   user (snd second) = u2).
Proof.
  intros Hg Hmiss Hf Hf2 ttl rd n0 Httl Hpos Hin s1 second.
  pose proof (Get_Memory_miss_ok_run ctx key f s result u' Hg Hmiss Hf) as Hrun.
  cbv zeta in Hrun. fold rd n0 ttl in Hrun.
  rewrite NewEntry_ttl in Hrun by done.
  cbn [fst snd readings pos next_reading] in Hrun.
  unfold Add_UnixNano, next_reading in Hrun. cbn [readings pos] in Hrun.
  rewrite wrap64_small in Hrun by done.
  assert (Hs1 : s1 = snd (Get ctx key f s)) by done.
  rewrite Hrun in Hs1. cbn [snd] in Hs1.
  set (e1 := mkCacheEntry result (rd (S n0) + ttl) 1) in *.
  assert (Hk1 : entries (backend (memo s1)) !! key = Some e1)
    by (rewrite Hs1; cbn [memo backend entries]; apply lookup_insert_eq).
  assert (Hg1 : sf_m (group (memo s1)) !! key = None) by (by rewrite Hs1).
  assert (Hu1 : user s1 = u') by (by rewrite Hs1).
  assert (Hnext : next_reading (clock s1) = rd (n0 + 3)%nat).
  { rewrite Hs1. unfold next_reading. cbn [clock readings pos]. f_equal. lia. }
  assert (Hexp : fst (IsExpired e1 (clock s1))
                 = bool_decide (rd (S n0) + ttl < rd (n0 + 3)%nat)).
  { rewrite IsExpired_after by (cbn [expiry e1]; lia). by rewrite Hnext. }
  subst second. split.
  - intros Hle. rewrite bool_decide_eq_false_2 in Hexp by lia.
    by rewrite (Get_hit ctx2 key f2 s1 (Value e1) (backend (memo s1))
                  (snd (IsExpired e1 (clock s1)))) by (by apply Memory_Get_live).
  - intros Hgt. rewrite bool_decide_eq_true_2 in Hexp by lia.
    assert (Hmiss1 : forall e, entries (backend (memo s1)) !! key = Some e ->
                               fst (IsExpired e (clock s1)) = true)
      by (intros e He; congruence).
    rewrite <- Hu1 in Hf2. destruct e2 as [msg |].
    + by rewrite (Get_Memory_miss_error_run ctx2 key f2 s1 result2 msg u2 Hg1 Hmiss1 Hf2).
    + by rewrite (Get_Memory_miss_ok_run ctx2 key f2 s1 result2 u2 Hg1 Hmiss1 Hf2).
Qed.

(** X23.  A call of [Get] on a key leaves the entries of every other key
    as they were, on every path, a call in flight or not. *)
Theorem Get_other_keys_untouched (ctx : Context) (key key' : string)
    (f : State U (any * error)) (s : Sys Memory U) :
  key <> key' ->
  entries (backend (memo (snd (Get ctx key f s)))) !! key' =
  entries (backend (memo s)) !! key'.
Proof.
  intros Hne. destruct s as [[m o [g] met] clk u]. run_sys.
  pose proof (Memory_Get_frame key key' m clk Hne) as H1.
  destruct (Memory_Get key m clk) as [[[v ok] m1] clk1]. cbn [fst snd] in H1.
  destruct ok; run_sys; [done |].
  destruct (g !! key) as [c |] eqn:Hg.
  - destruct (wg c =? 0); [done |]. by destruct (ctx_Done ctx).
  - run_sys.
    match goal with
    | |- context [Memory_Get key m1 ?c0] =>
        pose proof (Memory_Get_frame key key' m1 c0 Hne) as H2;
        destruct (Memory_Get key m1 c0) as [[[v2 ok2] m2] clk2]
    end.
    cbn [fst snd] in H2.
    destruct ok2; run_sys; [congruence |].
    destruct (f u) as [[result [msg |]] u']; run_sys; [congruence |].
    pose proof (Memory_Set_frame key key' result (Options.TTL o) m2 clk2 Hne) as H3.
    destruct (Memory_Set key result (Options.TTL o) m2 clk2) as [m3 clk3].
    cbn [fst] in H3. run_sys. congruence.
Qed.
End MemoryMemoizer.

Lemma Get_miss_computes_and_stores_witness :
  let s1 := snd (Get context_Background "k" (counting (AInt 42, None)) example_sys) in
  entries (backend (memo s1)) = {[ "k" := mkCacheEntry (AInt 42) (Second + Hour) 1 ]} /\
  clock s1 = mkClock (readings (clock example_sys)) 3.
Proof.
  intros s1.
  assert (Hmiss : forall e, entries (backend (memo example_sys)) !! "k" = Some e ->
                            fst (IsExpired e (clock example_sys)) = true)
    by (intros e He; vm_compute in He; discriminate).
  destruct (Get_miss_computes_and_stores context_Background "k"
              (counting (AInt 42, None)) example_sys (AInt 42) 1%nat
              eq_refl Hmiss eq_refl eq_refl)
    as (_ & _ & He & Hclk & _).
  split; [exact He | exact Hclk].
Defined.

Lemma Get_counts_one_request_witness :
  let met := metrics (memo (snd (Get context_Background "k"
                                   (counting (nil, Some "boom")) stale_sys))) in
  Requests met = 1 /\ Evictions met = 0.
Proof.
  intros met.
  destruct (Get_counts_one_request context_Background "k"
              (counting (nil, Some "boom")) stale_sys eq_refl eq_refl)
    as (Hreq & Hev & _).
  split; [exact Hreq | exact Hev].
Defined.

Lemma Get_after_Delete_or_Clear_witness :
  let s1 := snd (Get context_Background "k" (counting (AInt 42, None)) example_sys) in
  let s2 := snd (Delete "k" s1) in
  fst (Get context_Background "k" (counting (AInt 43, None)) s2) = Some (AInt 43, None) /\
  user (snd (Get context_Background "k" (counting (AInt 43, None)) s2)) = 2%nat.
Proof.
  intros s1 s2.
  assert (Hg : sf_m (group (memo s1)) !! "k" = None) by (vm_compute; reflexivity).
  assert (Hf : counting (AInt 43, None) (user s1) = ((AInt 43, None), 2%nat))
    by (vm_compute; reflexivity).
  destruct (Get_after_Delete_or_Clear context_Background "k"
              (counting (AInt 43, None)) s1 (AInt 43) None 2%nat Hg Hf)
    as ((Hres & Hu) & _).
  split; [exact Hres | exact Hu].
Defined.

Lemma Get_recomputes_after_TTL_witness :
  let s1 := snd (Get context_Background "k" (counting (AInt 42, None)) hourly_sys) in
  fst (Get context_Background "k" (counting (AInt 43, None)) s1) = Some (AInt 43, None) /\
  user (snd (Get context_Background "k" (counting (AInt 43, None)) s1)) = 2%nat.
Proof.
  intros s1.
  assert (Hmiss : forall e, entries (backend (memo hourly_sys)) !! "k" = Some e ->
                            fst (IsExpired e (clock hourly_sys)) = true)
    by (intros e He; vm_compute in He; discriminate).
  destruct (Get_recomputes_after_TTL context_Background context_Background "k"
              (counting (AInt 42, None)) (counting (AInt 43, None)) hourly_sys
              (AInt 42) (AInt 43) None 1%nat 2%nat
              eq_refl Hmiss eq_refl eq_refl eq_refl
              ltac:(vm_compute; discriminate)
              ltac:(vm_compute; split; discriminate))
    as (_ & Hlate).
  exact (Hlate eq_refl).
Defined.

Lemma Get_other_keys_untouched_witness :
  let s1 := snd (Get context_Background "j" (counting (AInt 42, None)) stale_sys) in
  entries (backend (memo s1)) !! "k" = Some (mkCacheEntry (AInt 1) Second 1).
Proof.
  intros s1. subst s1.
  rewrite (Get_other_keys_untouched context_Background "j" "k"
             (counting (AInt 42, None)) stale_sys ltac:(discriminate)).
  reflexivity.
Defined.

(** ** [MemoizeFunc] *)

(** X24.  The function [MemoizeFunc] returns caches under the key of the
    argument list alone ([KeyFunc] of the options, or "memoized_func_"
    followed by the formatted arguments when [KeyFunc] is nil): the
    function wrapped is no part of the key.  After a successful call,
    while the entry lives, a call of any wrapper of the same memoizer
    with an argument list of the same key returns the cached value and
    does not invoke its function. *)
Theorem MemoizeFunc_key_is_arguments_only {U : Type} (Sprintf_v : list any -> string)
    (ctx ctx2 : Context) (fn gn : Context -> list any -> State U (any * error))
    (args args2 : list any) (s s1 : Sys Memory U) (v : any) :
  let key := MemoizeFunc_key Sprintf_v (memo s) args in
  sf_m (group (memo s)) !! key = None ->
  MemoizeFunc Sprintf_v fn ctx args s = (Some (v, None), s1) ->
  MemoizeFunc_key Sprintf_v (memo s) args2 = key ->
  (forall e, entries (backend (memo s1)) !! key = Some e ->
             fst (IsExpired e (clock s1)) = false) ->
  fst (MemoizeFunc Sprintf_v gn ctx2 args2 s1) = Some (v, None) /\
  user (snd (MemoizeFunc Sprintf_v gn ctx2 args2 s1)) = user s1.
Proof.
  intros key Hg Hcall Hkey Hlive. unfold MemoizeFunc in *. fold key in Hcall.
  assert (Ho : opts (memo s1) = opts (memo s)).
  { pose proof (Get_opts_group ctx key (fn ctx args) s) as [Ho _].
    by rewrite Hcall in Ho. }
  assert (Hkey1 : MemoizeFunc_key Sprintf_v (memo s1) args2 = key).
  { rewrite <- Hkey. unfold MemoizeFunc_key. by rewrite Ho. }
  rewrite Hkey1.
  destruct (Get_Memory_returns_entry ctx key (fn ctx args) s s1 v Hg Hcall)
    as (e & He & Hv).
  rewrite (Get_hit ctx2 key (gn ctx2 args2) s1 (Value e) (backend (memo s1))
             (snd (IsExpired e (clock s1))))
    by (apply Memory_Get_live; [done | by apply Hlive]).
  by rewrite Hv.
Qed.

Lemma MemoizeFunc_key_is_arguments_only_witness :
  let double := fun (_ : Context) (_ : list any) => counting (AInt 10, None) in
  let triple := fun (_ : Context) (_ : list any) => counting (AInt 15, None) in
  let s1 := snd (MemoizeFunc standin_Sprintf_v double context_Background [AInt 5]
                   example_sys) in
  fst (MemoizeFunc standin_Sprintf_v triple context_Background [AInt 7] s1)
    = Some (AInt 10, None) /\
  user (snd (MemoizeFunc standin_Sprintf_v triple context_Background [AInt 7] s1))
    = 1%nat.
Proof.
  intros double triple s1.
  assert (Hcall : MemoizeFunc standin_Sprintf_v double context_Background [AInt 5]
                    example_sys = (Some (AInt 10, None), s1))
    by (vm_compute; reflexivity).
  assert (Hlive : forall e,
            entries (backend (memo s1))
              !! MemoizeFunc_key standin_Sprintf_v (memo example_sys) [AInt 5] = Some e ->
            fst (IsExpired e (clock s1)) = false).
  { intros e He. vm_compute in He. injection He as <-. vm_compute. reflexivity. }
  exact (MemoizeFunc_key_is_arguments_only standin_Sprintf_v context_Background
           context_Background double triple [AInt 5] [AInt 7] example_sys s1 (AInt 10)
           eq_refl Hcall eq_refl Hlive).
Defined.

(** ** [New], then [Get] *)

(** X25.  [New] with a positive TTL as its only option returns a
    memoizer over a fresh in-memory backend, with that TTL, nothing in
    flight and metrics disabled; on it, the first [Get] of any key runs
    the computation and returns its outcome: the value with a nil error,
    or nil with the error. *)
Theorem New_then_Get `{lib : GoLibrary} {U : Type} (ttl : Z) (ctx : Context)
    (key : string) (f : State U (any * error)) (clk : Clock) (u u' : U)
    (result : any) (e : error) :
  0 < ttl ->
  f u = ((result, e), u') ->
  exists m,
    New [WithTTL ttl] = Returns m /\
    backend m = Memory_Backend Memory_New /\
    Options.TTL (opts m) = ttl /\
    metrics m = NewMetrics false /\
    fst (Get ctx key f (mkSys m clk u))
      = Some (match e with Some _ => nil | None => result end, e) /\
    user (snd (Get ctx key f (mkSys m clk u))) = u'.
Proof.
  intros Httl Hf. rewrite New_spec. cbn.
  destruct (Z.leb_spec ttl 0); [lia |].
  eexists. split; [reflexivity |]. cbn [backend opts metrics Options.TTL].
  split; [done |]. split; [done |]. split; [done |].
  match goal with
  | |- context [mkMemoizer _ ?o _ _] =>
      set (s := mkSys (mkMemoizer Memory_New o NewSingleFlight (NewMetrics false)) clk u)
  end.
  change (mkSys _ clk u) with (as_Backend s).
  rewrite Get_as_Backend.
  assert (Hmiss : forall e0, entries (backend (memo s)) !! key = Some e0 ->
                             fst (IsExpired e0 (clock s)) = true)
    by (intros e0 He0; cbn in He0; by rewrite lookup_empty in He0).
  destruct e as [msg |].
  - by rewrite (Get_Memory_miss_error_run ctx key f s result msg u' eq_refl Hmiss Hf).
  - by rewrite (Get_Memory_miss_ok_run ctx key f s result u' eq_refl Hmiss Hf).
Qed.

Lemma New_then_Get_witness :
  exists m,
    @New standin_library [WithTTL (30 * Second)] = Returns m /\
    fst (Get context_Background "k" (counting (AInt 42, None))
           (mkSys m (mkClock (fun n => Z.of_nat n * Second) 0) 0%nat))
      = Some (AInt 42, None).
Proof.
  destruct (@New_then_Get standin_library nat (30 * Second) context_Background "k"
              (counting (AInt 42, None)) (mkClock (fun n => Z.of_nat n * Second) 0)
              0%nat 1%nat (AInt 42) None eq_refl eq_refl)
    as (m & Hnew & _ & _ & _ & Hget & _).
  exists m. split; [exact Hnew | exact Hget].
Defined.

(** ** Concurrent callers: ownership *)

Section Ownership.
Context {U : Type}.
Variables (callers : list (Caller U)) (key : string) (ttl : Z).

(** A step that keeps the map and keeps the goroutine an owner of the
    same call, or not an owner. *)
Lemma map_owned_local (cfg : Config U) i p p' (sh' : Shared U) :
  map_owned key cfg ->
  threads cfg !! i = Some p ->
  sh_m sh' = sh_m (shared cfg) ->
  (forall c, owner_of p = Some c -> owner_of p' = Some c) ->
  map_owned key (mkConfig sh' (<[i := p']> (threads cfg))).
Proof.
  intros Hinv Hp Hm Hown k c Hk. cbn [shared threads] in *. rewrite Hm in Hk.
  destruct (Hinv k c Hk) as (-> & j & q & Hq & Hc). split; [done |].
  destruct (decide (i = j)) as [<- | Hne].
  - exists i, p'. split.
    + apply list_lookup_insert_eq. by eapply lookup_lt_Some.
    + apply Hown. congruence.
  - exists j, q. split; [| done]. by rewrite list_lookup_insert_ne.
Qed.

Lemma map_owned_step (cfg cfg' : Config U) (choice : nat * bool) :
  map_owned key cfg ->
  sched_step callers key ttl choice cfg = Some cfg' ->
  map_owned key cfg'.
Proof.
  destruct choice as [i b]. intros Hinv Hstep.
  apply sched_step_inv in Hstep as (p & who & p' & sh' & Hp & Hwho & Hth & ->).
  destruct cfg as [[mem clk m calls u ran] ts]. cbn [shared threads] in *.
  set (cfg := mkConfig (mkShared mem clk m calls u ran) ts) in *.
  destruct p; cbn [thread_step sh_mem sh_clock sh_m sh_calls sh_user sh_ran] in Hth.
  - (* AtLookup *)
    destruct (Memory_Get key mem clk) as [[[v ok] mem'] clk'].
    injection Hth as <- <-.
    by apply (map_owned_local cfg i AtLookup).
  - (* AtDo *)
    destruct (m !! key) as [c |] eqn:Hm.
    + injection Hth as <- <-. by apply (map_owned_local cfg i AtDo).
    + injection Hth as <- <-. intros k c Hk. cbn [shared threads sh_m] in *.
      destruct (decide (key = k)) as [<- | Hne].
      * rewrite lookup_insert_eq in Hk. injection Hk as <-. split; [done |].
        exists i, (AtRecheck (length calls)). split; [| done].
        apply list_lookup_insert_eq. by eapply lookup_lt_Some.
      * rewrite lookup_insert_ne in Hk by done.
        destruct (Hinv k c Hk) as [-> _]. done.
  - (* Waiting *)
    destruct b.
    + destruct (ctx_Done (caller_ctx who)); [| discriminate].
      injection Hth as <- <-. by apply (map_owned_local cfg i (Waiting c)).
    + destruct (calls !! c) as [cl |]; [| discriminate].
      destruct (wg cl =? 0); [| discriminate].
      injection Hth as <- <-. by apply (map_owned_local cfg i (Waiting c)).
  - (* AtRecheck *)
    destruct (Memory_Get key mem clk) as [[[v ok] mem'] clk'].
    injection Hth as <- <-.
    apply (map_owned_local cfg i (AtRecheck c)); [done | done | done |].
    by destruct ok.
  - (* AtCompute *)
    destruct (caller_fn who u) as [[result e] u'].
    injection Hth as <- <-.
    apply (map_owned_local cfg i (AtCompute c)); [done | done | done |].
    by destruct e.
  - (* AtStore *)
    destruct (Memory_Set key result ttl mem clk) as [mem' clk'].
    injection Hth as <- <-.
    by apply (map_owned_local cfg i (AtStore c result)).
  - (* AtPublish *)
    injection Hth as <- <-.
    by apply (map_owned_local cfg i (AtPublish c r)).
  - (* AtCleanup *)
    injection Hth as <- <-. intros k c' Hk. cbn [shared threads sh_m] in *.
    apply lookup_delete_Some in Hk as [Hne Hk].
    destruct (Hinv k c' Hk) as [-> _]. done.
  - discriminate.
Qed.

Lemma map_owned_run (schedule : list (nat * bool)) :
  forall cfg cfg' : Config U,
    map_owned key cfg ->
    run callers key ttl schedule cfg = Some cfg' ->
    map_owned key cfg'.
Proof.
  induction schedule as [| choice rest IH]; intros cfg cfg' Hinv Hrun; cbn in Hrun.
  - by injection Hrun as <-.
  - destruct (sched_step callers key ttl choice cfg) as [cfg1 |] eqn:Hstep;
      [| discriminate].
    eapply IH; [| exact Hrun]. eapply map_owned_step; eauto.
Qed.

(** X26.  At every moment of every interleaving of calls of [Get] with
    one key, at most one goroutine is in the owner's part of [Do], between
    registering its call and removing it, so two computations for the key
    never run at the same time; and the coordinator's map holds the call
    of that owner.  This holds whatever the computations return and
    whichever contexts are cancelled. *)
Theorem one_owner_at_a_time (mem : Memory) (clk : Clock) (u : U)
    (schedule : list (nat * bool)) (cfg : Config U) :
  run callers key ttl schedule (init callers mem clk u) = Some cfg ->
  (forall i j p q,
      threads cfg !! i = Some p -> threads cfg !! j = Some q ->
      is_Some (owner_of p) -> is_Some (owner_of q) -> i = j) /\
  (forall i p c,
      threads cfg !! i = Some p -> owner_of p = Some c ->
      sh_m (shared cfg) !! key = Some c).
Proof.
  intros Hrun.
  destruct (Sessions_run key ttl (readings clk) callers schedule _ _
              (Structural_init key (readings clk) callers mem clk u eq_refl)
              (Sessions_init callers mem clk u) Hrun) as [Hst _].
  split.
  - apply (st_owner_unique _ _ _ Hst).
  - apply (st_owner_map _ _ _ Hst).
Qed.

(** X27.  The coordinator keeps no record behind: in every state an
    interleaving reaches, a record in its map is under the key and
    belongs to a goroutine that is still an owner; so once every call has
    returned the map is empty, also after computations that failed and
    waits that were given up. *)
Theorem coordinator_map_released (mem : Memory) (clk : Clock) (u : U)
    (schedule : list (nat * bool)) (cfg : Config U) :
  run callers key ttl schedule (init callers mem clk u) = Some cfg ->
  (forall k c,
      sh_m (shared cfg) !! k = Some c ->
      k = key /\ exists i p, threads cfg !! i = Some p /\ owner_of p = Some c) /\
  (final cfg = true -> sh_m (shared cfg) = ∅).
Proof.
  intros Hrun.
  assert (Hinv : map_owned key cfg).
  { eapply map_owned_run; [| exact Hrun].
    intros k c Hk. cbn in Hk. by rewrite lookup_empty in Hk. }
  split; [exact Hinv |].
  intros Hfin. apply map_empty. intros k.
  destruct (sh_m (shared cfg) !! k) as [c |] eqn:Hk; [| done].
  destruct (Hinv k c Hk) as (_ & i & p & Hp & Hc).
  unfold final in Hfin. rewrite forallb_forall in Hfin.
  assert (Hr : is_returned p = true)
    by (apply Hfin, list_elem_of_In, list_elem_of_lookup; eauto).
  by destruct p.
Qed.
End Ownership.

Lemma one_owner_at_a_time_witness :
  exists cfg,
    run two_failing "k" Hour [(0, false); (0, false); (1, false); (1, false)]%nat
      (init two_failing Memory_New bounded_clock 0%nat) = Some cfg /\
    threads cfg = [AtRecheck 0; Waiting 0] /\
    sh_m (shared cfg) !! "k" = Some 0%nat.
Proof.
  eexists. split; [vm_compute; reflexivity |]. split; [reflexivity |].
  refine (proj2 (one_owner_at_a_time two_failing "k" Hour Memory_New bounded_clock
                   0%nat [(0, false); (0, false); (1, false); (1, false)]%nat _ _)
            0%nat (AtRecheck 0) 0%nat _ _).
  - vm_compute. reflexivity.
  - reflexivity.
  - reflexivity.
Defined.

Lemma coordinator_map_released_witness :
  exists cfg,
    run two_failing "k" Hour one_after_the_other
      (init two_failing Memory_New bounded_clock 0%nat) = Some cfg /\
    final cfg = true /\
    sh_m (shared cfg) = ∅.
Proof.
  destruct (run two_failing "k" Hour one_after_the_other
              (init two_failing Memory_New bounded_clock 0%nat)) as [cfg |] eqn:Hrun;
    [| by vm_compute in Hrun].
  exists cfg. split; [reflexivity |].
  assert (Hfin : final cfg = true).
  { vm_compute in Hrun. injection Hrun as <-. reflexivity. }
  split; [exact Hfin |].
  exact (proj2 (coordinator_map_released two_failing "k" Hour Memory_New bounded_clock
                  0%nat one_after_the_other cfg Hrun) Hfin).
Defined.
